(** * LandRegistry: a shallow embedding of contracts/contracts/LandRegistry.sol

    The contract is modelled as a state record (its storage plus its ether
    balance) and one function per external entry point, written in a small
    state/error/log monad.  Every storage write, every emitted event and
    every value transfer is appended to an effect log in the order in which
    the Solidity source performs it, so that properties about the order of
    effects can be stated on the log.  A call that reverts returns [Err] and
    the caller keeps the state it had before the call.

    Conventions:
    - [uint256] and [address] are [N]; [address(0)] is [0].  Solidity 0.8
      arithmetic is checked: the two counter increments revert with a panic
      instead of wrapping.  Gas is not modelled.
    - A Solidity [mapping] is a [gmap] read with a default (the zero value).
    - The inherited OpenZeppelin pieces (AccessControl, Pausable,
      ReentrancyGuard) are modelled by the state they keep and the
      modifiers and functions the contract uses or exposes.
    - [payable(a).call{value: v}("")] succeeds when the contract balance
      covers [v] and the recipient accepts the payment; which recipients
      accept is part of the call context.  A recipient is an account, or a
      contract other than the registry whose receive hook does not call
      back into the registry; the reentrancy latch is modelled as the
      contract keeps it.

    The file has three parts: the embedding of the contract, the notions
    and invariants its properties are stated with, and the properties:
    first those of the specification's claims, then further properties of
    the views, the records, the indexes and the entry points. *)

From stdpp Require Import gmap strings list fin_maps sorting.
From Stdlib Require Import NArith Lia Ascii.

Local Open Scope string_scope.
Local Open Scope N_scope.

(** ** Basic types *)

Abbreviation address := N (only parsing).
Abbreviation uint256 := N (only parsing).

Definition MAX_UINT256 : N := 2 ^ 256 - 1.

(** [bytes32] role identifiers.  The four named roles are the keccak
    constants of the contract, [DEFAULT_ADMIN_ROLE] is [bytes32(0)] and
    [OtherRole h] is any other value a caller may pass to [registerUser]. *)
Inductive Role : Type :=
  | DEFAULT_ADMIN_ROLE
  | SUPERADMIN_ROLE
  | GOVERNMENT_ROLE
  | PROPERTY_OWNER_ROLE
  | LEGAL_PROFESSIONAL_ROLE
  | OtherRole (h : N).

#[global] Instance Role_eq_dec : EqDecision Role.
Proof. solve_decision. Defined.

Definition Role_encode (r : Role) : N :=
  match r with
  | DEFAULT_ADMIN_ROLE => 0
  | SUPERADMIN_ROLE => 1
  | GOVERNMENT_ROLE => 2
  | PROPERTY_OWNER_ROLE => 3
  | LEGAL_PROFESSIONAL_ROLE => 4
  | OtherRole h => 5 + h
  end.

Definition Role_decode (n : N) : Role :=
  if n =? 0 then DEFAULT_ADMIN_ROLE
  else if n =? 1 then SUPERADMIN_ROLE
  else if n =? 2 then GOVERNMENT_ROLE
  else if n =? 3 then PROPERTY_OWNER_ROLE
  else if n =? 4 then LEGAL_PROFESSIONAL_ROLE
  else OtherRole (n - 5).

Lemma Role_decode_encode (r : Role) : Role_decode (Role_encode r) = r.
Proof.
  destruct r; try reflexivity.
  unfold Role_decode, Role_encode.
  rewrite !(proj2 (N.eqb_neq _ _)) by lia.
  f_equal. lia.
Qed.

#[global] Instance Role_countable : Countable Role :=
  inj_countable' Role_encode Role_decode Role_decode_encode.

Inductive PropertyStatus : Type :=
  | PS_Pending
  | PS_Approved
  | PS_Rejected
  | PS_ListedForSale
  | PS_SaleInProgress
  | PS_Sold.

Inductive TransactionStatus : Type :=
  | TS_Pending
  | TS_Approved
  | TS_Rejected
  | TS_Completed
  | TS_Cancelled.

#[global] Instance PropertyStatus_eq_dec : EqDecision PropertyStatus.
Proof. solve_decision. Defined.

#[global] Instance TransactionStatus_eq_dec : EqDecision TransactionStatus.
Proof. solve_decision. Defined.

Record Property : Type := mkProperty {
  p_id : uint256;
  p_state : string;
  p_district : string;
  p_village : string;
  p_surveyNumber : string;
  p_owner : address;
  p_marketValue : uint256;
  p_propertyId : string;
  p_ipfsHash : string;
  p_status : PropertyStatus;
  p_registeredAt : uint256;
  p_lastUpdated : uint256;
  p_isActive : bool
}.

Record Transaction : Type := mkTransaction {
  t_id : uint256;
  t_propertyId : uint256;
  t_seller : address;
  t_buyer : address;
  t_price : uint256;
  t_status : TransactionStatus;
  t_requestedAt : uint256;
  t_completedAt : uint256;
  t_ipfsHash : string
}.

(** The zero values a mapping returns for a key that was never written. *)
Definition zeroProperty : Property :=
  mkProperty 0 "" "" "" "" 0 0 "" "" PS_Pending 0 0 false.

Definition zeroTransaction : Transaction :=
  mkTransaction 0 0 0 0 0 TS_Pending 0 0 "".

(** Field updates of the two structs. *)
Definition with_p_owner (v : address) (p : Property) : Property :=
  mkProperty (p_id p) (p_state p) (p_district p) (p_village p)
    (p_surveyNumber p) v (p_marketValue p) (p_propertyId p) (p_ipfsHash p)
    (p_status p) (p_registeredAt p) (p_lastUpdated p) (p_isActive p).

Definition with_p_marketValue (v : uint256) (p : Property) : Property :=
  mkProperty (p_id p) (p_state p) (p_district p) (p_village p)
    (p_surveyNumber p) (p_owner p) v (p_propertyId p) (p_ipfsHash p)
    (p_status p) (p_registeredAt p) (p_lastUpdated p) (p_isActive p).

Definition with_p_ipfsHash (v : string) (p : Property) : Property :=
  mkProperty (p_id p) (p_state p) (p_district p) (p_village p)
    (p_surveyNumber p) (p_owner p) (p_marketValue p) (p_propertyId p) v
    (p_status p) (p_registeredAt p) (p_lastUpdated p) (p_isActive p).

Definition with_p_status (v : PropertyStatus) (p : Property) : Property :=
  mkProperty (p_id p) (p_state p) (p_district p) (p_village p)
    (p_surveyNumber p) (p_owner p) (p_marketValue p) (p_propertyId p)
    (p_ipfsHash p) v (p_registeredAt p) (p_lastUpdated p) (p_isActive p).

Definition with_p_lastUpdated (v : uint256) (p : Property) : Property :=
  mkProperty (p_id p) (p_state p) (p_district p) (p_village p)
    (p_surveyNumber p) (p_owner p) (p_marketValue p) (p_propertyId p)
    (p_ipfsHash p) (p_status p) (p_registeredAt p) v (p_isActive p).

Definition with_p_isActive (v : bool) (p : Property) : Property :=
  mkProperty (p_id p) (p_state p) (p_district p) (p_village p)
    (p_surveyNumber p) (p_owner p) (p_marketValue p) (p_propertyId p)
    (p_ipfsHash p) (p_status p) (p_registeredAt p) (p_lastUpdated p) v.

Definition with_t_status (v : TransactionStatus) (t : Transaction) : Transaction :=
  mkTransaction (t_id t) (t_propertyId t) (t_seller t) (t_buyer t)
    (t_price t) v (t_requestedAt t) (t_completedAt t) (t_ipfsHash t).

Definition with_t_completedAt (v : uint256) (t : Transaction) : Transaction :=
  mkTransaction (t_id t) (t_propertyId t) (t_seller t) (t_buyer t)
    (t_price t) (t_status t) (t_requestedAt t) v (t_ipfsHash t).

(** ** Contract state *)

Record State : Type := mkState {
  paused : bool;                               (* Pausable._paused *)
  entered : bool;                              (* ReentrancyGuard._status == ENTERED *)
  roles : gmap (Role * address) bool;          (* AccessControl._roles *)
  propertyIds : uint256;                       (* _propertyIds *)
  transactionIds : uint256;                    (* _transactionIds *)
  properties : gmap uint256 Property;
  transactions : gmap uint256 Transaction;
  ownerProperties : gmap address (list uint256);
  propertyTransactions : gmap uint256 (list uint256);
  registeredUsers : gmap address bool;
  userRoles : gmap address string;
  superadminVillages : gmap address (list string);
  balance : uint256                            (* address(this).balance *)
}.

Definition emptyState : State :=
  mkState false false ∅ 0 0 ∅ ∅ ∅ ∅ ∅ ∅ ∅ 0.

(** Reads with the mapping default. *)
Definition hasRole (s : State) (r : Role) (a : address) : bool :=
  default false (roles s !! (r, a)).
Definition propertyAt (s : State) (i : uint256) : Property :=
  default zeroProperty (properties s !! i).
Definition transactionAt (s : State) (i : uint256) : Transaction :=
  default zeroTransaction (transactions s !! i).
Definition ownerPropertiesOf (s : State) (a : address) : list uint256 :=
  default [] (ownerProperties s !! a).
Definition propertyTransactionsOf (s : State) (i : uint256) : list uint256 :=
  default [] (propertyTransactions s !! i).
Definition isRegistered (s : State) (a : address) : bool :=
  default false (registeredUsers s !! a).
Definition villagesOf (s : State) (a : address) : list string :=
  default [] (superadminVillages s !! a).

(** State updates, one per storage variable. *)
Definition set_paused (v : bool) (s : State) : State :=
  mkState v (entered s) (roles s) (propertyIds s) (transactionIds s)
    (properties s) (transactions s) (ownerProperties s)
    (propertyTransactions s) (registeredUsers s) (userRoles s)
    (superadminVillages s) (balance s).

Definition set_entered (v : bool) (s : State) : State :=
  mkState (paused s) v (roles s) (propertyIds s) (transactionIds s)
    (properties s) (transactions s) (ownerProperties s)
    (propertyTransactions s) (registeredUsers s) (userRoles s)
    (superadminVillages s) (balance s).

Definition set_role (r : Role) (a : address) (v : bool) (s : State) : State :=
  mkState (paused s) (entered s) (<[(r, a) := v]> (roles s)) (propertyIds s)
    (transactionIds s) (properties s) (transactions s) (ownerProperties s)
    (propertyTransactions s) (registeredUsers s) (userRoles s)
    (superadminVillages s) (balance s).

Definition set_propertyIds (v : uint256) (s : State) : State :=
  mkState (paused s) (entered s) (roles s) v (transactionIds s)
    (properties s) (transactions s) (ownerProperties s)
    (propertyTransactions s) (registeredUsers s) (userRoles s)
    (superadminVillages s) (balance s).

Definition set_transactionIds (v : uint256) (s : State) : State :=
  mkState (paused s) (entered s) (roles s) (propertyIds s) v
    (properties s) (transactions s) (ownerProperties s)
    (propertyTransactions s) (registeredUsers s) (userRoles s)
    (superadminVillages s) (balance s).

Definition set_property (i : uint256) (p : Property) (s : State) : State :=
  mkState (paused s) (entered s) (roles s) (propertyIds s) (transactionIds s)
    (<[i := p]> (properties s)) (transactions s) (ownerProperties s)
    (propertyTransactions s) (registeredUsers s) (userRoles s)
    (superadminVillages s) (balance s).

Definition set_transaction (i : uint256) (t : Transaction) (s : State) : State :=
  mkState (paused s) (entered s) (roles s) (propertyIds s) (transactionIds s)
    (properties s) (<[i := t]> (transactions s)) (ownerProperties s)
    (propertyTransactions s) (registeredUsers s) (userRoles s)
    (superadminVillages s) (balance s).

Definition set_ownerProperties (a : address) (l : list uint256) (s : State) : State :=
  mkState (paused s) (entered s) (roles s) (propertyIds s) (transactionIds s)
    (properties s) (transactions s) (<[a := l]> (ownerProperties s))
    (propertyTransactions s) (registeredUsers s) (userRoles s)
    (superadminVillages s) (balance s).

Definition set_propertyTransactions (i : uint256) (l : list uint256) (s : State) : State :=
  mkState (paused s) (entered s) (roles s) (propertyIds s) (transactionIds s)
    (properties s) (transactions s) (ownerProperties s)
    (<[i := l]> (propertyTransactions s)) (registeredUsers s) (userRoles s)
    (superadminVillages s) (balance s).

Definition set_registeredUser (a : address) (v : bool) (s : State) : State :=
  mkState (paused s) (entered s) (roles s) (propertyIds s) (transactionIds s)
    (properties s) (transactions s) (ownerProperties s)
    (propertyTransactions s) (<[a := v]> (registeredUsers s)) (userRoles s)
    (superadminVillages s) (balance s).

Definition set_userRole (a : address) (v : string) (s : State) : State :=
  mkState (paused s) (entered s) (roles s) (propertyIds s) (transactionIds s)
    (properties s) (transactions s) (ownerProperties s)
    (propertyTransactions s) (registeredUsers s) (<[a := v]> (userRoles s))
    (superadminVillages s) (balance s).

Definition set_superadminVillages (a : address) (l : list string) (s : State) : State :=
  mkState (paused s) (entered s) (roles s) (propertyIds s) (transactionIds s)
    (properties s) (transactions s) (ownerProperties s)
    (propertyTransactions s) (registeredUsers s) (userRoles s)
    (<[a := l]> (superadminVillages s)) (balance s).

Definition set_balance (v : uint256) (s : State) : State :=
  mkState (paused s) (entered s) (roles s) (propertyIds s) (transactionIds s)
    (properties s) (transactions s) (ownerProperties s)
    (propertyTransactions s) (registeredUsers s) (userRoles s)
    (superadminVillages s) v.

(** ** Events, effects and errors *)

Inductive Event : Type :=
  | PropertyRegistered (propertyId : uint256) (owner : address)
      (propertyIdStr : string) (marketValue : uint256)
  | PropertyStatusChanged (propertyId : uint256)
      (oldStatus newStatus : PropertyStatus)
  | PropertyListedForSale (propertyId : uint256) (seller : address)
      (price : uint256)
  | PurchaseRequested (transactionId propertyId : uint256)
      (buyer seller : address) (price : uint256)
  | PurchaseApproved (transactionId propertyId : uint256) (buyer : address)
  | PurchaseRejected (transactionId propertyId : uint256) (buyer : address)
  | OwnershipTransferred (propertyId : uint256) (oldOwner newOwner : address)
      (transactionId : uint256)
  | UserRegistered (user : address) (role : string)
  | DocumentsUpdated (propertyId : uint256) (ipfsHash : string)
  | RoleGranted (role : Role) (account sender : address)
  | RoleRevoked (role : Role) (account sender : address)
  | PausedBy (account : address)
  | UnpausedBy (account : address).

(** The storage location a write goes to. *)
Inductive Slot : Type :=
  | S_paused
  | S_guard
  | S_role (r : Role) (a : address)
  | S_propertyIds
  | S_transactionIds
  | S_property (i : uint256)
  | S_property_owner (i : uint256)
  | S_property_marketValue (i : uint256)
  | S_property_ipfsHash (i : uint256)
  | S_property_status (i : uint256)
  | S_property_lastUpdated (i : uint256)
  | S_property_isActive (i : uint256)
  | S_transaction (i : uint256)
  | S_transaction_status (i : uint256)
  | S_transaction_completedAt (i : uint256)
  | S_ownerProperties (a : address)
  | S_propertyTransactions (i : uint256)
  | S_registeredUsers (a : address)
  | S_userRoles (a : address)
  | S_superadminVillages (a : address).

Inductive Effect : Type :=
  | Received (from : address) (amount : uint256)   (* msg.value credited *)
  | SStore (slot : Slot)                           (* storage write *)
  | Emit (e : Event)                               (* event *)
  | Transfer (to : address) (amount : uint256).    (* ether sent out *)

Inductive Error : Type :=
  | EnforcedPause
  | ExpectedPause
  | ReentrancyGuardReentrantCall
  | AccessControlUnauthorizedAccount (account : address) (neededRole : Role)
  | AccessControlBadConfirmation
  | Revert (reason : string)
  | Panic (code : N).

Inductive result (A : Type) : Type :=
  | Ok (a : A)
  | Err (e : Error).
Arguments Ok {A} a.
Arguments Err {A} e.

(** What a call sees of its environment: [msg.sender], [block.timestamp]
    and which recipients accept a payment made during the call. *)
Record Ctx : Type := mkCtx {
  msg_sender : address;
  block_timestamp : uint256;
  accepts : address → bool
}.

(** ** The monad of contract code *)

Definition M (A : Type) : Type :=
  State → list Effect → result (A * State * list Effect).

#[global] Instance M_ret : MRet M := λ A a s l, Ok (a, s, l).
#[global] Instance M_bind : MBind M := λ A B f m s l,
  match m s l with
  | Ok (a, s', l') => f a s' l'
  | Err e => Err e
  end.

Definition getState : M State := λ s l, Ok (s, s, l).

Definition fail {A : Type} (e : Error) : M A := λ _ _, Err e.

Definition check (b : bool) (e : Error) : M unit :=
  if b then mret tt else fail e.

(** [require(b, reason)] *)
Definition require (b : bool) (reason : string) : M unit :=
  check b (Revert reason).

Definition store (slot : Slot) (f : State → State) : M unit :=
  λ s l, Ok (tt, f s, (l ++ [SStore slot])%list).

Definition emit (e : Event) : M unit :=
  λ s l, Ok (tt, s, (l ++ [Emit e])%list).

(** [msg.value] of a payable call is credited before the body runs. *)
Definition receiveValue (ctx : Ctx) (value : uint256) : M unit :=
  λ s l, Ok (tt, set_balance (balance s + value) s,
             (l ++ [Received (msg_sender ctx) value])%list).

(** [(bool success, ) = payable(to).call{value: amount}("")] *)
Definition payableCall (ctx : Ctx) (to : address) (amount : uint256) : M bool :=
  λ s l,
    if (amount <=? balance s) && accepts ctx to
    then Ok (true, set_balance (balance s - amount) s, (l ++ [Transfer to amount])%list)
    else Ok (false, s, l).

(** Struct field writes through a storage pointer. *)
Definition modifyProperty (i : uint256) (f : Property → Property) (s : State) : State :=
  set_property i (f (propertyAt s i)) s.

Definition modifyTransaction (i : uint256) (f : Transaction → Transaction) (s : State) : State :=
  set_transaction i (f (transactionAt s i)) s.

(** ** Modifiers *)

(** Pausable.whenNotPaused *)
Definition whenNotPaused {A : Type} (body : M A) : M A :=
  s ← getState;
  check (negb (paused s)) EnforcedPause;;
  body.

(** Pausable.whenPaused *)
Definition whenPaused {A : Type} (body : M A) : M A :=
  s ← getState;
  check (paused s) ExpectedPause;;
  body.

(** ReentrancyGuard.nonReentrant: the latch is taken before the body and
    released after it. *)
Definition nonReentrant {A : Type} (body : M A) : M A :=
  s ← getState;
  check (negb (entered s)) ReentrancyGuardReentrantCall;;
  store S_guard (set_entered true);;
  r ← body;
  store S_guard (set_entered false);;
  mret r.

(** AccessControl.onlyRole *)
Definition onlyRole {A : Type} (ctx : Ctx) (r : Role) (body : M A) : M A :=
  s ← getState;
  check (hasRole s r (msg_sender ctx))
        (AccessControlUnauthorizedAccount (msg_sender ctx) r);;
  body.

Definition onlyPropertyOwner {A : Type} (ctx : Ctx) (_propertyId : uint256)
    (body : M A) : M A :=
  s ← getState;
  require (p_owner (propertyAt s _propertyId) =? msg_sender ctx)
          "Only property owner can perform this action";;
  body.

Definition validProperty {A : Type} (_propertyId : uint256) (body : M A) : M A :=
  s ← getState;
  require (negb (p_id (propertyAt s _propertyId) =? 0))
          "Property does not exist";;
  require (p_isActive (propertyAt s _propertyId))
          "Property is not active";;
  body.

Definition validTransaction {A : Type} (_transactionId : uint256)
    (body : M A) : M A :=
  s ← getState;
  require (negb (t_id (transactionAt s _transactionId) =? 0))
          "Transaction does not exist";;
  body.

(** AccessControl._grantRole *)
Definition _grantRole (ctx : Ctx) (r : Role) (account : address) : M bool :=
  s ← getState;
  if hasRole s r account then mret false
  else
    store (S_role r account) (set_role r account true);;
    emit (RoleGranted r account (msg_sender ctx));;
    mret true.

(** AccessControl._revokeRole *)
Definition _revokeRole (ctx : Ctx) (r : Role) (account : address) : M bool :=
  s ← getState;
  if hasRole s r account then
    store (S_role r account) (set_role r account false);;
    emit (RoleRevoked r account (msg_sender ctx));;
    mret true
  else mret false.

(** ** Helpers of the contract *)

(** [toString]: the decimal digits of a [uint256].  The source counts the
    digits and then fills a buffer from its last position backwards, which
    is prepending one digit per division by ten. *)
Fixpoint toString_digits (fuel : nat) (value : uint256) (buffer : string) : string :=
  match fuel with
  | O => buffer
  | S fuel' =>
      if value =? 0 then buffer
      else toString_digits fuel' (value / 10)
             (String (Ascii.ascii_of_N (48 + value mod 10)) buffer)
  end.

Definition toString (value : uint256) : string :=
  if value =? 0 then "0"
  else toString_digits (S (N.to_nat (N.log2 value))) value "".

(** [string(abi.encodePacked(_state, "-", _district, "-", _village, "-",
    _surveyNumber, "-", toString(newPropertyId)))] *)
Definition uniquePropertyIdOf (_state _district _village _surveyNumber : string)
    (newPropertyId : uint256) : string :=
  _state +:+ "-" +:+ _district +:+ "-" +:+ _village +:+ "-" +:+
  _surveyNumber +:+ "-" +:+ toString newPropertyId.

Definition nonEmpty (x : string) : bool := (0 <? String.length x)%nat.

(** The registration block shared by [registerProperty] and
    [completePurchase]: [if (!registeredUsers[a]) {...}]. *)
Definition registerAsPropertyOwner (ctx : Ctx) (a : address) : M unit :=
  s ← getState;
  if negb (isRegistered s a) then
    store (S_registeredUsers a) (set_registeredUser a true);;
    store (S_userRoles a) (set_userRole a "Property Owner");;
    _grantRole ctx PROPERTY_OWNER_ROLE a;;
    emit (UserRegistered a "Property Owner")
  else mret tt.

(** The removal loop of [completePurchase]:
    [for (i = 0; i < oldOwnerProps.length; i++)
       if (oldOwnerProps[i] == pid) { oldOwnerProps[i] = last; pop; break; }].
    [fuel] bounds the number of iterations by the length of the array. *)
Fixpoint removeFromOwnerList (fuel : nat) (owner : address) (pid : uint256)
    (i : nat) : M unit :=
  match fuel with
  | O => mret tt
  | S fuel' =>
      s ← getState;
      let oldOwnerProps := ownerPropertiesOf s owner in
      if bool_decide (i < length oldOwnerProps)%nat then
        if bool_decide (oldOwnerProps !! i = Some pid) then
          store (S_ownerProperties owner)
            (set_ownerProperties owner
               (<[i := default 0 (last oldOwnerProps)]> oldOwnerProps));;
          store (S_ownerProperties owner)
            (λ s', set_ownerProperties owner
                     (removelast (ownerPropertiesOf s' owner)) s')
        else removeFromOwnerList fuel' owner pid (S i)
      else mret tt
  end.

(** ** External functions, in the order of the source *)

Definition constructor (ctx : Ctx) : M unit :=
  _grantRole ctx DEFAULT_ADMIN_ROLE (msg_sender ctx);;
  _grantRole ctx SUPERADMIN_ROLE (msg_sender ctx);;
  store (S_registeredUsers (msg_sender ctx))
        (set_registeredUser (msg_sender ctx) true);;
  store (S_userRoles (msg_sender ctx))
        (set_userRole (msg_sender ctx) "Superadmin");;
  emit (UserRegistered (msg_sender ctx) "Superadmin").

Definition registerUser (ctx : Ctx) (_user : address) (_role : Role)
    (_roleName : string) : M unit :=
  onlyRole ctx SUPERADMIN_ROLE (
    s ← getState;
    require (negb (isRegistered s _user)) "User already registered";;
    require (negb (bool_decide (_role = DEFAULT_ADMIN_ROLE))) "Invalid role";;
    store (S_registeredUsers _user) (set_registeredUser _user true);;
    store (S_userRoles _user) (set_userRole _user _roleName);;
    _grantRole ctx _role _user;;
    emit (UserRegistered _user _roleName)).

Definition registerProperty (ctx : Ctx)
    (_state _district _village _surveyNumber : string) (_owner : address)
    (_marketValue : uint256) (_ipfsHash : string) : M uint256 :=
  whenNotPaused (
    require (nonEmpty _state) "State is required";;
    require (nonEmpty _district) "District is required";;
    require (nonEmpty _village) "Village is required";;
    require (nonEmpty _surveyNumber) "Survey number is required";;
    require (negb (_owner =? 0)) "Invalid owner address";;
    require (0 <? _marketValue) "Market value must be greater than 0";;
    s ← getState;
    check (propertyIds s <? MAX_UINT256) (Panic 17);;
    store S_propertyIds (set_propertyIds (propertyIds s + 1));;
    let newPropertyId := propertyIds s + 1 in
    let uniquePropertyId :=
      uniquePropertyIdOf _state _district _village _surveyNumber newPropertyId in
    let newProperty :=
      mkProperty newPropertyId _state _district _village _surveyNumber _owner
        _marketValue uniquePropertyId _ipfsHash PS_Pending
        (block_timestamp ctx) (block_timestamp ctx) true in
    store (S_property newPropertyId) (set_property newPropertyId newProperty);;
    store (S_ownerProperties _owner)
      (λ s', set_ownerProperties _owner
               (ownerPropertiesOf s' _owner ++ [newPropertyId])%list s');;
    registerAsPropertyOwner ctx _owner;;
    emit (PropertyRegistered newPropertyId _owner uniquePropertyId _marketValue);;
    mret newPropertyId).

Definition approveProperty (ctx : Ctx) (_propertyId : uint256)
    (_approve : bool) : M unit :=
  onlyRole ctx SUPERADMIN_ROLE (validProperty _propertyId (
    s ← getState;
    let oldStatus := p_status (propertyAt s _propertyId) in
    require (bool_decide (p_status (propertyAt s _propertyId) = PS_Pending))
            "Property is not pending approval";;
    (if _approve then
       store (S_property_status _propertyId)
         (modifyProperty _propertyId (with_p_status PS_Approved))
     else
       store (S_property_status _propertyId)
         (modifyProperty _propertyId (with_p_status PS_Rejected));;
       store (S_property_isActive _propertyId)
         (modifyProperty _propertyId (with_p_isActive false)));;
    store (S_property_lastUpdated _propertyId)
      (modifyProperty _propertyId (with_p_lastUpdated (block_timestamp ctx)));;
    s' ← getState;
    emit (PropertyStatusChanged _propertyId oldStatus
            (p_status (propertyAt s' _propertyId))))).

Definition listPropertyForSale (ctx : Ctx) (_propertyId _price : uint256) : M unit :=
  whenNotPaused (nonReentrant (onlyPropertyOwner ctx _propertyId (
  validProperty _propertyId (
    s ← getState;
    require (bool_decide (p_status (propertyAt s _propertyId) = PS_Approved))
            "Property must be approved before listing";;
    require (0 <? _price) "Price must be greater than 0";;
    let oldStatus := p_status (propertyAt s _propertyId) in
    store (S_property_status _propertyId)
      (modifyProperty _propertyId (with_p_status PS_ListedForSale));;
    store (S_property_lastUpdated _propertyId)
      (modifyProperty _propertyId (with_p_lastUpdated (block_timestamp ctx)));;
    emit (PropertyStatusChanged _propertyId oldStatus PS_ListedForSale);;
    emit (PropertyListedForSale _propertyId (msg_sender ctx) _price))))).

Definition requestToPurchase (ctx : Ctx) (_propertyId _price : uint256)
    (_ipfsHash : string) (msg_value : uint256) : M unit :=
  receiveValue ctx msg_value;;
  whenNotPaused (nonReentrant (validProperty _propertyId (
    s ← getState;
    let property := propertyAt s _propertyId in
    require (bool_decide (p_status property = PS_ListedForSale))
            "Property is not listed for sale";;
    require (negb (p_owner property =? msg_sender ctx))
            "Cannot purchase your own property";;
    require (_price <=? msg_value) "Insufficient payment";;
    require (p_marketValue property <=? _price) "Price below market value";;
    check (transactionIds s <? MAX_UINT256) (Panic 17);;
    store S_transactionIds (set_transactionIds (transactionIds s + 1));;
    let newTransactionId := transactionIds s + 1 in
    let newTransaction :=
      mkTransaction newTransactionId _propertyId (p_owner property)
        (msg_sender ctx) _price TS_Pending (block_timestamp ctx) 0 _ipfsHash in
    store (S_transaction newTransactionId)
      (set_transaction newTransactionId newTransaction);;
    store (S_propertyTransactions _propertyId)
      (λ s', set_propertyTransactions _propertyId
               (propertyTransactionsOf s' _propertyId ++ [newTransactionId])%list s');;
    store (S_property_status _propertyId)
      (modifyProperty _propertyId (with_p_status PS_SaleInProgress));;
    store (S_property_lastUpdated _propertyId)
      (modifyProperty _propertyId (with_p_lastUpdated (block_timestamp ctx)));;
    s' ← getState;
    emit (PurchaseRequested newTransactionId _propertyId (msg_sender ctx)
            (p_owner (propertyAt s' _propertyId)) _price)))).

Definition processPurchaseRequest (ctx : Ctx) (_transactionId : uint256)
    (_approve : bool) : M unit :=
  whenNotPaused (nonReentrant (validTransaction _transactionId (
    s ← getState;
    let transaction := transactionAt s _transactionId in
    require (t_seller transaction =? msg_sender ctx)
            "Only seller can process the request";;
    require (bool_decide (t_status transaction = TS_Pending))
            "Transaction already processed";;
    let propertyId := t_propertyId transaction in
    (if _approve then
       store (S_transaction_status _transactionId)
         (modifyTransaction _transactionId (with_t_status TS_Approved));;
       emit (PurchaseApproved _transactionId propertyId (t_buyer transaction))
     else
       store (S_transaction_status _transactionId)
         (modifyTransaction _transactionId (with_t_status TS_Rejected));;
       store (S_property_status propertyId)
         (modifyProperty propertyId (with_p_status PS_ListedForSale));;
       success ← payableCall ctx (t_buyer transaction) (t_price transaction);
       require success "Refund failed";;
       emit (PurchaseRejected _transactionId propertyId (t_buyer transaction)));;
    store (S_transaction_completedAt _transactionId)
      (modifyTransaction _transactionId (with_t_completedAt (block_timestamp ctx)));;
    store (S_property_lastUpdated propertyId)
      (modifyProperty propertyId (with_p_lastUpdated (block_timestamp ctx)))))).

Definition completePurchase (ctx : Ctx) (_transactionId : uint256) : M unit :=
  whenNotPaused (nonReentrant (validTransaction _transactionId (
    s ← getState;
    let transaction := transactionAt s _transactionId in
    require (bool_decide (t_status transaction = TS_Approved))
            "Transaction must be approved first";;
    require (t_buyer transaction =? msg_sender ctx)
            "Only buyer can complete the purchase";;
    let propertyId := t_propertyId transaction in
    let oldOwner := p_owner (propertyAt s propertyId) in
    removeFromOwnerList (length (ownerPropertiesOf s oldOwner)) oldOwner
      propertyId 0;;
    store (S_property_owner propertyId)
      (modifyProperty propertyId (with_p_owner (t_buyer transaction)));;
    store (S_property_marketValue propertyId)
      (modifyProperty propertyId (with_p_marketValue (t_price transaction)));;
    store (S_property_status propertyId)
      (modifyProperty propertyId (with_p_status PS_Approved));;
    store (S_property_lastUpdated propertyId)
      (modifyProperty propertyId (with_p_lastUpdated (block_timestamp ctx)));;
    store (S_ownerProperties (t_buyer transaction))
      (λ s', set_ownerProperties (t_buyer transaction)
               (ownerPropertiesOf s' (t_buyer transaction) ++ [propertyId])%list s');;
    registerAsPropertyOwner ctx (t_buyer transaction);;
    success ← payableCall ctx (t_seller transaction) (t_price transaction);
    require success "Payment transfer failed";;
    store (S_transaction_status _transactionId)
      (modifyTransaction _transactionId (with_t_status TS_Completed));;
    store (S_transaction_completedAt _transactionId)
      (modifyTransaction _transactionId (with_t_completedAt (block_timestamp ctx)));;
    emit (OwnershipTransferred propertyId oldOwner (t_buyer transaction)
            _transactionId)))).

Definition updatePropertyDocuments (ctx : Ctx) (_propertyId : uint256)
    (_ipfsHash : string) : M unit :=
  onlyPropertyOwner ctx _propertyId (validProperty _propertyId (
    store (S_property_ipfsHash _propertyId)
      (modifyProperty _propertyId (with_p_ipfsHash _ipfsHash));;
    store (S_property_lastUpdated _propertyId)
      (modifyProperty _propertyId (with_p_lastUpdated (block_timestamp ctx)));;
    emit (DocumentsUpdated _propertyId _ipfsHash))).

Definition removeFromSale (ctx : Ctx) (_propertyId : uint256) : M unit :=
  onlyPropertyOwner ctx _propertyId (validProperty _propertyId (
    s ← getState;
    require (bool_decide (p_status (propertyAt s _propertyId) = PS_ListedForSale)
             || bool_decide (p_status (propertyAt s _propertyId) = PS_SaleInProgress))
            "Property is not for sale";;
    let oldStatus := p_status (propertyAt s _propertyId) in
    store (S_property_status _propertyId)
      (modifyProperty _propertyId (with_p_status PS_Approved));;
    store (S_property_lastUpdated _propertyId)
      (modifyProperty _propertyId (with_p_lastUpdated (block_timestamp ctx)));;
    emit (PropertyStatusChanged _propertyId oldStatus PS_Approved))).

Fixpoint pushVillages (a : address) (_villages : list string) : M unit :=
  match _villages with
  | [] => mret tt
  | v :: rest =>
      store (S_superadminVillages a)
        (λ s, set_superadminVillages a (villagesOf s a ++ [v])%list s);;
      pushVillages a rest
  end.

Definition addSuperAdmin (ctx : Ctx) (_superadmin : address)
    (_villages : list string) (_roleName : string) : M unit :=
  onlyRole ctx SUPERADMIN_ROLE (
    require (negb (_superadmin =? 0)) "Invalid address";;
    s ← getState;
    require (negb (isRegistered s _superadmin)) "User already registered";;
    store (S_registeredUsers _superadmin) (set_registeredUser _superadmin true);;
    store (S_userRoles _superadmin) (set_userRole _superadmin _roleName);;
    _grantRole ctx SUPERADMIN_ROLE _superadmin;;
    pushVillages _superadmin _villages;;
    emit (UserRegistered _superadmin _roleName)).

(** [makeAvailable], [requestToLandOwner], [processRequest] and
    [buyProperty] repeat the modifiers and the body of the function they
    are an alias of, statement for statement. *)
Definition makeAvailable := listPropertyForSale.
Definition requestToLandOwner := requestToPurchase.
Definition processRequest := processPurchaseRequest.
Definition buyProperty := completePurchase.

Definition pause (ctx : Ctx) : M unit :=
  onlyRole ctx SUPERADMIN_ROLE (whenNotPaused (
    store S_paused (set_paused true);;
    emit (PausedBy (msg_sender ctx)))).

Definition unpause (ctx : Ctx) : M unit :=
  onlyRole ctx SUPERADMIN_ROLE (whenPaused (
    store S_paused (set_paused false);;
    emit (UnpausedBy (msg_sender ctx)))).

(** [receive() external payable {}] *)
Definition receiveEther (ctx : Ctx) (msg_value : uint256) : M unit :=
  receiveValue ctx msg_value.

(** The public role management inherited from AccessControl; the admin
    role of every role is [DEFAULT_ADMIN_ROLE], which the contract never
    changes. *)
Definition grantRole (ctx : Ctx) (r : Role) (account : address) : M unit :=
  onlyRole ctx DEFAULT_ADMIN_ROLE (_grantRole ctx r account;; mret tt).

Definition revokeRole (ctx : Ctx) (r : Role) (account : address) : M unit :=
  onlyRole ctx DEFAULT_ADMIN_ROLE (_revokeRole ctx r account;; mret tt).

Definition renounceRole (ctx : Ctx) (r : Role) (callerConfirmation : address) : M unit :=
  check (callerConfirmation =? msg_sender ctx) AccessControlBadConfirmation;;
  _revokeRole ctx r callerConfirmation;;
  mret tt.

(** ** Views *)

Definition getProperty (s : State) (_propertyId : uint256) : result Property :=
  if negb (p_id (propertyAt s _propertyId) =? 0)
  then Ok (propertyAt s _propertyId)
  else Err (Revert "Property does not exist").

Definition getOwnerProperties (s : State) (_owner : address) : list uint256 :=
  ownerPropertiesOf s _owner.

Definition getTransaction (s : State) (_transactionId : uint256) : result Transaction :=
  if negb (t_id (transactionAt s _transactionId) =? 0)
  then Ok (transactionAt s _transactionId)
  else Err (Revert "Transaction does not exist").

Definition getPropertyTransactions (s : State) (_propertyId : uint256) : list uint256 :=
  propertyTransactionsOf s _propertyId.

Definition getTotalProperties (s : State) : uint256 := propertyIds s.

Definition viewRequest (s : State) (_propertyId : uint256) : result (list uint256) :=
  if negb (p_id (propertyAt s _propertyId) =? 0)
  then Ok (filter (λ i, t_status (transactionAt s i) = TS_Pending)
             (propertyTransactionsOf s _propertyId))
  else Err (Revert "Property does not exist").

(** ** Calls and runs *)

Inductive Call : Type :=
  | RegisterUser (_user : address) (_role : Role) (_roleName : string)
  | RegisterProperty (_state _district _village _surveyNumber : string)
      (_owner : address) (_marketValue : uint256) (_ipfsHash : string)
  | ApproveProperty (_propertyId : uint256) (_approve : bool)
  | ListPropertyForSale (_propertyId _price : uint256)
  | RequestToPurchase (_propertyId _price : uint256) (_ipfsHash : string)
      (msg_value : uint256)
  | ProcessPurchaseRequest (_transactionId : uint256) (_approve : bool)
  | CompletePurchase (_transactionId : uint256)
  | UpdatePropertyDocuments (_propertyId : uint256) (_ipfsHash : string)
  | RemoveFromSale (_propertyId : uint256)
  | AddSuperAdmin (_superadmin : address) (_villages : list string)
      (_roleName : string)
  | MakeAvailable (_propertyId _price : uint256)
  | RequestToLandOwner (_propertyId _price : uint256) (_ipfsHash : string)
      (msg_value : uint256)
  | ProcessRequest (_transactionId : uint256) (_approve : bool)
  | BuyProperty (_transactionId : uint256)
  | Pause
  | Unpause
  | ReceiveEther (msg_value : uint256)
  | GrantRole (r : Role) (account : address)
  | RevokeRole (r : Role) (account : address)
  | RenounceRole (r : Role) (callerConfirmation : address).

Definition dispatch (ctx : Ctx) (c : Call) : M unit :=
  match c with
  | RegisterUser u r n => registerUser ctx u r n
  | RegisterProperty st d v sn o mv h =>
      registerProperty ctx st d v sn o mv h;; mret tt
  | ApproveProperty p a => approveProperty ctx p a
  | ListPropertyForSale p pr => listPropertyForSale ctx p pr
  | RequestToPurchase p pr h v => requestToPurchase ctx p pr h v
  | ProcessPurchaseRequest t a => processPurchaseRequest ctx t a
  | CompletePurchase t => completePurchase ctx t
  | UpdatePropertyDocuments p h => updatePropertyDocuments ctx p h
  | RemoveFromSale p => removeFromSale ctx p
  | AddSuperAdmin a vs n => addSuperAdmin ctx a vs n
  | MakeAvailable p pr => makeAvailable ctx p pr
  | RequestToLandOwner p pr h v => requestToLandOwner ctx p pr h v
  | ProcessRequest t a => processRequest ctx t a
  | BuyProperty t => buyProperty ctx t
  | Pause => pause ctx
  | Unpause => unpause ctx
  | ReceiveEther v => receiveEther ctx v
  | GrantRole r a => grantRole ctx r a
  | RevokeRole r a => revokeRole ctx r a
  | RenounceRole r a => renounceRole ctx r a
  end.

(** One external call: the new state and the effects of the call, or the
    error it reverted with. *)
Definition call (ctx : Ctx) (c : Call) (s : State) : result (State * list Effect) :=
  match dispatch ctx c s [] with
  | Ok (_, s', l) => Ok (s', l)
  | Err e => Err e
  end.

(** A reverted call leaves the state as it was and has no effect. *)
Definition step (ctx : Ctx) (c : Call) (s : State) : State * list Effect :=
  match call ctx c s with
  | Ok r => r
  | Err _ => (s, [])
  end.

Fixpoint run (cs : list (Ctx * Call)) (s : State) : State * list Effect :=
  match cs with
  | [] => (s, [])
  | (ctx, c) :: rest =>
      let '(s1, l1) := step ctx c s in
      let '(s2, l2) := run rest s1 in
      (s2, (l1 ++ l2)%list)
  end.

(** The state right after deployment by [deployer]. *)
Definition deployed (deployer : address) : State :=
  match constructor (mkCtx deployer 0 (λ _, true)) emptyState [] with
  | Ok (_, s, _) => s
  | Err _ => emptyState
  end.


(** [run] of a list of calls, keeping only the final state.  The states
    reached from deployment are the [finalState cs (deployed deployer)]. *)
Definition finalState (cs : list (Ctx * Call)) (s : State) : State := (run cs s).1.

(** ** Notions the properties are stated with *)

(** Total ether credited to the contract and total ether it sent out,
    read off an effect log. *)
Fixpoint received (log : list Effect) : N :=
  match log with
  | [] => 0
  | Received _ v :: rest => v + received rest
  | _ :: rest => received rest
  end.

Fixpoint released (log : list Effect) : N :=
  match log with
  | [] => 0
  | Transfer _ v :: rest => v + released rest
  | _ :: rest => released rest
  end.

(** The transfers of a log, in order. *)
Fixpoint transfersOf (log : list Effect) : list (address * uint256) :=
  match log with
  | [] => []
  | Transfer a v :: rest => (a, v) :: transfersOf rest
  | _ :: rest => transfersOf rest
  end.

(** A transaction is open while it is Pending or Approved. *)
Definition isOpen (t : Transaction) : bool :=
  bool_decide (t_status t = TS_Pending) || bool_decide (t_status t = TS_Approved).

(** The escrow owed to open transactions: the sum of their prices. *)
Definition escrowOf (t : Transaction) : N := if isOpen t then t_price t else 0.

Definition openEscrow (s : State) : N :=
  map_fold (λ _ t acc, escrowOf t + acc) 0 (transactions s).




(** The effects of a log that come before its first transfer. *)
Fixpoint beforeTransfer (log : list Effect) : list Effect :=
  match log with
  | [] => []
  | Transfer _ _ :: _ => []
  | e :: rest => e :: beforeTransfer rest
  end.



(** At most one open transaction per property. *)
Definition atMostOneOpen (s : State) : Prop :=
  ∀ i j ti tj,
    transactions s !! i = Some ti → transactions s !! j = Some tj →
    isOpen ti = true → isOpen tj = true →
    t_propertyId ti = t_propertyId tj → i = j.

(** The side condition of the single-open-sale invariant: [removeFromSale]
    is not applied to a property whose sale is in progress. *)
Definition gateOk (s : State) (c : Call) : bool :=
  match c with
  | RemoveFromSale p =>
      negb (bool_decide (p_status (propertyAt s p) = PS_SaleInProgress))
  | _ => true
  end.

Fixpoint gated (cs : list (Ctx * Call)) (s : State) : bool :=
  match cs with
  | [] => true
  | (ctx, c) :: rest => gateOk s c && gated rest (step ctx c s).1
  end.

Definition positiveTimestamps (cs : list (Ctx * Call)) : bool :=
  forallb (λ x, 0 <? block_timestamp x.1) cs.

(** The first index [>= i] at which [l] holds [pid], searched like the
    removal loop searches it. *)
Fixpoint firstIndexFrom (fuel i : nat) (l : list uint256) (pid : uint256) : option nat :=
  match fuel with
  | O => None
  | S fuel' =>
      if bool_decide (i < length l)%nat then
        if bool_decide (l !! i = Some pid) then Some i
        else firstIndexFrom fuel' (S i) l pid
      else None
  end.

(** Swap-with-last and pop at index [i]. *)
Definition swapPop (l : list uint256) (i : nat) : list uint256 :=
  removelast (<[i := default 0 (last l)]> l).

(** The error taxonomy of the specification (its section 7).  The
    contract itself has only revert reasons and the errors of the
    inherited modifiers; [errorKind] sorts them into the kinds. *)
Inductive ErrorKind : Type :=
  | K_Paused
  | K_Unauthorized
  | K_NotFound
  | K_InvalidState
  | K_InvalidInput
  | K_InsufficientFunds
  | K_BelowMarketValue
  | K_SelfTrade
  | K_AlreadyRegistered
  | K_Other.

Definition errorKind (e : Error) : ErrorKind :=
  match e with
  | EnforcedPause => K_Paused
  | AccessControlUnauthorizedAccount _ _ => K_Unauthorized
  | AccessControlBadConfirmation => K_Unauthorized
  | Revert reason =>
      if String.eqb reason "Only property owner can perform this action" then K_Unauthorized
      else if String.eqb reason "Only seller can process the request" then K_Unauthorized
      else if String.eqb reason "Only buyer can complete the purchase" then K_Unauthorized
      else if String.eqb reason "Property does not exist" then K_NotFound
      else if String.eqb reason "Transaction does not exist" then K_NotFound
      else if String.eqb reason "Property is not active" then K_InvalidState
      else if String.eqb reason "Property is not pending approval" then K_InvalidState
      else if String.eqb reason "Property must be approved before listing" then K_InvalidState
      else if String.eqb reason "Property is not listed for sale" then K_InvalidState
      else if String.eqb reason "Transaction already processed" then K_InvalidState
      else if String.eqb reason "Transaction must be approved first" then K_InvalidState
      else if String.eqb reason "Property is not for sale" then K_InvalidState
      else if String.eqb reason "Insufficient payment" then K_InsufficientFunds
      else if String.eqb reason "Price below market value" then K_BelowMarketValue
      else if String.eqb reason "Cannot purchase your own property" then K_SelfTrade
      else if String.eqb reason "User already registered" then K_AlreadyRegistered
      else if String.eqb reason "State is required" then K_InvalidInput
      else if String.eqb reason "District is required" then K_InvalidInput
      else if String.eqb reason "Village is required" then K_InvalidInput
      else if String.eqb reason "Survey number is required" then K_InvalidInput
      else if String.eqb reason "Invalid owner address" then K_InvalidInput
      else if String.eqb reason "Market value must be greater than 0" then K_InvalidInput
      else if String.eqb reason "Price must be greater than 0" then K_InvalidInput
      else if String.eqb reason "Invalid role" then K_InvalidInput
      else if String.eqb reason "Invalid address" then K_InvalidInput
      else K_Other
  | _ => K_Other
  end.

(** The owner index after the removal loop of [completePurchase]. *)
Definition removeOwned (s : State) (owner : address) (pid : uint256)
    : gmap address (list uint256) :=
  let l := ownerPropertiesOf s owner in
  match firstIndexFrom (length l) 0 l pid with
  | Some j => <[owner := swapPop l j]> (ownerProperties s)
  | None => ownerProperties s
  end.

(** ** The external functions as a transition relation

    [Transition ctx s s' log c]: what a successful call [c] requires of
    the state [s] and what it leaves in [s'], for the counters, the two
    record maps, the owner index and the balance. *)

Definition isAdminCall (c : Call) : bool :=
  match c with
  | RegisterUser _ _ _ | AddSuperAdmin _ _ _ | Pause | Unpause
  | ReceiveEther _ | GrantRole _ _ | RevokeRole _ _ | RenounceRole _ _ => true
  | _ => false
  end.

Record sameRecords (s s' : State) : Prop := mkSameRecords {
  same_propertyIds : propertyIds s' = propertyIds s;
  same_transactionIds : transactionIds s' = transactionIds s;
  same_properties : properties s' = properties s;
  same_transactions : transactions s' = transactions s;
  same_ownerProperties : ownerProperties s' = ownerProperties s;
  same_entered : entered s' = entered s
}.

(** Only the record of property [pid] is replaced, by [P']. *)
Record propertyReplaced (pid : uint256) (P' : Property) (s s' : State) : Prop :=
  mkPropertyReplaced {
  pr_properties : properties s' = <[pid := P']> (properties s);
  pr_propertyIds : propertyIds s' = propertyIds s;
  pr_transactionIds : transactionIds s' = transactionIds s;
  pr_transactions : transactions s' = transactions s;
  pr_ownerProperties : ownerProperties s' = ownerProperties s;
  pr_balance : balance s' = balance s;
  pr_entered : entered s' = entered s;
  pr_paused : paused s' = paused s
}.

Inductive Transition (ctx : Ctx) (s s' : State) (log : list Effect) : Call → Prop :=
  | T_admin c
      (Hkind : isAdminCall c = true)
      (Hsame : sameRecords s s')
      (Hbalance : balance s' = balance s + received log)
      (Hreleased : released log = 0) :
      Transition ctx s s' log c
  | T_registerProperty st d v sn o mv h
      (Hpaused : paused s = false)
      (Howner : o ≠ 0)
      (Hvalue : 0 < mv)
      (Hcounter : propertyIds s < MAX_UINT256)
      (HpropertyIds : propertyIds s' = propertyIds s + 1)
      (Hproperties :
         properties s' =
         <[propertyIds s + 1 :=
             mkProperty (propertyIds s + 1) st d v sn o mv
               (uniquePropertyIdOf st d v sn (propertyIds s + 1)) h PS_Pending
               (block_timestamp ctx) (block_timestamp ctx) true]> (properties s))
      (HownerProperties :
         ownerProperties s' =
         <[o := (ownerPropertiesOf s o ++ [propertyIds s + 1])%list]>
           (ownerProperties s))
      (HtransactionIds : transactionIds s' = transactionIds s)
      (Htransactions : transactions s' = transactions s)
      (Hbalance : balance s' = balance s)
      (Hentered : entered s' = entered s)
      (Hpaused' : paused s' = paused s)
      (Hreceived : received log = 0)
      (Hreleased : released log = 0) :
      Transition ctx s s' log (RegisterProperty st d v sn o mv h)
  | T_approveProperty (pid : uint256) (approve : bool)
      (Hrole : hasRole s SUPERADMIN_ROLE (msg_sender ctx) = true)
      (Hexists : p_id (propertyAt s pid) ≠ 0)
      (Hactive : p_isActive (propertyAt s pid) = true)
      (Hstatus : p_status (propertyAt s pid) = PS_Pending)
      (Hreplaced :
         propertyReplaced pid
           (with_p_lastUpdated (block_timestamp ctx)
              (if approve then with_p_status PS_Approved (propertyAt s pid)
               else with_p_isActive false
                      (with_p_status PS_Rejected (propertyAt s pid)))) s s')
      (Hreceived : received log = 0)
      (Hreleased : released log = 0) :
      Transition ctx s s' log (ApproveProperty pid approve)
  | T_listPropertyForSale c pid price
      (Hcall : c = ListPropertyForSale pid price ∨ c = MakeAvailable pid price)
      (Hpaused : paused s = false)
      (Hlatch : entered s = false)
      (Hcaller : p_owner (propertyAt s pid) = msg_sender ctx)
      (Hexists : p_id (propertyAt s pid) ≠ 0)
      (Hactive : p_isActive (propertyAt s pid) = true)
      (Hstatus : p_status (propertyAt s pid) = PS_Approved)
      (Hprice : 0 < price)
      (Hreplaced :
         propertyReplaced pid
           (with_p_lastUpdated (block_timestamp ctx)
              (with_p_status PS_ListedForSale (propertyAt s pid))) s s')
      (Hreceived : received log = 0)
      (Hreleased : released log = 0) :
      Transition ctx s s' log c
  | T_requestToPurchase c pid price h value
      (Hcall : c = RequestToPurchase pid price h value
               ∨ c = RequestToLandOwner pid price h value)
      (Hpaused : paused s = false)
      (Hlatch : entered s = false)
      (Hexists : p_id (propertyAt s pid) ≠ 0)
      (Hactive : p_isActive (propertyAt s pid) = true)
      (Hstatus : p_status (propertyAt s pid) = PS_ListedForSale)
      (Hcaller : p_owner (propertyAt s pid) ≠ msg_sender ctx)
      (Hpayment : price <= value)
      (Hmarket : p_marketValue (propertyAt s pid) <= price)
      (Hcounter : transactionIds s < MAX_UINT256)
      (HtransactionIds : transactionIds s' = transactionIds s + 1)
      (Htransactions :
         transactions s' =
         <[transactionIds s + 1 :=
             mkTransaction (transactionIds s + 1) pid (p_owner (propertyAt s pid))
               (msg_sender ctx) price TS_Pending (block_timestamp ctx) 0 h]>
           (transactions s))
      (Hproperties :
         properties s' =
         <[pid := with_p_lastUpdated (block_timestamp ctx)
                    (with_p_status PS_SaleInProgress (propertyAt s pid))]>
           (properties s))
      (HpropertyIds : propertyIds s' = propertyIds s)
      (HownerProperties : ownerProperties s' = ownerProperties s)
      (Hbalance : balance s' = balance s + value)
      (Hentered : entered s' = false)
      (Hpaused' : paused s' = paused s)
      (Hreceived : received log = value)
      (Hreleased : released log = 0) :
      Transition ctx s s' log c
  | T_processPurchaseRequest c (tid : uint256) (approve : bool)
      (Hcall : c = ProcessPurchaseRequest tid approve ∨ c = ProcessRequest tid approve)
      (Hpaused : paused s = false)
      (Hlatch : entered s = false)
      (Hexists : t_id (transactionAt s tid) ≠ 0)
      (Hcaller : t_seller (transactionAt s tid) = msg_sender ctx)
      (Hstatus : t_status (transactionAt s tid) = TS_Pending)
      (Htransactions :
         transactions s' =
         <[tid := with_t_completedAt (block_timestamp ctx)
                    (with_t_status (if approve then TS_Approved else TS_Rejected)
                       (transactionAt s tid))]> (transactions s))
      (Hproperties :
         properties s' =
         <[t_propertyId (transactionAt s tid) :=
             with_p_lastUpdated (block_timestamp ctx)
               (if approve then propertyAt s (t_propertyId (transactionAt s tid))
                else with_p_status PS_ListedForSale
                       (propertyAt s (t_propertyId (transactionAt s tid))))]>
           (properties s))
      (HpropertyIds : propertyIds s' = propertyIds s)
      (HtransactionIds : transactionIds s' = transactionIds s)
      (HownerProperties : ownerProperties s' = ownerProperties s)
      (Hfunds : approve = false → t_price (transactionAt s tid) <= balance s)
      (Hbalance :
         balance s' =
         if approve then balance s
         else balance s - t_price (transactionAt s tid))
      (Hentered : entered s' = false)
      (Hpaused' : paused s' = paused s)
      (Hreceived : received log = 0)
      (Htransfers :
         transfersOf log =
         if approve then []
         else [(t_buyer (transactionAt s tid), t_price (transactionAt s tid))]) :
      Transition ctx s s' log c
  | T_completePurchase c tid
      (Hcall : c = CompletePurchase tid ∨ c = BuyProperty tid)
      (Hpaused : paused s = false)
      (Hlatch : entered s = false)
      (Hexists : t_id (transactionAt s tid) ≠ 0)
      (Hstatus : t_status (transactionAt s tid) = TS_Approved)
      (Hcaller : t_buyer (transactionAt s tid) = msg_sender ctx)
      (Hfunds : t_price (transactionAt s tid) <= balance s)
      (Haccepts : accepts ctx (t_seller (transactionAt s tid)) = true)
      (Htransactions :
         transactions s' =
         <[tid := with_t_completedAt (block_timestamp ctx)
                    (with_t_status TS_Completed (transactionAt s tid))]>
           (transactions s))
      (Hproperties :
         properties s' =
         <[t_propertyId (transactionAt s tid) :=
             with_p_lastUpdated (block_timestamp ctx)
               (with_p_status PS_Approved
                  (with_p_marketValue (t_price (transactionAt s tid))
                     (with_p_owner (t_buyer (transactionAt s tid))
                        (propertyAt s (t_propertyId (transactionAt s tid))))))]>
           (properties s))
      (HownerProperties :
         let pid : uint256 := t_propertyId (transactionAt s tid) in
         let buyer : address := t_buyer (transactionAt s tid) in
         let index : gmap address (list uint256) :=
           removeOwned s (p_owner (propertyAt s pid)) pid in
         ownerProperties s' =
         <[buyer := (default [] (index !! buyer) ++ [pid])%list]> index)
      (HpropertyIds : propertyIds s' = propertyIds s)
      (HtransactionIds : transactionIds s' = transactionIds s)
      (Hbalance : balance s' = balance s - t_price (transactionAt s tid))
      (Hentered : entered s' = false)
      (Hpaused' : paused s' = paused s)
      (Hreceived : received log = 0)
      (Htransfers :
         transfersOf log =
         [(t_seller (transactionAt s tid), t_price (transactionAt s tid))]) :
      Transition ctx s s' log c
  | T_updatePropertyDocuments pid h
      (Hcaller : p_owner (propertyAt s pid) = msg_sender ctx)
      (Hexists : p_id (propertyAt s pid) ≠ 0)
      (Hactive : p_isActive (propertyAt s pid) = true)
      (Hreplaced :
         propertyReplaced pid
           (with_p_lastUpdated (block_timestamp ctx)
              (with_p_ipfsHash h (propertyAt s pid))) s s')
      (Hreceived : received log = 0)
      (Hreleased : released log = 0) :
      Transition ctx s s' log (UpdatePropertyDocuments pid h)
  | T_removeFromSale pid
      (Hcaller : p_owner (propertyAt s pid) = msg_sender ctx)
      (Hexists : p_id (propertyAt s pid) ≠ 0)
      (Hactive : p_isActive (propertyAt s pid) = true)
      (Hstatus : p_status (propertyAt s pid) = PS_ListedForSale
                 ∨ p_status (propertyAt s pid) = PS_SaleInProgress)
      (Hreplaced :
         propertyReplaced pid
           (with_p_lastUpdated (block_timestamp ctx)
              (with_p_status PS_Approved (propertyAt s pid))) s s')
      (Hreceived : received log = 0)
      (Hreleased : released log = 0) :
      Transition ctx s s' log (RemoveFromSale pid).

(** ** Invariants of the reachable states *)

(** Records sit under their own id, ids are positive and below the
    counters, every transaction refers to a registered property, and the
    reentrancy latch is released between calls. *)
Record wellFormed (s : State) : Prop := mkWellFormed {
  wf_entered : entered s = false;
  wf_properties :
    ∀ i p, properties s !! i = Some p →
           p_id p = i ∧ i ≠ 0 ∧ i <= propertyIds s;
  wf_transactions :
    ∀ i t, transactions s !! i = Some t →
           t_id t = i ∧ i ≠ 0 ∧ i <= transactionIds s ∧
           is_Some (properties s !! t_propertyId t)
}.

(** The property of an open transaction has its sale in progress. *)
Definition openImpliesInProgress (s : State) : Prop :=
  ∀ i t, transactions s !! i = Some t → isOpen t = true →
         p_status (propertyAt s (t_propertyId t)) = PS_SaleInProgress.

(** The completion timestamp is zero exactly while the transaction is
    Pending. *)
Definition stampedWhenProcessed (s : State) : Prop :=
  ∀ i t, transactions s !! i = Some t →
         (t_status t = TS_Pending ↔ t_completedAt t = 0).

(** The owner index lists a property at most once, and only under its
    current owner. *)
Definition indexOk (s : State) : Prop :=
  ∀ a, NoDup (ownerPropertiesOf s a) ∧
       ∀ p, p ∈ ownerPropertiesOf s a →
            ∃ P, properties s !! p = Some P ∧ p_owner P = a.

(** The entry points that carry [whenNotPaused]. *)
Definition isPauseGuarded (c : Call) : bool :=
  match c with
  | RegisterProperty _ _ _ _ _ _ _
  | ListPropertyForSale _ _ | MakeAvailable _ _
  | RequestToPurchase _ _ _ _ | RequestToLandOwner _ _ _ _
  | ProcessPurchaseRequest _ _ | ProcessRequest _ _
  | CompletePurchase _ | BuyProperty _ => true
  | _ => false
  end.


(** ** Example runs

    The parties and calls of the sale scenario of the specification, used
    to instantiate the properties below on concrete inputs. *)

Definition registrar : address := 100.
Definition alice : address := 1.
Definition bob : address := 2.
Definition carol : address := 3.
Definition officer : address := 7.

(** A call context in which every recipient accepts payments. *)
Definition as_ (a : address) : Ctx := mkCtx a 1000 (λ _, true).

Definition scenarioRegistered : list (Ctx * Call) :=
  [(as_ alice,
    RegisterProperty "State1" "District1" "Village1" "SUR-001" alice 100
      "QmHash123")].

Definition scenarioListed : list (Ctx * Call) :=
  (scenarioRegistered ++
   [(as_ registrar, ApproveProperty 1 true);
    (as_ alice, ListPropertyForSale 1 150)])%list.

Definition scenarioRequested : list (Ctx * Call) :=
  (scenarioListed ++ [(as_ bob, RequestToPurchase 1 150 "QmHash456" 150)])%list.

Definition scenarioApproved : list (Ctx * Call) :=
  (scenarioRequested ++ [(as_ alice, ProcessPurchaseRequest 1 true)])%list.

Definition scenarioCompleted : list (Ctx * Call) :=
  (scenarioApproved ++ [(as_ bob, CompletePurchase 1)])%list.

(** The buyer escrows 200 for an offer of 150 and the seller rejects. *)
Definition scenarioOverpaidRejected : list (Ctx * Call) :=
  (scenarioListed ++
   [(as_ bob, RequestToPurchase 1 150 "QmHash456" 200);
    (as_ alice, ProcessPurchaseRequest 1 false)])%list.

(** The owner takes the property off the market while a request is
    pending, lists it again, and a second request comes in. *)
Definition scenarioRelisted : list (Ctx * Call) :=
  (scenarioRequested ++
   [(as_ alice, RemoveFromSale 1);
    (as_ alice, ListPropertyForSale 1 150)])%list.

Definition scenarioTwoPending : list (Ctx * Call) :=
  (scenarioRelisted ++ [(as_ carol, RequestToPurchase 1 150 "QmHash789" 150)])%list.

(** The same buyer holds two approved requests on one property and has
    completed the first of them. *)
Definition scenarioBoughtOnce : list (Ctx * Call) :=
  (scenarioRelisted ++
   [(as_ bob, RequestToPurchase 1 150 "QmHash789" 150);
    (as_ alice, ProcessPurchaseRequest 1 true);
    (as_ alice, ProcessPurchaseRequest 2 true);
    (as_ bob, CompletePurchase 1)])%list.

(** The seller approves a request and then takes the property off the
    market. *)
Definition scenarioWithdrawn : list (Ctx * Call) :=
  (scenarioApproved ++ [(as_ alice, RemoveFromSale 1)])%list.

(** A registered Government Authority and a property awaiting approval. *)
Definition scenarioOfficer : list (Ctx * Call) :=
  ((as_ registrar, RegisterUser officer GOVERNMENT_ROLE "Government Authority")
   :: scenarioRegistered)%list.

(** A paused registry with one pending and one listed property. *)
Definition scenarioPaused : list (Ctx * Call) :=
  (scenarioListed ++
   [(as_ alice,
     RegisterProperty "State1" "District1" "Village1" "SUR-002" alice 100
       "QmHash124");
    (as_ registrar, Pause)])%list.

(** ** Further views and notions

    The remaining views of the contract, and the notions and invariants
    the further properties at the end of the file are stated with. *)

Definition getSuperadminVillages (s : State) (_superadmin : address) : list string :=
  villagesOf s _superadmin.

(** [viewRequest], loop by loop.  The first loop counts the Pending
    entries of [allTransactions]; the second writes them into an array of
    that many zeros, and a write past its end is the out-of-bounds panic
    of the compiler. *)
Fixpoint viewRequest_count (s : State) (allTransactions : list uint256)
    (fuel i pendingCount : nat) : nat :=
  match fuel with
  | O => pendingCount
  | S fuel' =>
      if bool_decide (i < length allTransactions)%nat then
        if bool_decide (t_status (transactionAt s (default 0 (allTransactions !! i)))
                        = TS_Pending)
        then viewRequest_count s allTransactions fuel' (S i) (S pendingCount)
        else viewRequest_count s allTransactions fuel' (S i) pendingCount
      else pendingCount
  end.

Fixpoint viewRequest_fill (s : State) (allTransactions : list uint256)
    (fuel i : nat) (pendingTransactions : list uint256) (index : nat)
    : result (list uint256) :=
  match fuel with
  | O => Ok pendingTransactions
  | S fuel' =>
      if bool_decide (i < length allTransactions)%nat then
        if bool_decide (t_status (transactionAt s (default 0 (allTransactions !! i)))
                        = TS_Pending)
        then
          if bool_decide (index < length pendingTransactions)%nat then
            viewRequest_fill s allTransactions fuel' (S i)
              (<[index := default 0 (allTransactions !! i)]> pendingTransactions)
              (S index)
          else Err (Panic 50)
        else viewRequest_fill s allTransactions fuel' (S i) pendingTransactions index
      else Ok pendingTransactions
  end.

Definition viewRequest_loops (s : State) (_propertyId : uint256)
    : result (list uint256) :=
  if negb (p_id (propertyAt s _propertyId) =? 0) then
    let allTransactions := propertyTransactionsOf s _propertyId in
    let pendingCount :=
      viewRequest_count s allTransactions (length allTransactions) 0 0 in
    viewRequest_fill s allTransactions (length allTransactions) 0
      (replicate pendingCount 0) 0
  else Err (Revert "Property does not exist").

Definition landInfoOwner (ctx : Ctx) (s : State) (_propertyId : uint256)
    : result (Property * list uint256) :=
  if negb (p_id (propertyAt s _propertyId) =? 0) then
    if p_owner (propertyAt s _propertyId) =? msg_sender ctx then
      match viewRequest s _propertyId with
      | Ok pendingRequests => Ok (propertyAt s _propertyId, pendingRequests)
      | Err e => Err e
      end
    else Err (Revert "Only property owner can access this information")
  else Err (Revert "Property does not exist").

Definition landInfoUser (s : State) (_propertyId : uint256) : result Property :=
  if negb (p_id (propertyAt s _propertyId) =? 0) then
    if p_isActive (propertyAt s _propertyId) then Ok (propertyAt s _propertyId)
    else Err (Revert "Property is not active")
  else Err (Revert "Property does not exist").

Definition viewAssets (s : State) (_owner : address) : list uint256 :=
  ownerPropertiesOf s _owner.

(** The Pending entries of a list of transaction ids. *)
Definition pendingOf (s : State) (l : list uint256) : list uint256 :=
  filter (λ i, t_status (transactionAt s i) = TS_Pending) l.

(** Reading a decimal numeral back: the value of a non-empty string of
    the characters 0 to 9, most significant digit first. *)
Definition digitValue (c : ascii) : option N :=
  let n := Ascii.N_of_ascii c in
  if (48 <=? n) && (n <=? 57) then Some (n - 48) else None.

Fixpoint parseDecimalFrom (acc : N) (x : string) : option N :=
  match x with
  | EmptyString => Some acc
  | String c rest =>
      match digitValue c with
      | Some d => parseDecimalFrom (10 * acc + d) rest
      | None => None
      end
  end.

Definition parseDecimal (x : string) : option N :=
  match x with
  | EmptyString => None
  | String _ _ => parseDecimalFrom 0 x
  end.

(** Every id issued so far has its record. *)
Definition idsDense (s : State) : Prop :=
  (∀ i, 0 < i → i <= propertyIds s → is_Some (properties s !! i)) ∧
  (∀ i, 0 < i → i <= transactionIds s → is_Some (transactions s !! i)).

(** Every property is listed under its owner. *)
Definition ownersListed (s : State) : Prop :=
  ∀ p P, properties s !! p = Some P → p ∈ ownerPropertiesOf s (p_owner P).

(** A property record is inactive exactly when it is Rejected, and is
    never Sold. *)
Definition propertyOk (P : Property) : Prop :=
  p_status P ≠ PS_Sold ∧ (p_isActive P = false ↔ p_status P = PS_Rejected).

(** A property that has been approved and not rejected. *)
Definition approvedOnce (P : Property) : Prop :=
  p_status P ≠ PS_Pending ∧ p_status P ≠ PS_Rejected.

Definition statusOk (s : State) : Prop :=
  (∀ p P, properties s !! p = Some P → propertyOk P) ∧
  (∀ i T, transactions s !! i = Some T →
     t_status T ≠ TS_Cancelled ∧ approvedOnce (propertyAt s (t_propertyId T))).

(** The moves of a property's status that the code makes. *)
Definition statusEdge (old new : PropertyStatus) : bool :=
  match old, new with
  | PS_Pending, (PS_Pending | PS_Approved | PS_Rejected) => true
  | PS_Approved, (PS_Approved | PS_ListedForSale) => true
  | PS_Rejected, PS_Rejected => true
  | PS_ListedForSale, (PS_ListedForSale | PS_SaleInProgress | PS_Approved) => true
  | PS_SaleInProgress, (PS_SaleInProgress | PS_Approved | PS_ListedForSale) => true
  | PS_Sold, PS_Sold => true
  | _, _ => false
  end.

(** The terms of a transaction: everything but its status and its
    completion time. *)
Definition sameTerms (T T' : Transaction) : Prop :=
  t_id T' = t_id T ∧ t_propertyId T' = t_propertyId T ∧
  t_seller T' = t_seller T ∧ t_buyer T' = t_buyer T ∧
  t_price T' = t_price T ∧ t_requestedAt T' = t_requestedAt T ∧
  t_ipfsHash T' = t_ipfsHash T.

(** The statuses a transaction can have later on. *)
Definition statusLater (old new : TransactionStatus) : bool :=
  match old, new with
  | TS_Pending, (TS_Pending | TS_Approved | TS_Rejected | TS_Completed) => true
  | TS_Approved, (TS_Approved | TS_Completed) => true
  | TS_Rejected, TS_Rejected => true
  | TS_Completed, TS_Completed => true
  | TS_Cancelled, TS_Cancelled => true
  | _, _ => false
  end.

(** A registration that the Superadmin rejects. *)
Definition scenarioRejected : list (Ctx * Call) :=
  (scenarioRegistered ++ [(as_ registrar, ApproveProperty 1 false)])%list.

(** The property a call is about, for the entry points that carry
    [validProperty]. *)
Definition targetProperty (c : Call) : option uint256 :=
  match c with
  | ApproveProperty p _ | ListPropertyForSale p _ | MakeAvailable p _
  | RequestToPurchase p _ _ _ | RequestToLandOwner p _ _ _
  | UpdatePropertyDocuments p _ | RemoveFromSale p => Some p
  | _ => None
  end.

(** The registration data of a property: everything the contract never
    writes after [registerProperty]. *)
Definition sameRegistration (P P' : Property) : Prop :=
  p_id P' = p_id P ∧ p_state P' = p_state P ∧ p_district P' = p_district P ∧
  p_village P' = p_village P ∧ p_surveyNumber P' = p_surveyNumber P ∧
  p_propertyId P' = p_propertyId P ∧ p_registeredAt P' = p_registeredAt P.

(** What a later state holds of a transaction [T]: the same terms, a
    status [T] can move to, and [T] itself once it is Rejected or
    Completed. *)
Definition laterOf (T T' : Transaction) : Prop :=
  sameTerms T T' ∧ statusLater (t_status T) (t_status T') = true ∧
  (t_status T = TS_Rejected ∨ t_status T = TS_Completed → T' = T).

(** The account a call registers, if any: the user of [registerUser] and
    [addSuperAdmin], the owner of [registerProperty], the buyer of
    [completePurchase]. *)
Definition registeredBy (s : State) (c : Call) : option address :=
  match c with
  | RegisterUser u _ _ => Some u
  | RegisterProperty _ _ _ _ o _ _ => Some o
  | AddSuperAdmin a _ _ => Some a
  | CompletePurchase t | BuyProperty t => Some (t_buyer (transactionAt s t))
  | _ => None
  end.

(** The transaction list of a property after a call. *)
Definition propertyTransactionsAfter (s : State) (c : Call)
    : gmap uint256 (list uint256) :=
  match c with
  | RequestToPurchase pid _ _ _ | RequestToLandOwner pid _ _ _ =>
      <[pid := (propertyTransactionsOf s pid ++ [transactionIds s + 1])%list]>
        (propertyTransactions s)
  | _ => propertyTransactions s
  end.

(** The villages of an account after a call. *)
Definition villagesAfter (s : State) (c : Call) (b : address) : list string :=
  match c with
  | AddSuperAdmin a vs _ =>
      if bool_decide (b = a) then (villagesOf s a ++ vs)%list else villagesOf s b
  | _ => villagesOf s b
  end.

(** The transaction list of a property holds the ids of the transactions
    on it, in increasing order. *)
Definition txIndexOk (s : State) : Prop :=
  ∀ p, StronglySorted N.lt (propertyTransactionsOf s p) ∧
       ∀ i, i ∈ propertyTransactionsOf s p ↔
            ∃ T, transactions s !! i = Some T ∧ t_propertyId T = p.

(** What [registerProperty] checks of its input stays true of the record:
    the four location fields are non-empty, the market value is positive,
    and the identifier string is the one built at registration. *)
Definition propertyValid (P : Property) : Prop :=
  nonEmpty (p_state P) = true ∧ nonEmpty (p_district P) = true ∧
  nonEmpty (p_village P) = true ∧ nonEmpty (p_surveyNumber P) = true ∧
  0 < p_marketValue P ∧
  p_propertyId P =
    uniquePropertyIdOf (p_state P) (p_district P) (p_village P)
      (p_surveyNumber P) (p_id P).

(** What [requestToPurchase] checks of a request stays true of the
    transaction. *)
Definition transactionValid (T : Transaction) : Prop :=
  0 < t_price T ∧ t_buyer T ≠ t_seller T.

Definition recordsValid (s : State) : Prop :=
  (∀ p P, properties s !! p = Some P → propertyValid P) ∧
  (∀ i T, transactions s !! i = Some T → transactionValid T).

(** Every owner is a registered user, and an account that is not
    registered has no villages assigned. *)
Definition usersOk (s : State) : Prop :=
  (∀ p P, properties s !! p = Some P → isRegistered s (p_owner P) = true) ∧
  (∀ a, isRegistered s a = false → villagesOf s a = []).

(** The input checks of [registerProperty]. *)
Definition validRegistration (_state _district _village _surveyNumber : string)
    (_owner : address) (_marketValue : uint256) : bool :=
  nonEmpty _state && nonEmpty _district && nonEmpty _village &&
  nonEmpty _surveyNumber && negb (_owner =? 0) && (0 <? _marketValue).

(** The seller of an open transaction is the owner of its property. *)
Definition openSellerIsOwner (s : State) : Prop :=
  ∀ i T, transactions s !! i = Some T → isOpen T = true →
         t_seller T = p_owner (propertyAt s (t_propertyId T)).

(** The transfers a call makes: the refund of a rejected request to its
    buyer, the payment of a completed purchase to its seller. *)
Definition transfersBy (s : State) (c : Call) : list (address * uint256) :=
  match c with
  | ProcessPurchaseRequest t false | ProcessRequest t false =>
      [(t_buyer (transactionAt s t), t_price (transactionAt s t))]
  | CompletePurchase t | BuyProperty t =>
      [(t_seller (transactionAt s t), t_price (transactionAt s t))]
  | _ => []
  end.

(** ** Escrow along a run *)


(** The call goes through. *)
Definition succeeds (ctx : Ctx) (c : Call) (s : State) : bool :=
  match call ctx c s with
  | Ok _ => true
  | Err _ => false
  end.








(** ** Sales per property *)

(** [withdrawsSale p ctx c s]: the call [c] is a [removeFromSale] of
    property [p] that succeeds in [s] while the sale of [p] is in
    progress.  Calls that revert and calls on other properties do not
    count. *)
Definition withdrawsSale (p : uint256) (ctx : Ctx) (c : Call) (s : State) : bool :=
  match c with
  | RemoveFromSale q =>
      bool_decide (q = p) &&
      bool_decide (p_status (propertyAt s p) = PS_SaleInProgress) &&
      succeeds ctx c s
  | _ => false
  end.

(** Along the run [cs] from [s], property [p] is never taken off the
    market in the middle of a sale. *)
Fixpoint saleKept (p : uint256) (cs : list (Ctx * Call)) (s : State) : bool :=
  match cs with
  | [] => true
  | (ctx, c) :: rest =>
      negb (withdrawsSale p ctx c s) && saleKept p rest (step ctx c s).1
  end.

(** At most one open transaction refers to property [p]. *)
Definition atMostOneOpenOn (p : uint256) (s : State) : Prop :=
  ∀ i j ti tj,
    transactions s !! i = Some ti → transactions s !! j = Some tj →
    isOpen ti = true → isOpen tj = true →
    t_propertyId ti = p → t_propertyId tj = p → i = j.

(** While a transaction on property [p] is open, the sale of [p] is in
    progress. *)
Definition openKeepsInProgress (p : uint256) (s : State) : Prop :=
  ∀ i t, transactions s !! i = Some t → isOpen t = true → t_propertyId t = p →
         p_status (propertyAt s p) = PS_SaleInProgress.

(** Two properties on sale with a pending request each; a stranger's
    [removeFromSale] of the first reverts, and the owner of the second
    takes it off the market in the middle of its sale. *)
Definition scenarioOtherWithdrawn : list (Ctx * Call) :=
  (scenarioRequested ++
   [(as_ carol,
     RegisterProperty "State1" "District1" "Village1" "SUR-002" carol 100
       "QmHash124");
    (as_ registrar, ApproveProperty 2 true);
    (as_ carol, ListPropertyForSale 2 150);
    (as_ bob, RequestToPurchase 2 150 "QmHash457" 150);
    (as_ bob, RemoveFromSale 1);
    (as_ carol, RemoveFromSale 2)])%list.

(** ** The entry points that move funds, cut at the transfer

    [processPurchaseRequest] on rejection and [completePurchase] make one
    external call each.  Their statements up to that call and their
    statements after it are given here as two computations, so that the
    state in which the call is made can be named. *)








(** * Properties *)

(** ** The monad, step by step *)

Lemma bind_Ok {A B : Type} (m : M A) (f : A → M B) s l r :
  (m ≫= f) s l = Ok r ↔ ∃ a s1 l1, m s l = Ok (a, s1, l1) ∧ f a s1 l1 = Ok r.
Proof.
  unfold mbind, M_bind.
  destruct (m s l) as [[[a s1] l1]|e]; split.
  - eauto.
  - intros (? & ? & ? & E & E'). congruence.
  - discriminate.
  - intros (? & ? & ? & E & E'). discriminate.
Qed.

Lemma check_Ok b e s l r : check b e s l = Ok r ↔ b = true ∧ r = (tt, s, l).
Proof.
  unfold check, mret, M_ret, fail.
  destruct b; split.
  - intros [= <-]. auto.
  - intros [_ ->]. reflexivity.
  - discriminate.
  - intros [[=] _].
Qed.

Lemma require_Ok b reason s l r :
  require b reason s l = Ok r ↔ b = true ∧ r = (tt, s, l).
Proof. apply check_Ok. Qed.

Lemma getState_Ok s l r : getState s l = Ok r ↔ r = (s, s, l).
Proof. unfold getState. naive_solver. Qed.

Lemma store_Ok slot f s l r :
  store slot f s l = Ok r ↔ r = (tt, f s, (l ++ [SStore slot])%list).
Proof. unfold store. naive_solver. Qed.

Lemma emit_Ok e s l r : emit e s l = Ok r ↔ r = (tt, s, (l ++ [Emit e])%list).
Proof. unfold emit. naive_solver. Qed.

Lemma mret_Ok {A : Type} (a : A) s l r : (mret a : M A) s l = Ok r ↔ r = (a, s, l).
Proof. unfold mret, M_ret. naive_solver. Qed.

Lemma receiveValue_Ok ctx v s l r :
  receiveValue ctx v s l = Ok r ↔
  r = (tt, set_balance (balance s + v) s, (l ++ [Received (msg_sender ctx) v])%list).
Proof. unfold receiveValue. naive_solver. Qed.

Lemma payableCall_Ok ctx to v s l r :
  payableCall ctx to v s l = Ok r ↔
  (v <= balance s ∧ accepts ctx to = true ∧
   r = (true, set_balance (balance s - v) s, (l ++ [Transfer to v])%list)) ∨
  ((balance s < v ∨ accepts ctx to = false) ∧ r = (false, s, l)).
Proof.
  unfold payableCall.
  destruct (N.leb_spec v (balance s)) as [Hle|Hlt];
    destruct (accepts ctx to); cbn;
    split; intros Hr; try (destruct Hr as [(? & ? & ?)|([?|?] & ?)]);
    simplify_eq; try lia; try discriminate; eauto 6.
Qed.

Lemma call_Ok ctx c s s' log :
  call ctx c s = Ok (s', log) ↔ dispatch ctx c s [] = Ok (tt, s', log).
Proof.
  unfold call.
  destruct (dispatch ctx c s []) as [[[[] s1] l1]|e]; split;
    intros Hx; simplify_eq; reflexivity.
Qed.

(** Unfold the state accessors and reduce projections of updated states. *)
Ltac sunfold :=
  repeat progress (
    unfold hasRole, propertyAt, transactionAt, ownerPropertiesOf,
      propertyTransactionsOf, isRegistered, villagesOf,
      modifyProperty, modifyTransaction in *;
    cbn [paused entered roles propertyIds transactionIds properties
         transactions ownerProperties propertyTransactions registeredUsers
         userRoles superadminVillages balance
         set_paused set_entered set_role set_propertyIds set_transactionIds
         set_property set_transaction set_ownerProperties
         set_propertyTransactions set_registeredUser set_userRole
         set_superadminVillages set_balance] in *).

Ltac unfold_modifiers H :=
  unfold whenNotPaused, whenPaused, nonReentrant, onlyRole, onlyPropertyOwner,
    validProperty, validTransaction, registerAsPropertyOwner, _grantRole,
    _revokeRole in H.

(** ** Logs *)

Lemma received_app l1 l2 : received (l1 ++ l2) = received l1 + received l2.
Proof.
  induction l1 as [|e l1 IH]; cbn [app received]; [reflexivity|].
  destruct e; rewrite IH; lia.
Qed.

Lemma released_app l1 l2 : released (l1 ++ l2) = released l1 + released l2.
Proof.
  induction l1 as [|e l1 IH]; cbn [app released]; [reflexivity|].
  destruct e; rewrite IH; lia.
Qed.

Lemma transfersOf_app l1 l2 :
  transfersOf (l1 ++ l2) = (transfersOf l1 ++ transfersOf l2)%list.
Proof.
  induction l1 as [|e l1 IH]; cbn [app transfersOf]; [reflexivity|].
  destruct e; rewrite IH; reflexivity.
Qed.

Lemma released_transfersOf log :
  released log = foldr (λ x acc, x.2 + acc) 0 (transfersOf log).
Proof.
  induction log as [|e log IH]; [reflexivity|].
  destruct e; cbn; rewrite <- ?IH; reflexivity.
Qed.

(** ** The removal loop *)

Lemma removeFromOwnerList_eq fuel owner pid i s l :
  removeFromOwnerList fuel owner pid i s l =
  match firstIndexFrom fuel i (ownerPropertiesOf s owner) pid with
  | Some j =>
      Ok (tt,
          set_ownerProperties owner (swapPop (ownerPropertiesOf s owner) j) s,
          (l ++ [SStore (S_ownerProperties owner);
                 SStore (S_ownerProperties owner)])%list)
  | None => Ok (tt, s, l)
  end.
Proof.
  revert i. induction fuel as [|fuel IH]; intros i; [reflexivity|].
  cbn [removeFromOwnerList firstIndexFrom].
  unfold mbind, M_bind, getState.
  destruct (bool_decide (i < length (ownerPropertiesOf s owner))%nat); [|reflexivity].
  destruct (bool_decide (ownerPropertiesOf s owner !! i = Some pid)); [|apply IH].
  unfold store, swapPop. f_equal. f_equal; [f_equal|].
  - unfold set_ownerProperties, ownerPropertiesOf.
    cbn [paused entered roles propertyIds transactionIds properties
         transactions ownerProperties propertyTransactions registeredUsers
         userRoles superadminVillages balance].
    rewrite lookup_insert_eq. cbn [default from_option id].
    rewrite insert_insert_eq. reflexivity.
  - rewrite <- app_assoc. reflexivity.
Qed.

Lemma firstIndexFrom_Some fuel i l pid j :
  firstIndexFrom fuel i l pid = Some j → l !! j = Some pid.
Proof.
  revert i. induction fuel as [|fuel IH]; intros i; [discriminate|].
  cbn [firstIndexFrom].
  destruct (bool_decide (i < length l)%nat); [|discriminate].
  destruct (bool_decide_reflect (l !! i = Some pid)) as [E|_].
  - intros [= <-]. exact E.
  - apply IH.
Qed.

Lemma firstIndexFrom_None fuel i l pid :
  (length l ≤ i + fuel)%nat →
  firstIndexFrom fuel i l pid = None →
  ∀ k, (i ≤ k)%nat → l !! k ≠ Some pid.
Proof.
  revert i. induction fuel as [|fuel IH]; intros i Hlen Hnone k Hk Hlk.
  - apply lookup_lt_Some in Hlk. lia.
  - cbn [firstIndexFrom] in Hnone.
    destruct (bool_decide_reflect (i < length l)%nat) as [Hi|Hi].
    + destruct (bool_decide_reflect (l !! i = Some pid)) as [E|E]; [discriminate|].
      destruct (decide (k = i)) as [->|Hne]; [contradiction|].
      apply (IH (S i)) with (k := k); auto; lia.
    + apply lookup_lt_Some in Hlk. lia.
Qed.

Lemma firstIndexFrom_not_elem l pid :
  firstIndexFrom (length l) 0 l pid = None → pid ∉ l.
Proof.
  intros Hnone Hin. apply list_elem_of_lookup in Hin as [k Hk].
  eapply firstIndexFrom_None in Hnone; eauto; lia.
Qed.

Lemma swapPop_Permutation (l : list N) j x :
  l !! j = Some x → swapPop l j ≡ₚ delete j l.
Proof.
  intros Hj. unfold swapPop.
  destruct (list_elem_of_split_length l j x Hj) as (l1 & l2 & -> & Hlen).
  subst j.
  destruct l2 as [|y l2 _] using rev_ind.
  - rewrite last_snoc. cbn [default from_option id].
    rewrite insert_app_r_alt by lia. rewrite Nat.sub_diag. cbn [insert list_insert].
    rewrite removelast_last.
    rewrite delete_middle. rewrite app_nil_r. reflexivity.
  - replace (l1 ++ x :: l2 ++ [y])%list with ((l1 ++ x :: l2) ++ [y])%list
      by (rewrite <- app_assoc; reflexivity).
    rewrite last_snoc. cbn [default from_option id].
    rewrite <- app_assoc. cbn [app].
    rewrite insert_app_r_alt by lia. rewrite Nat.sub_diag. cbn [insert list_insert].
    replace (l1 ++ y :: l2 ++ [y])%list with ((l1 ++ y :: l2) ++ [y])%list
      by (rewrite <- app_assoc; reflexivity).
    rewrite removelast_last.
    rewrite delete_middle.
    apply Permutation_app_head.
    apply Permutation_cons_append.
Qed.

(** ** Inversion of successful calls *)

(** Decompose a successful run of monadic code into its steps. *)
Ltac minv :=
  repeat match goal with
  | H : (_ ≫= _) _ _ = Ok _ |- _ =>
      apply bind_Ok in H; destruct H as (? & ? & ? & ? & H)
  | H : check _ _ _ _ = Ok _ |- _ => apply check_Ok in H; destruct H as [? H]
  | H : require _ _ _ _ = Ok _ |- _ => apply require_Ok in H; destruct H as [? H]
  | H : getState _ _ = Ok _ |- _ => apply getState_Ok in H
  | H : store _ _ _ _ = Ok _ |- _ => apply store_Ok in H
  | H : emit _ _ _ = Ok _ |- _ => apply emit_Ok in H
  | H : mret _ _ _ = Ok _ |- _ => apply mret_Ok in H
  | H : receiveValue _ _ _ _ = Ok _ |- _ => apply receiveValue_Ok in H
  | H : removeFromOwnerList _ _ _ _ _ _ = Ok _ |- _ =>
      rewrite removeFromOwnerList_eq in H
  | H : payableCall _ _ _ _ _ = Ok _ |- _ =>
      apply payableCall_Ok in H; destruct H as [(? & ? & H)|(? & H)]
  | H : match ?x with Some _ => _ | None => _ end = Ok _ |- _ => destruct x eqn:?
  | H : Ok _ = Ok _ |- _ => injection H as H
  | H : (_, _, _) = (_, _, _) |- _ => injection H as ? ? ?
  | H : (_, _) = (_, _) |- _ => injection H as ? ?
  | H : (if ?b then _ else _) _ _ = Ok _ |- _ => destruct b eqn:?
  | H : false = true |- _ => discriminate H
  | H : tt = tt |- _ => clear H
  | u : unit |- _ => destruct u
  | H : ?x = _ |- _ => is_var x; subst x
  | H : _ = ?x |- _ => is_var x; subst x
  end.

Ltac bools :=
  repeat match goal with
  | H : negb _ = true |- _ => apply negb_true_iff in H
  | H : negb _ = false |- _ => apply negb_false_iff in H
  | H : N.eqb _ _ = true |- _ => apply N.eqb_eq in H
  | H : N.eqb _ _ = false |- _ => apply N.eqb_neq in H
  | H : N.leb _ _ = true |- _ => apply N.leb_le in H
  | H : N.ltb _ _ = true |- _ => apply N.ltb_lt in H
  | H : bool_decide _ = true |- _ => apply bool_decide_eq_true in H
  | H : bool_decide _ = false |- _ => apply bool_decide_eq_false in H
  | H : orb _ _ = true |- _ => apply orb_true_iff in H
  | H : andb _ _ = true |- _ => apply andb_true_iff in H; destruct H
  end.

Ltac call_inv H :=
  apply call_Ok in H; cbn [dispatch] in H;
  unfold makeAvailable, requestToLandOwner, processRequest, buyProperty in H;
  unfold registerUser, registerProperty, approveProperty, listPropertyForSale,
    requestToPurchase, processPurchaseRequest, completePurchase,
    updatePropertyDocuments, removeFromSale, addSuperAdmin, pause, unpause,
    receiveEther, grantRole, revokeRole, renounceRole in H;
  unfold_modifiers H; minv; bools.

Ltac logs :=
  rewrite ?received_app, ?released_app, ?transfersOf_app;
  cbn [received released transfersOf app].

Ltac maps :=
  repeat (rewrite ?lookup_insert_eq, ?insert_insert_eq;
          cbn [default from_option id]).

Ltac solve_transition :=
  eauto; sunfold; try (split; sunfold); logs; maps; auto; try lia.

Lemma pushVillages_frame a vs s l r :
  pushVillages a vs s l = Ok r →
  ∃ s' l', r = (tt, s', (l ++ l')%list) ∧ sameRecords s s' ∧
           balance s' = balance s ∧ received l' = 0 ∧ released l' = 0.
Proof.
  revert s l. induction vs as [|v vs IH]; intros s l H; cbn [pushVillages] in H.
  - minv. exists s, []. rewrite app_nil_r. repeat split; auto.
  - minv. apply IH in H as (s' & l' & -> & [? ? ? ? ? ?] & Hb & Hrc & Hrl).
    exists s', (SStore (S_superadminVillages a) :: l').
    rewrite <- app_assoc. sunfold. repeat split; auto.
Qed.

Lemma registerUser_T ctx u r n s s' log :
  call ctx (RegisterUser u r n) s = Ok (s', log) →
  Transition ctx s s' log (RegisterUser u r n).
Proof.
  intros H. call_inv H; apply T_admin; solve_transition.
Qed.

Lemma addSuperAdmin_T ctx a vs n s s' log :
  call ctx (AddSuperAdmin a vs n) s = Ok (s', log) →
  Transition ctx s s' log (AddSuperAdmin a vs n).
Proof.
  intros H. call_inv H.
  all: match goal with
       | Hp : pushVillages _ _ _ _ = Ok _ |- _ =>
           apply pushVillages_frame in Hp
             as (s1 & l1 & E & [? ? ? ? ? ?] & Hb & Hrc & Hrl)
       end; minv.
  all: apply T_admin; [reflexivity|split|..]; sunfold; logs; auto; lia.
Qed.

Lemma pause_T ctx s s' log :
  call ctx Pause s = Ok (s', log) → Transition ctx s s' log Pause.
Proof. intros H. call_inv H; apply T_admin; solve_transition. Qed.

Lemma unpause_T ctx s s' log :
  call ctx Unpause s = Ok (s', log) → Transition ctx s s' log Unpause.
Proof. intros H. call_inv H; apply T_admin; solve_transition. Qed.

Lemma receiveEther_T ctx v s s' log :
  call ctx (ReceiveEther v) s = Ok (s', log) →
  Transition ctx s s' log (ReceiveEther v).
Proof. intros H. call_inv H; apply T_admin; solve_transition. Qed.

Lemma grantRole_T ctx r a s s' log :
  call ctx (GrantRole r a) s = Ok (s', log) →
  Transition ctx s s' log (GrantRole r a).
Proof. intros H. call_inv H; apply T_admin; solve_transition. Qed.

Lemma revokeRole_T ctx r a s s' log :
  call ctx (RevokeRole r a) s = Ok (s', log) →
  Transition ctx s s' log (RevokeRole r a).
Proof. intros H. call_inv H; apply T_admin; solve_transition. Qed.

Lemma renounceRole_T ctx r a s s' log :
  call ctx (RenounceRole r a) s = Ok (s', log) →
  Transition ctx s s' log (RenounceRole r a).
Proof. intros H. call_inv H; apply T_admin; solve_transition. Qed.

Lemma registerProperty_T ctx st d v sn o mv h s s' log :
  call ctx (RegisterProperty st d v sn o mv h) s = Ok (s', log) →
  Transition ctx s s' log (RegisterProperty st d v sn o mv h).
Proof.
  intros H. call_inv H; eapply T_registerProperty; solve_transition.
Qed.

Lemma approveProperty_T ctx p b s s' log :
  call ctx (ApproveProperty p b) s = Ok (s', log) →
  Transition ctx s s' log (ApproveProperty p b).
Proof.
  intros H. call_inv H; eapply T_approveProperty; solve_transition.
Qed.

Lemma listPropertyForSale_T ctx c p pr s s' log :
  c = ListPropertyForSale p pr ∨ c = MakeAvailable p pr →
  call ctx c s = Ok (s', log) → Transition ctx s s' log c.
Proof.
  intros Hc H.
  assert (call ctx (ListPropertyForSale p pr) s = Ok (s', log)) as H'
    by (destruct Hc as [-> | ->]; exact H).
  clear H. call_inv H'.
  eapply T_listPropertyForSale; [exact Hc|..]; solve_transition.
Qed.

Lemma requestToPurchase_T ctx c p pr h v s s' log :
  c = RequestToPurchase p pr h v ∨ c = RequestToLandOwner p pr h v →
  call ctx c s = Ok (s', log) → Transition ctx s s' log c.
Proof.
  intros Hc H.
  assert (call ctx (RequestToPurchase p pr h v) s = Ok (s', log)) as H'
    by (destruct Hc as [-> | ->]; exact H).
  clear H. call_inv H'.
  eapply T_requestToPurchase; [exact Hc|..]; solve_transition.
Qed.

Lemma processPurchaseRequest_T ctx c t b s s' log :
  c = ProcessPurchaseRequest t b ∨ c = ProcessRequest t b →
  call ctx c s = Ok (s', log) → Transition ctx s s' log c.
Proof.
  intros Hc H.
  assert (call ctx (ProcessPurchaseRequest t b) s = Ok (s', log)) as H'
    by (destruct Hc as [-> | ->]; exact H).
  clear H. call_inv H';
    (eapply T_processPurchaseRequest; [exact Hc|..]; solve_transition;
     try discriminate).
Qed.

Lemma completePurchase_T ctx c t s s' log :
  c = CompletePurchase t ∨ c = BuyProperty t →
  call ctx c s = Ok (s', log) → Transition ctx s s' log c.
Proof.
  intros Hc H.
  assert (call ctx (CompletePurchase t) s = Ok (s', log)) as H'
    by (destruct Hc as [-> | ->]; exact H).
  clear H. call_inv H';
    (eapply T_completePurchase; [exact Hc|..]; unfold removeOwned;
     solve_transition;
     repeat match goal with
            | E : firstIndexFrom _ _ _ _ = _ |- _ => rewrite E
            end; maps; auto).
Qed.

Lemma updatePropertyDocuments_T ctx p h s s' log :
  call ctx (UpdatePropertyDocuments p h) s = Ok (s', log) →
  Transition ctx s s' log (UpdatePropertyDocuments p h).
Proof.
  intros H. call_inv H; eapply T_updatePropertyDocuments; solve_transition.
Qed.

Lemma removeFromSale_T ctx p s s' log :
  call ctx (RemoveFromSale p) s = Ok (s', log) →
  Transition ctx s s' log (RemoveFromSale p).
Proof.
  intros H. call_inv H.
  match goal with
  | Hs : _ ∨ _ |- _ =>
      destruct Hs as [Hs|Hs]; apply bool_decide_eq_true in Hs
  end; eapply T_removeFromSale; solve_transition.
Qed.

(** Every successful call is one of the transitions. *)
Lemma call_Transition ctx c s s' log :
  call ctx c s = Ok (s', log) → Transition ctx s s' log c.
Proof.
  destruct c.
  - apply registerUser_T.
  - apply registerProperty_T.
  - apply approveProperty_T.
  - eapply listPropertyForSale_T; eauto.
  - eapply requestToPurchase_T; eauto.
  - eapply processPurchaseRequest_T; eauto.
  - eapply completePurchase_T; eauto.
  - apply updatePropertyDocuments_T.
  - apply removeFromSale_T.
  - apply addSuperAdmin_T.
  - eapply listPropertyForSale_T; eauto.
  - eapply requestToPurchase_T; eauto.
  - eapply processPurchaseRequest_T; eauto.
  - eapply completePurchase_T; eauto.
  - apply pause_T.
  - apply unpause_T.
  - apply receiveEther_T.
  - apply grantRole_T.
  - apply revokeRole_T.
  - apply renounceRole_T.
Qed.

(** ** Well-formedness is an invariant *)

Lemma propertyAt_Some s i P : properties s !! i = Some P → propertyAt s i = P.
Proof. unfold propertyAt. intros ->. reflexivity. Qed.

Lemma transactionAt_Some s i T : transactions s !! i = Some T → transactionAt s i = T.
Proof. unfold transactionAt. intros ->. reflexivity. Qed.

Lemma propertyAt_exists s i :
  p_id (propertyAt s i) ≠ 0 → properties s !! i = Some (propertyAt s i).
Proof.
  unfold propertyAt. destruct (properties s !! i); cbn; [reflexivity|].
  intros H. contradiction H. reflexivity.
Qed.

Lemma transactionAt_exists s i :
  t_id (transactionAt s i) ≠ 0 → transactions s !! i = Some (transactionAt s i).
Proof.
  unfold transactionAt. destruct (transactions s !! i); cbn; [reflexivity|].
  intros H. contradiction H. reflexivity.
Qed.

Lemma wf_propertyAt s i :
  wellFormed s → is_Some (properties s !! i) →
  properties s !! i = Some (propertyAt s i) ∧ p_id (propertyAt s i) = i ∧ i ≠ 0.
Proof.
  intros Hwf [P HP]. rewrite (propertyAt_Some _ _ _ HP).
  destruct (wf_properties _ Hwf _ _ HP) as (? & ? & ?). auto.
Qed.

Lemma wf_transaction_property s i T :
  wellFormed s → transactions s !! i = Some T →
  properties s !! t_propertyId T = Some (propertyAt s (t_propertyId T)).
Proof.
  intros Hwf HT. destruct (wf_transactions _ Hwf _ _ HT) as (_ & _ & _ & Hp).
  apply (wf_propertyAt _ _ Hwf Hp).
Qed.

(** Replacing an existing property record by one with the same id. *)
Lemma wellFormed_replace s s' pid P' :
  wellFormed s → is_Some (properties s !! pid) → p_id P' = pid →
  properties s' = <[pid := P']> (properties s) →
  propertyIds s' = propertyIds s → entered s' = false →
  (∀ i t, transactions s' !! i = Some t →
          t_id t = i ∧ i ≠ 0 ∧ i <= transactionIds s' ∧
          is_Some (properties s !! t_propertyId t)) →
  wellFormed s'.
Proof.
  intros Hwf Hsome Hid Hp Hn He Ht. split; [exact He| |].
  - intros i p. rewrite Hp, Hn. intros Hl.
    apply lookup_insert_Some in Hl as [[<- <-]|[Hne Hl]].
    + destruct (wf_propertyAt _ _ Hwf Hsome) as (HP & _ & Hnz).
      destruct (wf_properties _ Hwf _ _ HP) as (_ & _ & Hle). auto.
    + apply (wf_properties _ Hwf _ _ Hl).
  - intros i t Hl. destruct (Ht i t Hl) as (? & ? & ? & Hs).
    repeat split; auto. rewrite Hp. apply lookup_insert_is_Some'. auto.
Qed.

Lemma wellFormed_propertyReplaced s s' pid P' :
  wellFormed s → p_id (propertyAt s pid) ≠ 0 → p_id P' = p_id (propertyAt s pid) →
  propertyReplaced pid P' s s' → wellFormed s'.
Proof.
  intros Hwf Hex Hid [Hp Hn Htn Ht Ho Hb He Hpa].
  pose proof (propertyAt_exists _ _ Hex) as HP.
  destruct (wf_properties _ Hwf _ _ HP) as (Hpid & _ & _).
  apply (wellFormed_replace s s' pid P' Hwf);
    [eauto | congruence | exact Hp | exact Hn | | ].
  - rewrite He. apply (wf_entered _ Hwf).
  - rewrite Ht, Htn. apply (wf_transactions _ Hwf).
Qed.

Lemma Transition_wellFormed ctx s s' log c :
  Transition ctx s s' log c → wellFormed s → wellFormed s'.
Proof.
  intros HT Hwf. destruct HT.
  - destruct Hsame as [Hn Htn Hp Ht Ho He]. split.
    + rewrite He. apply (wf_entered _ Hwf).
    + rewrite Hp, Hn. apply (wf_properties _ Hwf).
    + rewrite Hp, Ht, Htn. apply (wf_transactions _ Hwf).
  - split.
    + rewrite Hentered. apply (wf_entered _ Hwf).
    + intros i p. rewrite Hproperties, HpropertyIds. intros Hl.
      apply lookup_insert_Some in Hl as [[<- <-]|[Hne Hl]]; cbn.
      * repeat split; lia.
      * destruct (wf_properties _ Hwf _ _ Hl) as (? & ? & ?).
        repeat split; auto; lia.
    + intros i t. rewrite Htransactions, HtransactionIds, Hproperties. intros Hl.
      destruct (wf_transactions _ Hwf _ _ Hl) as (? & ? & ? & Hs).
      repeat split; auto. apply lookup_insert_is_Some'. auto.
  - eapply wellFormed_propertyReplaced;
      [exact Hwf | exact Hexists | | exact Hreplaced].
    destruct approve; reflexivity.
  - eapply wellFormed_propertyReplaced;
      [exact Hwf | exact Hexists | | exact Hreplaced]; reflexivity.
  - pose proof (propertyAt_exists _ _ Hexists) as HP.
    destruct (wf_properties _ Hwf _ _ HP) as (Hpid & _ & _).
    eapply (wellFormed_replace s s' pid _ Hwf);
      [eauto | | exact Hproperties | exact HpropertyIds | exact Hentered | ].
    + exact Hpid.
    + intros i t. rewrite Htransactions, HtransactionIds. intros Hl.
      apply lookup_insert_Some in Hl as [[<- <-]|[Hne Hl]]; cbn.
      * repeat split; try lia. eauto.
      * destruct (wf_transactions _ Hwf _ _ Hl) as (? & ? & ? & Hs).
        repeat split; auto; lia.
  - pose proof (transactionAt_exists _ _ Hexists) as HT.
    pose proof (wf_transaction_property _ _ _ Hwf HT) as HP.
    destruct (wf_properties _ Hwf _ _ HP) as (Hpid & _ & _).
    destruct (wf_transactions _ Hwf _ _ HT) as (Htid & ? & ? & ?).
    eapply (wellFormed_replace s s' _ _ Hwf);
      [eauto | | exact Hproperties | exact HpropertyIds | exact Hentered | ].
    + destruct approve; exact Hpid.
    + intros i t. rewrite Htransactions, HtransactionIds. intros Hl.
      apply lookup_insert_Some in Hl as [[<- <-]|[Hne Hl]]; cbn.
      * repeat split; auto.
      * apply (wf_transactions _ Hwf _ _ Hl).
  - pose proof (transactionAt_exists _ _ Hexists) as HT.
    pose proof (wf_transaction_property _ _ _ Hwf HT) as HP.
    destruct (wf_properties _ Hwf _ _ HP) as (Hpid & _ & _).
    destruct (wf_transactions _ Hwf _ _ HT) as (Htid & ? & ? & ?).
    eapply (wellFormed_replace s s' _ _ Hwf);
      [eauto | | exact Hproperties | exact HpropertyIds | exact Hentered | ].
    + exact Hpid.
    + intros i t. rewrite Htransactions, HtransactionIds. intros Hl.
      apply lookup_insert_Some in Hl as [[<- <-]|[Hne Hl]]; cbn.
      * repeat split; auto.
      * apply (wf_transactions _ Hwf _ _ Hl).
  - eapply wellFormed_propertyReplaced;
      [exact Hwf | exact Hexists | | exact Hreplaced]; reflexivity.
  - eapply wellFormed_propertyReplaced;
      [exact Hwf | exact Hexists | | exact Hreplaced]; reflexivity.
Qed.

Lemma deployed_eq deployer :
  deployed deployer =
  set_userRole deployer "Superadmin"
    (set_registeredUser deployer true
       (set_role SUPERADMIN_ROLE deployer true
          (set_role DEFAULT_ADMIN_ROLE deployer true emptyState))).
Proof.
  assert (hasRole emptyState DEFAULT_ADMIN_ROLE deployer = false) as H1.
  { unfold hasRole. cbn [roles emptyState]. rewrite lookup_empty. reflexivity. }
  assert (hasRole (set_role DEFAULT_ADMIN_ROLE deployer true emptyState)
            SUPERADMIN_ROLE deployer = false) as H2.
  { unfold hasRole. cbn [roles emptyState set_role].
    rewrite lookup_insert_ne by discriminate. rewrite lookup_empty. reflexivity. }
  unfold deployed, constructor, _grantRole, mbind, M_bind, getState.
  cbn [msg_sender]. rewrite H1. unfold store at 1, emit at 1, mret, M_ret.
  rewrite H2. reflexivity.
Qed.

Lemma deployed_state deployer :
  properties (deployed deployer) = ∅ ∧ transactions (deployed deployer) = ∅ ∧
  ownerProperties (deployed deployer) = ∅ ∧
  propertyIds (deployed deployer) = 0 ∧ transactionIds (deployed deployer) = 0 ∧
  balance (deployed deployer) = 0 ∧ entered (deployed deployer) = false ∧
  paused (deployed deployer) = false ∧
  hasRole (deployed deployer) SUPERADMIN_ROLE deployer = true.
Proof.
  rewrite deployed_eq. repeat split.
  unfold hasRole. cbn [roles set_userRole set_registeredUser set_role].
  rewrite lookup_insert_eq. reflexivity.
Qed.

Lemma deployed_wellFormed deployer : wellFormed (deployed deployer).
Proof.
  destruct (deployed_state deployer) as (Hp & Ht & _ & _ & _ & _ & He & _).
  split; [exact He| |].
  - intros i p. rewrite Hp, lookup_empty. discriminate.
  - intros i t. rewrite Ht, lookup_empty. discriminate.
Qed.

(** A step is either a successful call or leaves the state alone. *)
Lemma step_cases ctx c s :
  (∃ s' log, call ctx c s = Ok (s', log) ∧ step ctx c s = (s', log)) ∨
  (∃ e, call ctx c s = Err e ∧ step ctx c s = (s, [])).
Proof.
  unfold step. destruct (call ctx c s) as [[s' log]|e]; eauto.
Qed.

Lemma run_cons ctx c rest s :
  run ((ctx, c) :: rest) s =
  ((run rest (step ctx c s).1).1, ((step ctx c s).2 ++ (run rest (step ctx c s).1).2)%list).
Proof.
  cbn [run]. destruct (step ctx c s) as [s1 l1]. cbn [fst snd].
  destruct (run rest s1) as [s2 l2]. reflexivity.
Qed.

Lemma step_wellFormed ctx c s : wellFormed s → wellFormed (step ctx c s).1.
Proof.
  intros Hwf. destruct (step_cases ctx c s) as [(s' & log & Hc & ->)|(e & _ & ->)];
    cbn [fst]; [|exact Hwf].
  eapply Transition_wellFormed; eauto using call_Transition.
Qed.

Lemma run_wellFormed cs s : wellFormed s → wellFormed (run cs s).1.
Proof.
  revert s. induction cs as [|[ctx c] cs IH]; intros s Hwf; [exact Hwf|].
  rewrite run_cons. cbn [fst]. apply IH, step_wellFormed, Hwf.
Qed.

(** ** One open sale per property, while [removeFromSale] keeps to listed
       properties *)

Lemma propertyAt_insert_eq s s' pid P' :
  properties s' = <[pid := P']> (properties s) → propertyAt s' pid = P'.
Proof. unfold propertyAt. intros ->. rewrite lookup_insert_eq. reflexivity. Qed.

Lemma propertyAt_insert_ne s s' pid P' i :
  properties s' = <[pid := P']> (properties s) → i ≠ pid →
  propertyAt s' i = propertyAt s i.
Proof.
  unfold propertyAt. intros -> Hne. rewrite lookup_insert_ne by auto. reflexivity.
Qed.

Lemma transactionAt_insert_eq s s' tid T' :
  transactions s' = <[tid := T']> (transactions s) → transactionAt s' tid = T'.
Proof. unfold transactionAt. intros ->. rewrite lookup_insert_eq. reflexivity. Qed.

Lemma propertyAt_same s s' i :
  properties s' = properties s → propertyAt s' i = propertyAt s i.
Proof. unfold propertyAt. intros ->. reflexivity. Qed.

Lemma atMostOneOpen_update s s' tid T T' :
  transactions s' = <[tid := T']> (transactions s) →
  transactions s !! tid = Some T →
  t_propertyId T' = t_propertyId T →
  (isOpen T' = true → isOpen T = true) →
  atMostOneOpen s → atMostOneOpen s'.
Proof.
  intros Ht HT Hpid Hopen Hone i j ti tj Hi Hj Hoi Hoj Hsame.
  rewrite Ht in Hi, Hj.
  apply lookup_insert_Some in Hi as [[<- <-]|[Hnei Hi]];
    apply lookup_insert_Some in Hj as [[<- <-]|[Hnej Hj]].
  - reflexivity.
  - apply (Hone tid j T tj); auto. congruence.
  - apply (Hone i tid ti T); auto. congruence.
  - apply (Hone i j ti tj); auto.
Qed.

(** A property whose record is replaced keeps its open transactions in
    progress when the replacement does not leave [SaleInProgress]. *)
Lemma openImpliesInProgress_replace s s' pid P' :
  properties s' = <[pid := P']> (properties s) →
  transactions s' = transactions s →
  (p_status (propertyAt s pid) = PS_SaleInProgress →
   p_status P' = PS_SaleInProgress) →
  openImpliesInProgress s → openImpliesInProgress s'.
Proof.
  intros Hp Ht Hkeep Hinv i t Hi Ho. rewrite Ht in Hi.
  specialize (Hinv i t Hi Ho).
  destruct (decide (t_propertyId t = pid)) as [E|Hne].
  - rewrite E in *. rewrite (propertyAt_insert_eq _ _ _ _ Hp). auto.
  - rewrite (propertyAt_insert_ne _ _ _ _ _ Hp Hne). exact Hinv.
Qed.

Lemma atMostOneOpen_same s s' :
  transactions s' = transactions s → atMostOneOpen s → atMostOneOpen s'.
Proof. unfold atMostOneOpen. intros ->. auto. Qed.

Lemma singleSale_propertyReplaced s s' pid P' :
  propertyReplaced pid P' s s' →
  (p_status (propertyAt s pid) = PS_SaleInProgress →
   p_status P' = PS_SaleInProgress) →
  atMostOneOpen s ∧ openImpliesInProgress s →
  atMostOneOpen s' ∧ openImpliesInProgress s'.
Proof.
  intros [Hp Hn Htn Ht Ho Hb He Hpa] Hkeep [Hone Hopen]. split.
  - eapply atMostOneOpen_same; eauto.
  - eapply openImpliesInProgress_replace; eauto.
Qed.

Lemma Transition_singleSale ctx s s' log c :
  Transition ctx s s' log c → gateOk s c = true → wellFormed s →
  atMostOneOpen s ∧ openImpliesInProgress s →
  atMostOneOpen s' ∧ openImpliesInProgress s'.
Proof.
  intros HT Hgate Hwf [Hone Hopen]. destruct HT.
  - destruct Hsame as [Hn Htn Hp Ht Ho He]. split.
    + eapply atMostOneOpen_same; eauto.
    + intros i t Hi Hoi. rewrite Ht in Hi.
      rewrite (propertyAt_same _ _ _ Hp). eauto.
  - split; [eapply atMostOneOpen_same; eauto|].
    intros i t Hi Hoi. rewrite Htransactions in Hi.
    pose proof (wf_transaction_property _ _ _ Hwf Hi) as HP.
    destruct (wf_properties _ Hwf _ _ HP) as (_ & _ & Hle).
    rewrite (propertyAt_insert_ne _ _ _ _ _ Hproperties) by lia. eauto.
  - eapply singleSale_propertyReplaced; eauto. congruence.
  - eapply singleSale_propertyReplaced; eauto. congruence.
  - (* requestToPurchase: the property was listed, so no open transaction
       refers to it yet *)
    assert (Hnone : ∀ j tj, transactions s !! j = Some tj → isOpen tj = true →
                            t_propertyId tj ≠ pid).
    { intros j tj Hj Hoj E. specialize (Hopen j tj Hj Hoj).
      rewrite E in Hopen. congruence. }
    split.
    + intros i j ti tj Hi Hj Hoi Hoj Hsame.
      rewrite Htransactions in Hi, Hj.
      apply lookup_insert_Some in Hi as [[<- <-]|[Hnei Hi]];
        apply lookup_insert_Some in Hj as [[<- <-]|[Hnej Hj]].
      * reflexivity.
      * cbn in Hsame. exfalso. eapply Hnone; eauto.
      * cbn in Hsame. exfalso. eapply Hnone; eauto.
      * eapply Hone; eauto.
    + intros i t Hi Hoi. rewrite Htransactions in Hi.
      apply lookup_insert_Some in Hi as [[<- <-]|[Hnei Hi]].
      * cbn [t_propertyId]. rewrite (propertyAt_insert_eq _ _ _ _ Hproperties).
        reflexivity.
      * rewrite (propertyAt_insert_ne _ _ _ _ _ Hproperties) by eauto. eauto.
  - (* processPurchaseRequest *)
    pose proof (transactionAt_exists _ _ Hexists) as HT.
    assert (HoT : isOpen (transactionAt s tid) = true).
    { unfold isOpen. rewrite Hstatus. reflexivity. }
    split.
    + eapply atMostOneOpen_update; eauto.
    + intros i t Hi Hoi. rewrite Htransactions in Hi.
      apply lookup_insert_Some in Hi as [[<- <-]|[Hnei Hi]].
      * cbn [t_propertyId with_t_completedAt with_t_status].
        rewrite (propertyAt_insert_eq _ _ _ _ Hproperties).
        destruct approve; [|discriminate Hoi].
        cbn. eapply Hopen; eauto.
      * assert (t_propertyId t ≠ t_propertyId (transactionAt s tid)) as Hne.
        { intros E. apply Hnei. symmetry. eapply Hone; eauto. }
        rewrite (propertyAt_insert_ne _ _ _ _ _ Hproperties) by auto. eauto.
  - (* completePurchase *)
    pose proof (transactionAt_exists _ _ Hexists) as HT.
    assert (HoT : isOpen (transactionAt s tid) = true).
    { unfold isOpen. rewrite Hstatus. reflexivity. }
    split.
    + eapply atMostOneOpen_update; eauto.
    + intros i t Hi Hoi. rewrite Htransactions in Hi.
      apply lookup_insert_Some in Hi as [[<- <-]|[Hnei Hi]]; [discriminate Hoi|].
      assert (t_propertyId t ≠ t_propertyId (transactionAt s tid)) as Hne.
      { intros E. apply Hnei. symmetry. eapply Hone; eauto. }
      rewrite (propertyAt_insert_ne _ _ _ _ _ Hproperties) by auto. eauto.
  - eapply singleSale_propertyReplaced; eauto.
  - eapply singleSale_propertyReplaced; eauto.
    cbn [gateOk] in Hgate. apply negb_true_iff, bool_decide_eq_false in Hgate.
    contradiction.
Qed.

Lemma step_singleSale ctx c s :
  gateOk s c = true → wellFormed s →
  atMostOneOpen s ∧ openImpliesInProgress s →
  atMostOneOpen (step ctx c s).1 ∧ openImpliesInProgress (step ctx c s).1.
Proof.
  intros Hg Hwf Hinv.
  destruct (step_cases ctx c s) as [(s' & log & Hc & ->)|(e & _ & ->)];
    cbn [fst]; [|exact Hinv].
  eapply Transition_singleSale; eauto using call_Transition.
Qed.

Lemma run_singleSale cs s :
  gated cs s = true → wellFormed s →
  atMostOneOpen s ∧ openImpliesInProgress s →
  atMostOneOpen (run cs s).1 ∧ openImpliesInProgress (run cs s).1.
Proof.
  revert s. induction cs as [|[ctx c] cs IH]; intros s Hg Hwf Hinv; [exact Hinv|].
  cbn [gated] in Hg. apply andb_true_iff in Hg as [Hg1 Hg2].
  rewrite run_cons. cbn [fst].
  apply IH; auto using step_wellFormed, step_singleSale.
Qed.

Lemma deployed_singleSale deployer :
  atMostOneOpen (deployed deployer) ∧ openImpliesInProgress (deployed deployer).
Proof.
  destruct (deployed_state deployer) as (_ & Ht & _).
  split.
  - intros i j ti tj Hi. rewrite Ht, lookup_empty in Hi. discriminate.
  - intros i t Hi. rewrite Ht, lookup_empty in Hi. discriminate.
Qed.

(** ** The completion timestamp *)

Lemma stamped_same s s' :
  transactions s' = transactions s →
  stampedWhenProcessed s → stampedWhenProcessed s'.
Proof. unfold stampedWhenProcessed. intros ->. auto. Qed.

Lemma Transition_stamped ctx s s' log c :
  Transition ctx s s' log c → 0 < block_timestamp ctx →
  stampedWhenProcessed s → stampedWhenProcessed s'.
Proof.
  intros HT Hts Hinv. destruct HT;
    try (apply (stamped_same s s'); [|exact Hinv];
         first [apply Hsame | apply Hreplaced | exact Htransactions]; fail).
  - intros i t. rewrite Htransactions. intros Hi.
    apply lookup_insert_Some in Hi as [[<- <-]|[Hne Hi]]; [|eauto].
    cbn. split; reflexivity.
  - intros i t. rewrite Htransactions. intros Hi.
    apply lookup_insert_Some in Hi as [[<- <-]|[Hne Hi]]; [|eauto].
    cbn. split; [destruct approve; discriminate | lia].
  - intros i t. rewrite Htransactions. intros Hi.
    apply lookup_insert_Some in Hi as [[<- <-]|[Hne Hi]]; [|eauto].
    cbn. split; [discriminate | lia].
Qed.

Lemma run_stamped cs s :
  positiveTimestamps cs = true →
  stampedWhenProcessed s → stampedWhenProcessed (run cs s).1.
Proof.
  revert s. induction cs as [|[ctx c] cs IH]; intros s Hts Hinv; [exact Hinv|].
  cbn [positiveTimestamps forallb fst] in Hts.
  apply andb_true_iff in Hts as [Hts1 Hts2]. apply N.ltb_lt in Hts1.
  rewrite run_cons. cbn [fst]. apply IH; [exact Hts2|].
  destruct (step_cases ctx c s) as [(s' & log & Hc & ->)|(e & _ & ->)];
    cbn [fst]; [|exact Hinv].
  eapply Transition_stamped; eauto using call_Transition.
Qed.

(** ** Escrow accounting *)

Lemma escrow_fold_comm (j1 j2 : N) (z1 z2 : Transaction) (y : N) :
  escrowOf z1 + (escrowOf z2 + y) = escrowOf z2 + (escrowOf z1 + y).
Proof. lia. Qed.

Lemma openEscrow_insert_fresh (m : gmap N Transaction) i t :
  m !! i = None →
  map_fold (λ _ t acc, escrowOf t + acc) 0 (<[i := t]> m) =
  escrowOf t + map_fold (λ _ t acc, escrowOf t + acc) 0 m.
Proof.
  intros Hnone.
  apply (map_fold_insert_L (λ (_ : N) t acc, escrowOf t + acc)); [|exact Hnone].
  intros. apply escrow_fold_comm; assumption.
Qed.

Lemma openEscrow_delete (m : gmap N Transaction) i t :
  m !! i = Some t →
  map_fold (λ _ t acc, escrowOf t + acc) 0 m =
  escrowOf t + map_fold (λ _ t acc, escrowOf t + acc) 0 (delete i m).
Proof.
  intros Hsome.
  rewrite <- (insert_delete_id m i t Hsome) at 1.
  apply openEscrow_insert_fresh. apply lookup_delete_eq.
Qed.

Lemma openEscrow_update s s' i t t' :
  transactions s' = <[i := t']> (transactions s) →
  transactions s !! i = Some t →
  openEscrow s' + escrowOf t = openEscrow s + escrowOf t'.
Proof.
  intros Ht Hsome. unfold openEscrow. rewrite Ht.
  rewrite <- insert_delete_eq.
  rewrite openEscrow_insert_fresh by apply lookup_delete_eq.
  rewrite (openEscrow_delete _ _ _ Hsome). lia.
Qed.

Lemma escrowOf_status t :
  t_status t = TS_Pending ∨ t_status t = TS_Approved → escrowOf t = t_price t.
Proof. unfold escrowOf, isOpen. intros [-> | ->]; reflexivity. Qed.

Lemma escrowOf_closed t :
  t_status t ≠ TS_Pending ∧ t_status t ≠ TS_Approved → escrowOf t = 0.
Proof.
  unfold escrowOf, isOpen. intros [H1 H2].
  rewrite !bool_decide_eq_false_2 by assumption. reflexivity.
Qed.

Lemma openEscrow_same s s' :
  transactions s' = transactions s → openEscrow s' = openEscrow s.
Proof. unfold openEscrow. intros ->. reflexivity. Qed.

Lemma released_of_transfers log l :
  transfersOf log = l → released log = foldr (λ x acc, x.2 + acc) 0 l.
Proof. intros <-. apply released_transfersOf. Qed.

(** Every successful call keeps the books: what came in is either still
    in the balance or went out, and the balance covers the open escrow. *)
Lemma Transition_accounting ctx s s' log c :
  Transition ctx s s' log c → wellFormed s → openEscrow s <= balance s →
  balance s' + released log = balance s + received log ∧
  openEscrow s' <= balance s'.
Proof.
  intros HT Hwf Hsolv. destruct HT.
  - rewrite (openEscrow_same s s') by apply Hsame. lia.
  - rewrite (openEscrow_same s s') by assumption. lia.
  - destruct Hreplaced. rewrite (openEscrow_same s s') by assumption. lia.
  - destruct Hreplaced. rewrite (openEscrow_same s s') by assumption. lia.
  - assert (transactions s !! (transactionIds s + 1) = None) as Hfresh.
    { destruct (transactions s !! (transactionIds s + 1)) as [t|] eqn:E; [|reflexivity].
      destruct (wf_transactions _ Hwf _ _ E) as (_ & _ & Hle & _). lia. }
    unfold openEscrow in *. rewrite Htransactions.
    rewrite openEscrow_insert_fresh by exact Hfresh.
    rewrite escrowOf_status by (left; reflexivity). cbn [t_price]. lia.
  - pose proof (transactionAt_exists _ _ Hexists) as HT.
    pose proof (openEscrow_update _ _ _ _ _ Htransactions HT) as Hupd.
    pose proof (released_of_transfers _ _ Htransfers) as Hrel.
    rewrite (escrowOf_status (transactionAt s tid)) in Hupd by (left; exact Hstatus).
    destruct approve.
    + rewrite escrowOf_status in Hupd by (right; reflexivity).
      cbn [t_price with_t_completedAt with_t_status foldr] in Hupd, Hrel. lia.
    + rewrite escrowOf_closed in Hupd by (split; discriminate).
      cbn [foldr snd] in Hrel. specialize (Hfunds eq_refl). lia.
  - pose proof (transactionAt_exists _ _ Hexists) as HT.
    pose proof (openEscrow_update _ _ _ _ _ Htransactions HT) as Hupd.
    pose proof (released_of_transfers _ _ Htransfers) as Hrel.
    rewrite (escrowOf_status (transactionAt s tid)) in Hupd by (right; exact Hstatus).
    rewrite escrowOf_closed in Hupd by (split; discriminate).
    cbn [foldr snd] in Hrel. lia.
  - destruct Hreplaced. rewrite (openEscrow_same s s') by assumption. lia.
  - destruct Hreplaced. rewrite (openEscrow_same s s') by assumption. lia.
Qed.

Lemma run_accounting cs s :
  wellFormed s → openEscrow s <= balance s →
  balance (run cs s).1 + released (run cs s).2 = balance s + received (run cs s).2 ∧
  openEscrow (run cs s).1 <= balance (run cs s).1.
Proof.
  revert s. induction cs as [|[ctx c] cs IH]; intros s Hwf Hsolv.
  - cbn. split; [lia | exact Hsolv].
  - rewrite run_cons. cbn [fst snd]. rewrite released_app, received_app.
    assert (balance (step ctx c s).1 + released (step ctx c s).2 =
            balance s + received (step ctx c s).2 ∧
            openEscrow (step ctx c s).1 <= balance (step ctx c s).1) as [Hb Hs].
    { destruct (step_cases ctx c s) as [(s' & log & Hc & ->)|(e & _ & ->)]; cbn [fst snd].
      - eapply Transition_accounting; eauto using call_Transition.
      - cbn. split; [lia | exact Hsolv]. }
    destruct (IH (step ctx c s).1) as [Hb' Hs']; auto using step_wellFormed.
    split; [lia | exact Hs'].
Qed.

Lemma deployed_accounting deployer :
  openEscrow (deployed deployer) <= balance (deployed deployer).
Proof.
  destruct (deployed_state deployer) as (_ & Ht & _ & _ & _ & Hb & _).
  unfold openEscrow. rewrite Ht, Hb. rewrite map_fold_empty. lia.
Qed.

(** ** The owner index *)

Lemma ownerPropertiesOf_same s s' a :
  ownerProperties s' = ownerProperties s →
  ownerPropertiesOf s' a = ownerPropertiesOf s a.
Proof. unfold ownerPropertiesOf. intros ->. reflexivity. Qed.

Lemma removeOwned_lookup_ne s old pid a :
  a ≠ old → default [] (removeOwned s old pid !! a) = ownerPropertiesOf s a.
Proof.
  intros Hne. unfold removeOwned.
  destruct (firstIndexFrom _ 0 _ pid); [|reflexivity].
  rewrite lookup_insert_ne by auto. reflexivity.
Qed.

Lemma removeOwned_lookup_eq s old pid :
  NoDup (ownerPropertiesOf s old) →
  NoDup (default [] (removeOwned s old pid !! old)) ∧
  (pid ∉ default [] (removeOwned s old pid !! old)) ∧
  ∀ x, x ∈ default [] (removeOwned s old pid !! old) →
       x ∈ ownerPropertiesOf s old.
Proof.
  intros Hnd. unfold removeOwned.
  destruct (firstIndexFrom _ 0 _ pid) as [j|] eqn:E.
  - rewrite lookup_insert_eq. cbn [default from_option id].
    apply firstIndexFrom_Some in E.
    pose proof (swapPop_Permutation _ _ _ E) as Hperm.
    destruct (list_elem_of_split_length _ _ _ E) as (l1 & l2 & Hl & Hlen).
    rewrite Hl in Hperm, Hnd. subst j. rewrite delete_middle in Hperm.
    rewrite Hl.
    apply NoDup_app in Hnd as (Hnd1 & Hdisj & Hnd2).
    apply NoDup_cons in Hnd2 as (Hnot2 & Hnd2).
    assert (NoDup (l1 ++ l2)) as Hnd'.
    { apply NoDup_app. repeat split; auto.
      intros x Hx1 Hx2. apply (Hdisj x Hx1). right. exact Hx2. }
    assert (pid ∉ (l1 ++ l2)%list) as Hnot.
    { intros Hin. apply elem_of_app in Hin as [Hin|Hin]; [|contradiction].
      apply (Hdisj pid Hin). left. }
    repeat split.
    + rewrite Hperm. exact Hnd'.
    + rewrite Hperm. exact Hnot.
    + intros x. rewrite Hperm. rewrite !elem_of_app, elem_of_cons. tauto.
  - fold (ownerPropertiesOf s old). repeat split; auto.
    apply firstIndexFrom_not_elem. exact E.
Qed.

Lemma indexOk_replace s s' pid P' :
  properties s' = <[pid := P']> (properties s) →
  ownerProperties s' = ownerProperties s →
  p_owner P' = p_owner (propertyAt s pid) →
  indexOk s → indexOk s'.
Proof.
  intros Hp Ho Hown Hinv a. destruct (Hinv a) as [Hnd Hel].
  rewrite (ownerPropertiesOf_same _ _ _ Ho). split; [exact Hnd|].
  intros p Hin. destruct (Hel p Hin) as (P & HP & HPa).
  rewrite Hp. destruct (decide (p = pid)) as [->|Hne].
  - exists P'. rewrite lookup_insert_eq. split; [reflexivity|].
    rewrite Hown, (propertyAt_Some _ _ _ HP). exact HPa.
  - exists P. rewrite lookup_insert_ne by auto. auto.
Qed.

Lemma Transition_indexOk ctx s s' log c :
  Transition ctx s s' log c → wellFormed s → indexOk s → indexOk s'.
Proof.
  intros HT Hwf Hinv. destruct HT.
  - destruct Hsame as [Hn Htn Hp Ht Ho He]. intros a.
    rewrite (ownerPropertiesOf_same _ _ _ Ho), Hp. apply Hinv.
  - (* registerProperty: the new id is in no list yet *)
    assert (Hfresh : ∀ a, propertyIds s + 1 ∉ ownerPropertiesOf s a).
    { intros a Hin. destruct (Hinv a) as [_ Hel].
      destruct (Hel _ Hin) as (P & HP & _).
      destruct (wf_properties _ Hwf _ _ HP) as (_ & _ & Hle). lia. }
    intros a. destruct (Hinv a) as [Hnd Hel].
    unfold ownerPropertiesOf at 1 2. rewrite HownerProperties, Hproperties.
    destruct (decide (a = o)) as [->|Hne].
    + rewrite lookup_insert_eq. cbn [default from_option id]. split.
      * apply NoDup_app. repeat split; [exact Hnd| |apply NoDup_singleton].
        intros x Hx Hx'. apply list_elem_of_singleton in Hx'. subst x.
        apply (Hfresh o Hx).
      * intros p Hin. apply elem_of_app in Hin as [Hin|Hin].
        -- destruct (Hel p Hin) as (P & HP & HPa). exists P.
           rewrite lookup_insert_ne; [auto|].
           intros <-. apply (Hfresh o Hin).
        -- apply list_elem_of_singleton in Hin. subst p.
           rewrite lookup_insert_eq. eexists. split; reflexivity.
    + rewrite lookup_insert_ne by auto. fold (ownerPropertiesOf s a).
      split; [exact Hnd|].
      intros p Hin. destruct (Hel p Hin) as (P & HP & HPa). exists P.
      rewrite lookup_insert_ne; [auto|]. intros <-. apply (Hfresh a Hin).
  - destruct Hreplaced. eapply (indexOk_replace s s'); eauto.
    destruct approve; reflexivity.
  - destruct Hreplaced. eapply (indexOk_replace s s'); eauto.
  - eapply (indexOk_replace s s'); eauto.
  - eapply (indexOk_replace s s'); eauto. destruct approve; reflexivity.
  - (* completePurchase *)
    cbn zeta in HownerProperties.
    pose proof (transactionAt_exists _ _ Hexists) as HT.
    pose proof (wf_transaction_property _ _ _ Hwf HT) as HP.
    set (T := transactionAt s tid) in *.
    set (pid := t_propertyId T) in *.
    set (old := p_owner (propertyAt s pid)) in *.
    set (buyer := t_buyer T) in *.
    assert (Honly : ∀ a, pid ∈ ownerPropertiesOf s a → a = old).
    { intros a Hin. destruct (Hinv a) as [_ Hel].
      destruct (Hel _ Hin) as (P & HP' & HPa).
      rewrite HP in HP'. injection HP' as <-. symmetry. exact HPa. }
    destruct (removeOwned_lookup_eq s old pid (proj1 (Hinv old)))
      as (Hnd_old & Hnot_old & Hsub_old).
    (* the list of [a] after the removal loop *)
    assert (Hmid : ∀ a,
      NoDup (default [] (removeOwned s old pid !! a)) ∧
      (pid ∉ default [] (removeOwned s old pid !! a)) ∧
      ∀ x, x ∈ default [] (removeOwned s old pid !! a) →
           x ∈ ownerPropertiesOf s a).
    { intros a. destruct (decide (a = old)) as [->|Hne].
      - auto.
      - rewrite (removeOwned_lookup_ne _ _ _ _ Hne).
        repeat split; [apply Hinv| |auto].
        intros Hin. apply Hne. apply Honly. exact Hin. }
    intros a. destruct (Hmid a) as (Hnd_a & Hnot_a & Hsub_a).
    unfold ownerPropertiesOf at 1 2. rewrite HownerProperties, Hproperties.
    assert (Hkeep : ∀ x, x ∈ default [] (removeOwned s old pid !! a) →
              ∃ P, <[pid := with_p_lastUpdated (block_timestamp ctx)
                       (with_p_status PS_Approved
                          (with_p_marketValue (t_price T)
                             (with_p_owner buyer (propertyAt s pid))))]>
                     (properties s) !! x = Some P ∧ p_owner P = a).
    { intros x Hx. destruct (Hinv a) as [_ Hel].
      destruct (Hel x (Hsub_a x Hx)) as (P & HP' & HPa). exists P.
      rewrite lookup_insert_ne; [auto|]. intros <-. contradiction. }
    destruct (decide (a = buyer)) as [->|Hne].
    + rewrite lookup_insert_eq. cbn [default from_option id]. split.
      * apply NoDup_app. repeat split; [exact Hnd_a| |apply NoDup_singleton].
        intros x Hx Hx'. apply list_elem_of_singleton in Hx'. subst x.
        contradiction.
      * intros p Hin. apply elem_of_app in Hin as [Hin|Hin]; [auto|].
        apply list_elem_of_singleton in Hin. subst p.
        rewrite lookup_insert_eq. eexists. split; reflexivity.
    + rewrite lookup_insert_ne by auto. split; [exact Hnd_a|]. exact Hkeep.
  - destruct Hreplaced. eapply (indexOk_replace s s'); eauto.
  - destruct Hreplaced. eapply (indexOk_replace s s'); eauto.
Qed.

Lemma deployed_indexOk deployer : indexOk (deployed deployer).
Proof.
  destruct (deployed_state deployer) as (_ & _ & Ho & _).
  intros a. unfold ownerPropertiesOf. rewrite Ho, lookup_empty.
  cbn [default from_option id]. split; [apply NoDup_nil_2|].
  intros p Hin. apply elem_of_nil in Hin. contradiction.
Qed.

Lemma run_indexOk cs s :
  wellFormed s → indexOk s → indexOk (run cs s).1.
Proof.
  revert s. induction cs as [|[ctx c] cs IH]; intros s Hwf Hinv; [exact Hinv|].
  rewrite run_cons. cbn [fst]. apply IH; [apply step_wellFormed, Hwf|].
  destruct (step_cases ctx c s) as [(s' & log & Hc & ->)|(e & _ & ->)];
    cbn [fst]; [|exact Hinv].
  eapply Transition_indexOk; eauto using call_Transition.
Qed.

(** ** Running a call forwards *)

Lemma bind_eval {A B : Type} (m : M A) (f : A → M B) s l a s1 l1 :
  m s l = Ok (a, s1, l1) → (m ≫= f) s l = f a s1 l1.
Proof. unfold mbind, M_bind. intros ->. reflexivity. Qed.

Lemma bind_assoc {A B C : Type} (m : M A) (f : A → M B) (g : B → M C) s l :
  ((m ≫= f) ≫= g) s l = (m ≫= λ a, f a ≫= g) s l.
Proof.
  unfold mbind, M_bind. destruct (m s l) as [[[a s1] l1]|e]; reflexivity.
Qed.

Lemma bind_check {B : Type} b e (f : unit → M B) s l :
  b = true → (check b e ≫= f) s l = f tt s l.
Proof. intros ->. reflexivity. Qed.

Lemma bind_require {B : Type} b reason (f : unit → M B) s l :
  b = true → (require b reason ≫= f) s l = f tt s l.
Proof. intros ->. reflexivity. Qed.

Lemma bind_check_false {B : Type} b e (f : unit → M B) s l :
  b = false → (check b e ≫= f) s l = Err e.
Proof. intros ->. reflexivity. Qed.

Lemma bind_require_false {B : Type} b reason (f : unit → M B) s l :
  b = false → (require b reason ≫= f) s l = Err (Revert reason).
Proof. intros ->. reflexivity. Qed.

Lemma bind_payableCall {B : Type} ctx to amount (f : bool → M B) s l :
  amount <= balance s → accepts ctx to = true →
  (payableCall ctx to amount ≫= f) s l =
  f true (set_balance (balance s - amount) s) (l ++ [Transfer to amount])%list.
Proof.
  intros Hle Hacc. unfold mbind, M_bind, payableCall.
  rewrite (proj2 (N.leb_le _ _) Hle), Hacc. reflexivity.
Qed.

Ltac solve_cond :=
  sunfold;
  repeat match goal with
  | |- negb _ = true => apply negb_true_iff
  | |- negb _ = false => apply negb_false_iff
  | |- N.eqb _ _ = true => apply N.eqb_eq
  | |- N.eqb _ _ = false => apply N.eqb_neq
  | |- N.leb _ _ = true => apply N.leb_le
  | |- N.ltb _ _ = true => apply N.ltb_lt
  | |- bool_decide _ = true => apply bool_decide_eq_true_2
  | |- bool_decide _ = false => apply bool_decide_eq_false_2
  end; auto; try congruence; try lia.

(** Evaluate the leading steps of monadic code whose checks hold. *)
Ltac meval :=
  repeat first
    [ rewrite bind_assoc
    | rewrite (bind_eval getState _ _ _ _ _ _ eq_refl)
    | rewrite (bind_eval (store _ _) _ _ _ _ _ _ eq_refl)
    | rewrite (bind_eval (emit _) _ _ _ _ _ _ eq_refl)
    | rewrite (bind_eval (mret _) _ _ _ _ _ _ eq_refl)
    | rewrite (bind_eval (receiveValue _ _) _ _ _ _ _ _ eq_refl)
    | rewrite bind_check by solve_cond
    | rewrite bind_require by solve_cond
    | rewrite bind_payableCall by solve_cond
    | rewrite removeFromOwnerList_eq ].

Ltac start_call :=
  unfold call; cbn [dispatch];
  unfold makeAvailable, requestToLandOwner, processRequest, buyProperty;
  unfold registerUser, registerProperty, approveProperty, listPropertyForSale,
    requestToPurchase, processPurchaseRequest, completePurchase,
    updatePropertyDocuments, removeFromSale, addSuperAdmin, pause, unpause,
    receiveEther, grantRole, revokeRole, renounceRole;
  unfold whenNotPaused, whenPaused, nonReentrant, onlyRole, onlyPropertyOwner,
    validProperty, validTransaction.

Lemma removeFromSale_succeeds ctx pid s :
  p_owner (propertyAt s pid) = msg_sender ctx →
  p_id (propertyAt s pid) ≠ 0 →
  p_isActive (propertyAt s pid) = true →
  p_status (propertyAt s pid) = PS_ListedForSale
  ∨ p_status (propertyAt s pid) = PS_SaleInProgress →
  ∃ s' log, call ctx (RemoveFromSale pid) s = Ok (s', log).
Proof.
  intros Ho Hid Ha Hs. start_call. meval.
  rewrite bind_require.
  2:{ destruct Hs as [-> | ->]; reflexivity. }
  meval. unfold emit. do 2 eexists. reflexivity.
Qed.

Lemma removeFromSale_wrong_status ctx pid s :
  p_owner (propertyAt s pid) = msg_sender ctx →
  p_id (propertyAt s pid) ≠ 0 →
  p_isActive (propertyAt s pid) = true →
  p_status (propertyAt s pid) ≠ PS_ListedForSale →
  p_status (propertyAt s pid) ≠ PS_SaleInProgress →
  call ctx (RemoveFromSale pid) s = Err (Revert "Property is not for sale").
Proof.
  intros Ho Hid Ha Hs1 Hs2. start_call. meval.
  rewrite bind_require_false; [reflexivity|].
  rewrite !bool_decide_eq_false_2 by assumption. reflexivity.
Qed.

Lemma grantRole_total ctx r a s l :
  ∃ b s' l', _grantRole ctx r a s l = Ok (b, s', l') ∧ balance s' = balance s.
Proof.
  unfold _grantRole. meval.
  destruct (hasRole s r a); [unfold mret, M_ret; eauto|].
  meval. unfold mret, M_ret. eauto.
Qed.

Lemma registerAsPropertyOwner_total ctx a s l :
  ∃ s' l', registerAsPropertyOwner ctx a s l = Ok (tt, s', l') ∧
           balance s' = balance s.
Proof.
  unfold registerAsPropertyOwner. meval.
  destruct (negb (isRegistered s a)); [|unfold mret, M_ret; eauto].
  meval.
  destruct (grantRole_total ctx PROPERTY_OWNER_ROLE a
              (set_userRole a "Property Owner" (set_registeredUser a true s))
              ((l ++ [SStore (S_registeredUsers a)]) ++ [SStore (S_userRoles a)])%list)
    as (b & s' & l' & E & Hb).
  rewrite (bind_eval _ _ _ _ _ _ _ E). unfold emit. eauto.
Qed.

Lemma registerProperty_succeeds ctx st d v sn o mv h s :
  paused s = false →
  nonEmpty st = true → nonEmpty d = true → nonEmpty v = true →
  nonEmpty sn = true → o ≠ 0 → 0 < mv → propertyIds s < MAX_UINT256 →
  ∃ s' log, call ctx (RegisterProperty st d v sn o mv h) s = Ok (s', log).
Proof.
  intros Hp H1 H2 H3 H4 Ho Hmv Hn. start_call. meval.
  match goal with
  | |- context [(registerAsPropertyOwner ctx o ≫= ?f) ?s1 ?l1] =>
      destruct (registerAsPropertyOwner_total ctx o s1 l1) as (s' & l' & E & _);
      rewrite (bind_eval _ f _ _ _ _ _ E)
  end.
  meval. unfold mret, M_ret. cbn. eauto.
Qed.

Lemma approveProperty_succeeds ctx pid approve s :
  hasRole s SUPERADMIN_ROLE (msg_sender ctx) = true →
  p_id (propertyAt s pid) ≠ 0 →
  p_isActive (propertyAt s pid) = true →
  p_status (propertyAt s pid) = PS_Pending →
  ∃ s' log, call ctx (ApproveProperty pid approve) s = Ok (s', log).
Proof.
  intros Hr Hid Ha Hs. start_call. meval. destruct approve; meval;
    unfold emit; eauto.
Qed.

Lemma listPropertyForSale_succeeds ctx pid price s :
  paused s = false → entered s = false →
  p_owner (propertyAt s pid) = msg_sender ctx →
  p_id (propertyAt s pid) ≠ 0 →
  p_isActive (propertyAt s pid) = true →
  p_status (propertyAt s pid) = PS_Approved →
  0 < price →
  ∃ s' log, call ctx (ListPropertyForSale pid price) s = Ok (s', log).
Proof.
  intros Hp He Ho Hid Ha Hs Hpr. start_call. meval.
  unfold mret, M_ret. eauto.
Qed.

Lemma requestToPurchase_succeeds ctx pid price h value s :
  paused s = false → entered s = false →
  p_id (propertyAt s pid) ≠ 0 →
  p_isActive (propertyAt s pid) = true →
  p_status (propertyAt s pid) = PS_ListedForSale →
  p_owner (propertyAt s pid) ≠ msg_sender ctx →
  price <= value → p_marketValue (propertyAt s pid) <= price →
  transactionIds s < MAX_UINT256 →
  ∃ s' log, call ctx (RequestToPurchase pid price h value) s = Ok (s', log).
Proof.
  intros Hp He Hid Ha Hs Ho Hv Hmv Hn. start_call. meval.
  unfold mret, M_ret. eauto.
Qed.

Lemma processPurchaseRequest_approve_succeeds ctx tid s :
  paused s = false → entered s = false →
  t_id (transactionAt s tid) ≠ 0 →
  t_seller (transactionAt s tid) = msg_sender ctx →
  t_status (transactionAt s tid) = TS_Pending →
  ∃ s' log, call ctx (ProcessPurchaseRequest tid true) s = Ok (s', log).
Proof.
  intros Hp He Hid Hs Hst. start_call. meval.
  unfold mret, M_ret. eauto.
Qed.

Lemma processPurchaseRequest_reject_succeeds ctx tid s :
  paused s = false → entered s = false →
  t_id (transactionAt s tid) ≠ 0 →
  t_seller (transactionAt s tid) = msg_sender ctx →
  t_status (transactionAt s tid) = TS_Pending →
  t_price (transactionAt s tid) <= balance s →
  accepts ctx (t_buyer (transactionAt s tid)) = true →
  ∃ s' log, call ctx (ProcessPurchaseRequest tid false) s = Ok (s', log).
Proof.
  intros Hp He Hid Hs Hst Hb Hacc. start_call. meval.
  unfold mret, M_ret. eauto.
Qed.

Lemma completePurchase_succeeds ctx tid s :
  paused s = false → entered s = false →
  t_id (transactionAt s tid) ≠ 0 →
  t_status (transactionAt s tid) = TS_Approved →
  t_buyer (transactionAt s tid) = msg_sender ctx →
  t_price (transactionAt s tid) <= balance s →
  accepts ctx (t_seller (transactionAt s tid)) = true →
  ∃ s' log, call ctx (CompletePurchase tid) s = Ok (s', log).
Proof.
  intros Hp He Hid Hst Hbuy Hb Hacc. start_call. meval.
  unfold mbind at 1, M_bind at 1. rewrite removeFromOwnerList_eq.
  destruct (firstIndexFrom _ 0 _ _); meval;
    match goal with
    | |- context [(registerAsPropertyOwner ctx ?a ≫= ?f) ?s1 ?l1] =>
        destruct (registerAsPropertyOwner_total ctx a s1 l1) as (s' & l' & E & Hb');
        rewrite (bind_eval _ f _ _ _ _ _ E)
    end;
    rewrite ?bind_assoc;
    (rewrite bind_payableCall; [| rewrite Hb'; solve_cond | solve_cond]);
    meval; unfold mret, M_ret; eauto.
Qed.

(** ** Inversion of the transitions of particular calls *)

Lemma removeFromSale_Transition ctx pid s s' log :
  call ctx (RemoveFromSale pid) s = Ok (s', log) →
  p_owner (propertyAt s pid) = msg_sender ctx ∧
  p_id (propertyAt s pid) ≠ 0 ∧
  p_isActive (propertyAt s pid) = true ∧
  (p_status (propertyAt s pid) = PS_ListedForSale
   ∨ p_status (propertyAt s pid) = PS_SaleInProgress) ∧
  propertyReplaced pid
    (with_p_lastUpdated (block_timestamp ctx)
       (with_p_status PS_Approved (propertyAt s pid))) s s'.
Proof.
  intros Hc. apply call_Transition in Hc.
  remember (RemoveFromSale pid) as c eqn:Ec.
  destruct Hc; try discriminate Ec.
  - subst c. discriminate Hkind.
  - destruct Hcall; subst c; discriminate.
  - destruct Hcall; subst c; discriminate.
  - destruct Hcall; subst c; discriminate.
  - destruct Hcall; subst c; discriminate.
  - injection Ec as ->. auto.
Qed.

Lemma completePurchase_Transition ctx tid s s' log :
  call ctx (CompletePurchase tid) s = Ok (s', log) →
  (paused s = false ∧ entered s = false ∧
   t_id (transactionAt s tid) ≠ 0 ∧
   t_status (transactionAt s tid) = TS_Approved ∧
   t_buyer (transactionAt s tid) = msg_sender ctx ∧
   t_price (transactionAt s tid) <= balance s ∧
   accepts ctx (t_seller (transactionAt s tid)) = true) ∧
  transactions s' =
    <[tid := with_t_completedAt (block_timestamp ctx)
               (with_t_status TS_Completed (transactionAt s tid))]>
      (transactions s) ∧
  properties s' =
    <[t_propertyId (transactionAt s tid) :=
        with_p_lastUpdated (block_timestamp ctx)
          (with_p_status PS_Approved
             (with_p_marketValue (t_price (transactionAt s tid))
                (with_p_owner (t_buyer (transactionAt s tid))
                   (propertyAt s (t_propertyId (transactionAt s tid))))))]>
      (properties s) ∧
  ownerProperties s' =
    <[t_buyer (transactionAt s tid) :=
        (default []
           (removeOwned s
              (p_owner (propertyAt s (t_propertyId (transactionAt s tid))))
              (t_propertyId (transactionAt s tid))
            !! t_buyer (transactionAt s tid)) ++
         [t_propertyId (transactionAt s tid)])%list]>
      (removeOwned s
         (p_owner (propertyAt s (t_propertyId (transactionAt s tid))))
         (t_propertyId (transactionAt s tid))) ∧
  transfersOf log =
    [(t_seller (transactionAt s tid), t_price (transactionAt s tid))].
Proof.
  intros Hc. apply call_Transition in Hc.
  remember (CompletePurchase tid) as c eqn:Ec.
  destruct Hc; try discriminate Ec.
  - subst c. discriminate Hkind.
  - destruct Hcall; subst c; discriminate.
  - destruct Hcall; subst c; discriminate.
  - destruct Hcall; subst c; discriminate.
  - destruct Hcall as [E|E]; subst c; [injection E as ->|discriminate E].
    repeat split; auto.
Qed.

Lemma processPurchaseRequest_Transition ctx tid approve s s' log :
  call ctx (ProcessPurchaseRequest tid approve) s = Ok (s', log) →
  (paused s = false ∧ entered s = false ∧
   t_id (transactionAt s tid) ≠ 0 ∧
   t_seller (transactionAt s tid) = msg_sender ctx ∧
   t_status (transactionAt s tid) = TS_Pending) ∧
  transactions s' =
    <[tid := with_t_completedAt (block_timestamp ctx)
               (with_t_status (if approve then TS_Approved else TS_Rejected)
                  (transactionAt s tid))]> (transactions s) ∧
  properties s' =
    <[t_propertyId (transactionAt s tid) :=
        with_p_lastUpdated (block_timestamp ctx)
          (if approve then propertyAt s (t_propertyId (transactionAt s tid))
           else with_p_status PS_ListedForSale
                  (propertyAt s (t_propertyId (transactionAt s tid))))]>
      (properties s) ∧
  balance s' =
    (if approve then balance s else balance s - t_price (transactionAt s tid)) ∧
  transfersOf log =
    (if approve then []
     else [(t_buyer (transactionAt s tid), t_price (transactionAt s tid))]) ∧
  received log = 0.
Proof.
  intros Hc. apply call_Transition in Hc.
  remember (ProcessPurchaseRequest tid approve) as c eqn:Ec.
  destruct Hc; try discriminate Ec.
  - subst c. discriminate Hkind.
  - destruct Hcall; subst c; discriminate.
  - destruct Hcall; subst c; discriminate.
  - destruct Hcall as [E|E]; subst c; [injection E as -> ->|discriminate E].
    repeat split; auto.
  - destruct Hcall; subst c; discriminate.
Qed.

Lemma requestToPurchase_Transition ctx pid price h value s s' log :
  call ctx (RequestToPurchase pid price h value) s = Ok (s', log) →
  (p_status (propertyAt s pid) = PS_ListedForSale ∧
   p_owner (propertyAt s pid) ≠ msg_sender ctx ∧
   price <= value ∧ p_marketValue (propertyAt s pid) <= price) ∧
  transactionIds s' = transactionIds s + 1 ∧
  transactions s' =
    <[transactionIds s + 1 :=
        mkTransaction (transactionIds s + 1) pid (p_owner (propertyAt s pid))
          (msg_sender ctx) price TS_Pending (block_timestamp ctx) 0 h]>
      (transactions s) ∧
  properties s' =
    <[pid := with_p_lastUpdated (block_timestamp ctx)
               (with_p_status PS_SaleInProgress (propertyAt s pid))]>
      (properties s) ∧
  balance s' = balance s + value ∧
  received log = value ∧ released log = 0.
Proof.
  intros Hc. apply call_Transition in Hc.
  remember (RequestToPurchase pid price h value) as c eqn:Ec.
  destruct Hc; try discriminate Ec.
  - subst c. discriminate Hkind.
  - destruct Hcall; subst c; discriminate.
  - destruct Hcall as [E|E]; subst c; [injection E as -> -> -> ->|discriminate E].
    repeat split; auto.
  - destruct Hcall; subst c; discriminate.
  - destruct Hcall; subst c; discriminate.
Qed.

(** * The claims *)

(** ** Emergency pause *)

(** The entry points that carry [whenNotPaused] revert with the pause
    error while the flag is set; a reverted call changes nothing. *)
Lemma paused_guarded_call_reverts ctx c s :
  paused s = true → isPauseGuarded c = true →
  call ctx c s = Err EnforcedPause ∧ step ctx c s = (s, []).
Proof.
  intros Hp Hc.
  assert (call ctx c s = Err EnforcedPause) as E.
  { destruct c; try discriminate Hc; start_call; rewrite ?bind_assoc; meval;
      rewrite bind_check_false by (sunfold; rewrite Hp; reflexivity);
      reflexivity. }
  split; [exact E|]. unfold step. rewrite E. reflexivity.
Qed.

(** The views do not read the pause flag. *)
Lemma views_ignore_pause s v i a :
  getProperty (set_paused v s) i = getProperty s i ∧
  getTransaction (set_paused v s) i = getTransaction s i ∧
  getOwnerProperties (set_paused v s) a = getOwnerProperties s a ∧
  getPropertyTransactions (set_paused v s) i = getPropertyTransactions s i ∧
  getTotalProperties (set_paused v s) = getTotalProperties s ∧
  viewRequest (set_paused v s) i = viewRequest s i.
Proof. repeat split. Qed.

(** C1 (the code departs from the claim): in a paused registry
    [approveProperty], [removeFromSale] and [updatePropertyDocuments]
    still succeed and change property records, because they do not carry
    [whenNotPaused]. *)
Theorem C1_pause_does_not_stop_every_mutation :
  let s := finalState scenarioPaused (deployed registrar) in
  paused s = true ∧
  p_status (propertyAt s 2) = PS_Pending ∧
  p_status (propertyAt s 1) = PS_ListedForSale ∧
  match call (as_ registrar) (ApproveProperty 2 true) s with
  | Ok (s', _) => paused s' = true ∧ p_status (propertyAt s' 2) = PS_Approved
  | Err _ => False
  end ∧
  match call (as_ alice) (RemoveFromSale 1) s with
  | Ok (s', _) => paused s' = true ∧ p_status (propertyAt s' 1) = PS_Approved
  | Err _ => False
  end ∧
  match call (as_ alice) (UpdatePropertyDocuments 1 "QmOther") s with
  | Ok (s', _) => paused s' = true ∧ p_ipfsHash (propertyAt s' 1) = "QmOther"
  | Err _ => False
  end.
Proof. vm_compute. repeat split. Qed.

(** ** Who may approve a registration *)

(** C5 (the code departs from the claim): [approveProperty] is guarded
    by [onlyRole(SUPERADMIN_ROLE)] alone, so a caller without the
    Superadmin role, whatever other role it holds, is rejected as
    unauthorized. *)
Theorem C5_approveProperty_requires_superadmin ctx pid approve s :
  hasRole s SUPERADMIN_ROLE (msg_sender ctx) = false →
  call ctx (ApproveProperty pid approve) s =
    Err (AccessControlUnauthorizedAccount (msg_sender ctx) SUPERADMIN_ROLE) ∧
  errorKind (AccessControlUnauthorizedAccount (msg_sender ctx) SUPERADMIN_ROLE)
    = K_Unauthorized.
Proof.
  intros Hr. split; [|reflexivity].
  start_call. meval. rewrite bind_check_false by exact Hr. reflexivity.
Qed.

(** A registered Government Authority is turned away from a property
    that exists, is active and is Pending. *)
Lemma C5_government_is_rejected :
  let s := finalState scenarioOfficer (deployed registrar) in
  (hasRole s GOVERNMENT_ROLE officer = true ∧
   p_id (propertyAt s 1) = 1 ∧ p_isActive (propertyAt s 1) = true ∧
   p_status (propertyAt s 1) = PS_Pending ∧
   hasRole s SUPERADMIN_ROLE officer = false) ∧
  call (as_ officer) (ApproveProperty 1 true) s =
    Err (AccessControlUnauthorizedAccount officer SUPERADMIN_ROLE) ∧
  errorKind (AccessControlUnauthorizedAccount officer SUPERADMIN_ROLE)
    = K_Unauthorized.
Proof.
  intros s. split; [vm_compute; repeat split|].
  apply (C5_approveProperty_requires_superadmin (as_ officer) 1 true s).
  vm_compute. reflexivity.
Defined.

(** ** Removing a property from sale twice *)

(** C9: for an active property that is listed or in a sale, the owner's
    first [removeFromSale] succeeds and leaves the status Approved; the
    owner's next [removeFromSale] reverts with "Property is not for sale",
    an invalid-state error, and the state stays as it was. *)
Theorem C9_removeFromSale_twice ctx1 ctx2 pid s :
  msg_sender ctx1 = p_owner (propertyAt s pid) →
  msg_sender ctx2 = p_owner (propertyAt s pid) →
  p_id (propertyAt s pid) ≠ 0 →
  p_isActive (propertyAt s pid) = true →
  p_status (propertyAt s pid) = PS_ListedForSale
  ∨ p_status (propertyAt s pid) = PS_SaleInProgress →
  ∃ s1 log1,
    call ctx1 (RemoveFromSale pid) s = Ok (s1, log1) ∧
    p_status (propertyAt s1 pid) = PS_Approved ∧
    call ctx2 (RemoveFromSale pid) s1 = Err (Revert "Property is not for sale") ∧
    errorKind (Revert "Property is not for sale") = K_InvalidState ∧
    step ctx2 (RemoveFromSale pid) s1 = (s1, []).
Proof.
  intros H1 H2 Hid Ha Hs.
  destruct (removeFromSale_succeeds ctx1 pid s) as (s1 & log1 & Hc); auto.
  exists s1, log1.
  destruct (removeFromSale_Transition _ _ _ _ _ Hc) as (_ & _ & _ & _ & Hrep).
  pose proof (propertyAt_insert_eq _ _ _ _ (pr_properties _ _ _ _ Hrep)) as HP.
  assert (call ctx2 (RemoveFromSale pid) s1 =
          Err (Revert "Property is not for sale")) as Hc2.
  { apply removeFromSale_wrong_status; rewrite HP; cbn; auto; discriminate. }
  repeat split; auto.
  - rewrite HP. reflexivity.
  - unfold step. rewrite Hc2. reflexivity.
Qed.

Lemma C9_removeFromSale_twice_witness :
  let s := finalState scenarioListed (deployed registrar) in
  (msg_sender (as_ alice) = p_owner (propertyAt s 1) ∧
   p_id (propertyAt s 1) ≠ 0 ∧ p_isActive (propertyAt s 1) = true ∧
   p_status (propertyAt s 1) = PS_ListedForSale) ∧
  ∃ s1 log1,
    call (as_ alice) (RemoveFromSale 1) s = Ok (s1, log1) ∧
    p_status (propertyAt s1 1) = PS_Approved ∧
    call (as_ alice) (RemoveFromSale 1) s1 = Err (Revert "Property is not for sale") ∧
    errorKind (Revert "Property is not for sale") = K_InvalidState ∧
    step (as_ alice) (RemoveFromSale 1) s1 = (s1, []).
Proof.
  intros s.
  assert (msg_sender (as_ alice) = p_owner (propertyAt s 1)) as H1
    by (vm_compute; reflexivity).
  assert (p_id (propertyAt s 1) ≠ 0) as H2 by (vm_compute; discriminate).
  assert (p_isActive (propertyAt s 1) = true) as H3 by (vm_compute; reflexivity).
  assert (p_status (propertyAt s 1) = PS_ListedForSale) as H4
    by (vm_compute; reflexivity).
  split; [auto|].
  apply (C9_removeFromSale_twice (as_ alice) (as_ alice) 1 s); auto.
Defined.

(** ** Completion does not look at the property *)

(** The price of an open transaction is part of the open escrow. *)
Lemma price_le_openEscrow s i t :
  transactions s !! i = Some t → isOpen t = true → t_price t <= openEscrow s.
Proof.
  intros Hi Ho. unfold openEscrow. rewrite (openEscrow_delete _ _ _ Hi).
  unfold escrowOf at 1. rewrite Ho. lia.
Qed.

(** In any state, what [completePurchase] requires. *)
Lemma completePurchase_succeeds_iff ctx tid s :
  (∃ s' log, call ctx (CompletePurchase tid) s = Ok (s', log)) ↔
  (paused s = false ∧ entered s = false ∧
   t_id (transactionAt s tid) ≠ 0 ∧
   t_status (transactionAt s tid) = TS_Approved ∧
   t_buyer (transactionAt s tid) = msg_sender ctx ∧
   t_price (transactionAt s tid) <= balance s ∧
   accepts ctx (t_seller (transactionAt s tid)) = true).
Proof.
  split.
  - intros (s' & log & Hc).
    destruct (completePurchase_Transition _ _ _ _ _ Hc) as (Hpre & _). exact Hpre.
  - intros (Hp & He & Hid & Hst & Hb & Hf & Ha).
    apply completePurchase_succeeds; auto.
Qed.

(** C10, as stated, fails: the four conditions it lists do not suffice.
    The registry is not paused, transaction 1 exists and is Approved and
    the caller is its buyer, but the seller's address refuses the ether,
    and [completePurchase] reverts. *)
Lemma C10_refusing_seller_blocks_completion :
  let s := finalState scenarioApproved (deployed registrar) in
  let ctx := mkCtx bob 1000 (λ _, false) in
  paused s = false ∧
  t_id (transactionAt s 1) = 1 ∧
  t_status (transactionAt s 1) = TS_Approved ∧
  t_buyer (transactionAt s 1) = msg_sender ctx ∧
  t_price (transactionAt s 1) <= balance s ∧
  call ctx (CompletePurchase 1) s = Err (Revert "Payment transfer failed").
Proof. vm_compute. repeat split. discriminate. Qed.

(** C10, amended: in every state reached from deployment, [completePurchase]
    succeeds exactly when the registry is not paused, the transaction
    exists, is Approved, the caller is its buyer and the seller accepts
    the payment; nothing is required of the property's status or active
    flag.  On success the buyer owns the property and the transaction is
    Completed, whatever the owner did to the property after the request. *)
Theorem C10_completePurchase_ignores_property_state deployer cs ctx tid :
  let s := finalState cs (deployed deployer) in
  ((∃ s' log, call ctx (CompletePurchase tid) s = Ok (s', log)) ↔
   (paused s = false ∧
    t_id (transactionAt s tid) ≠ 0 ∧
    t_status (transactionAt s tid) = TS_Approved ∧
    t_buyer (transactionAt s tid) = msg_sender ctx ∧
    accepts ctx (t_seller (transactionAt s tid)) = true)) ∧
  (∀ s' log, call ctx (CompletePurchase tid) s = Ok (s', log) →
     p_owner (propertyAt s' (t_propertyId (transactionAt s tid)))
       = t_buyer (transactionAt s tid) ∧
     t_status (transactionAt s' tid) = TS_Completed).
Proof.
  intros s. split; [split|].
  - intros Hex. apply completePurchase_succeeds_iff in Hex. tauto.
  - intros (Hp & Hid & Hst & Hb & Ha).
    apply completePurchase_succeeds_iff.
    assert (wellFormed s) as Hwf
      by (apply run_wellFormed, deployed_wellFormed).
    destruct (run_accounting cs (deployed deployer)
                (deployed_wellFormed deployer) (deployed_accounting deployer))
      as [_ Hsolv].
    pose proof (transactionAt_exists _ _ Hid) as HT.
    assert (t_price (transactionAt s tid) <= openEscrow s) as Hle.
    { apply (price_le_openEscrow s tid _ HT). unfold isOpen. rewrite Hst.
      reflexivity. }
    repeat split; auto.
    + apply (wf_entered _ Hwf).
    + fold (finalState cs (deployed deployer)) in Hsolv. fold s in Hsolv. lia.
  - intros s' log Hc.
    destruct (completePurchase_Transition _ _ _ _ _ Hc) as (_ & Ht & Hp & _).
    rewrite (propertyAt_insert_eq _ _ _ _ Hp).
    rewrite (transactionAt_insert_eq _ _ _ _ Ht). split; reflexivity.
Qed.

(** The seller has withdrawn the property from sale (status Approved),
    and the buyer of the approved transaction still completes and becomes
    the owner. *)
Lemma C10_completePurchase_after_withdrawal :
  let s := finalState scenarioWithdrawn (deployed registrar) in
  (p_status (propertyAt s 1) = PS_Approved ∧ p_owner (propertyAt s 1) = alice) ∧
  ∃ s' log, call (as_ bob) (CompletePurchase 1) s = Ok (s', log) ∧
            p_owner (propertyAt s' 1) = bob ∧
            t_status (transactionAt s' 1) = TS_Completed.
Proof.
  intros s. split; [vm_compute; split; reflexivity|].
  destruct (C10_completePurchase_ignores_property_state registrar
              scenarioWithdrawn (as_ bob) 1) as [Hiff Hpost].
  destruct (proj2 Hiff) as (s' & log & Hc).
  { vm_compute. repeat split; try reflexivity; discriminate. }
  exists s', log. split; [exact Hc|]. apply (Hpost s' log Hc).
Defined.

(** ** The sale scenario, call by call *)

Lemma registerProperty_Transition ctx st d v sn o mv h s s' log :
  call ctx (RegisterProperty st d v sn o mv h) s = Ok (s', log) →
  propertyIds s' = propertyIds s + 1 ∧
  properties s' =
    <[propertyIds s + 1 :=
        mkProperty (propertyIds s + 1) st d v sn o mv
          (uniquePropertyIdOf st d v sn (propertyIds s + 1)) h PS_Pending
          (block_timestamp ctx) (block_timestamp ctx) true]> (properties s) ∧
  transactionIds s' = transactionIds s ∧
  transactions s' = transactions s ∧
  balance s' = balance s ∧ entered s' = entered s ∧ paused s' = paused s.
Proof.
  intros Hc. apply call_Transition in Hc.
  remember (RegisterProperty st d v sn o mv h) as c eqn:Ec.
  destruct Hc; try discriminate Ec.
  - subst c. discriminate Hkind.
  - injection Ec as -> -> -> -> -> -> ->. repeat split; auto.
  - destruct Hcall; subst c; discriminate.
  - destruct Hcall; subst c; discriminate.
  - destruct Hcall; subst c; discriminate.
  - destruct Hcall; subst c; discriminate.
Qed.

Lemma approveProperty_Transition ctx pid approve s s' log :
  call ctx (ApproveProperty pid approve) s = Ok (s', log) →
  propertyReplaced pid
    (with_p_lastUpdated (block_timestamp ctx)
       (if approve then with_p_status PS_Approved (propertyAt s pid)
        else with_p_isActive false
               (with_p_status PS_Rejected (propertyAt s pid)))) s s'.
Proof.
  intros Hc. apply call_Transition in Hc.
  remember (ApproveProperty pid approve) as c eqn:Ec.
  destruct Hc; try discriminate Ec.
  - subst c. discriminate Hkind.
  - injection Ec as -> ->. exact Hreplaced.
  - destruct Hcall; subst c; discriminate.
  - destruct Hcall; subst c; discriminate.
  - destruct Hcall; subst c; discriminate.
  - destruct Hcall; subst c; discriminate.
Qed.

Lemma listPropertyForSale_Transition ctx pid price s s' log :
  call ctx (ListPropertyForSale pid price) s = Ok (s', log) →
  propertyReplaced pid
    (with_p_lastUpdated (block_timestamp ctx)
       (with_p_status PS_ListedForSale (propertyAt s pid))) s s'.
Proof.
  intros Hc. apply call_Transition in Hc.
  remember (ListPropertyForSale pid price) as c eqn:Ec.
  destruct Hc; try discriminate Ec.
  - subst c. discriminate Hkind.
  - destruct Hcall as [E|E]; subst c; [injection E as -> ->|discriminate E].
    exact Hreplaced.
  - destruct Hcall; subst c; discriminate.
  - destruct Hcall; subst c; discriminate.
  - destruct Hcall; subst c; discriminate.
Qed.

Lemma call_frame ctx c s s' log :
  call ctx c s = Ok (s', log) → isAdminCall c = false →
  paused s' = paused s ∧ (entered s = false → entered s' = false).
Proof.
  intros Hc Hk. apply call_Transition in Hc.
  destruct Hc; try (rewrite Hk in Hkind; discriminate Hkind);
    try destruct Hreplaced; split; auto; congruence.
Qed.

(** Registering a property only ever grants a role. *)
Lemma registerProperty_keeps_roles ctx st d v sn o mv h s s' log r a :
  call ctx (RegisterProperty st d v sn o mv h) s = Ok (s', log) →
  hasRole s r a = true → hasRole s' r a = true.
Proof.
  intros Hc Hr. call_inv Hc; sunfold; auto.
  destruct (decide ((PROPERTY_OWNER_ROLE, o) = (r, a))) as [E|Hne].
  - rewrite E, lookup_insert_eq. reflexivity.
  - rewrite lookup_insert_ne by exact Hne. exact Hr.
Qed.

Lemma finalState_cons_Ok ctx c rest s s' log :
  call ctx c s = Ok (s', log) →
  finalState ((ctx, c) :: rest) s = finalState rest s'.
Proof.
  intros Hc. unfold finalState. rewrite run_cons. unfold step. rewrite Hc.
  reflexivity.
Qed.

(** Reduce field updates of explicit records. *)
Ltac rnorm H :=
  unfold with_p_owner, with_p_marketValue, with_p_ipfsHash, with_p_status,
    with_p_lastUpdated, with_p_isActive, with_t_status, with_t_completedAt in H;
  cbn [p_id p_state p_district p_village p_surveyNumber p_owner p_marketValue
       p_propertyId p_ipfsHash p_status p_registeredAt p_lastUpdated p_isActive
       t_id t_propertyId t_seller t_buyer t_price t_status t_requestedAt
       t_completedAt t_ipfsHash] in H.

Lemma MAX_UINT256_positive : 0 < MAX_UINT256.
Proof. reflexivity. Qed.

(** C7: the sale scenario.  From a fresh registry: a property registered
    for [owner] with market value 100, approved by the deployer (the
    Superadmin), listed by the owner at 150, requested by another account
    at 150 with 150 in escrow, approved by the seller and completed by
    the buyer, the seller accepting the payment.  Then the buyer owns the
    property, its market value is 150, its status is Approved and the
    transaction is Completed. *)
Theorem C7_sale_scenario deployer owner buyer st d v sn h h' c1 c2 c3 c4 c5 c6 :
  nonEmpty st = true → nonEmpty d = true → nonEmpty v = true →
  nonEmpty sn = true → owner ≠ 0 → buyer ≠ owner →
  msg_sender c2 = deployer → msg_sender c3 = owner → msg_sender c4 = buyer →
  msg_sender c5 = owner → msg_sender c6 = buyer → accepts c6 owner = true →
  let s :=
    finalState
      [(c1, RegisterProperty st d v sn owner 100 h);
       (c2, ApproveProperty 1 true);
       (c3, ListPropertyForSale 1 150);
       (c4, RequestToPurchase 1 150 h' 150);
       (c5, ProcessPurchaseRequest 1 true);
       (c6, CompletePurchase 1)] (deployed deployer) in
  p_owner (propertyAt s 1) = buyer ∧
  p_marketValue (propertyAt s 1) = 150 ∧
  p_status (propertyAt s 1) = PS_Approved ∧
  t_status (transactionAt s 1) = TS_Completed.
Proof.
  intros Hst Hd Hv Hsn Ho Hbo Hc2 Hc3 Hc4 Hc5 Hc6 Hacc s. subst s.
  destruct (deployed_state deployer)
    as (Hp0 & Ht0 & _ & Hn0 & Htn0 & Hb0 & He0 & Hpa0 & Hr0).
  (* registration *)
  destruct (registerProperty_succeeds c1 st d v sn owner 100 h (deployed deployer))
    as (s1 & l1 & C1); auto; [lia | rewrite Hn0; apply MAX_UINT256_positive |].
  rewrite (finalState_cons_Ok _ _ _ _ _ _ C1).
  destruct (registerProperty_Transition _ _ _ _ _ _ _ _ _ _ _ C1)
    as (Hn1 & Hp1 & Htn1 & Ht1 & Hb1 & He1 & Hpa1).
  pose proof (registerProperty_keeps_roles _ _ _ _ _ _ _ _ _ _ _ _ _ C1 Hr0) as Hr1.
  rewrite Hn0 in Hp1. change (0 + 1) with 1 in Hp1.
  pose proof (propertyAt_insert_eq _ _ _ _ Hp1) as HP1.
  (* approval by the Superadmin *)
  destruct (approveProperty_succeeds c2 1 true s1) as (s2 & l2 & C2);
    [rewrite Hc2; exact Hr1 | rewrite HP1; discriminate
     | rewrite HP1; reflexivity | rewrite HP1; reflexivity |].
  rewrite (finalState_cons_Ok _ _ _ _ _ _ C2).
  destruct (approveProperty_Transition _ _ _ _ _ _ C2)
    as [Hp2 Hn2 Htn2 Ht2 _ Hb2 He2 Hpa2].
  pose proof (propertyAt_insert_eq _ _ _ _ Hp2) as HP2. rewrite HP1 in HP2.
  rnorm HP2.
  (* listing by the owner *)
  destruct (listPropertyForSale_succeeds c3 1 150 s2) as (s3 & l3 & C3);
    [congruence | congruence | rewrite HP2; cbn; congruence
     | rewrite HP2; discriminate | rewrite HP2; reflexivity
     | rewrite HP2; reflexivity | lia |].
  rewrite (finalState_cons_Ok _ _ _ _ _ _ C3).
  destruct (listPropertyForSale_Transition _ _ _ _ _ _ C3)
    as [Hp3 Hn3 Htn3 Ht3 _ Hb3 He3 Hpa3].
  pose proof (propertyAt_insert_eq _ _ _ _ Hp3) as HP3. rewrite HP2 in HP3.
  rnorm HP3.
  (* purchase request by the buyer *)
  destruct (requestToPurchase_succeeds c4 1 150 h' 150 s3) as (s4 & l4 & C4);
    [congruence | congruence | rewrite HP3; discriminate
     | rewrite HP3; reflexivity | rewrite HP3; reflexivity
     | rewrite HP3, Hc4; cbn; congruence | lia | rewrite HP3; cbn; lia
     | rewrite Htn3, Htn2, Htn1, Htn0; apply MAX_UINT256_positive |].
  rewrite (finalState_cons_Ok _ _ _ _ _ _ C4).
  destruct (requestToPurchase_Transition _ _ _ _ _ _ _ _ C4)
    as (_ & Htn4 & Ht4 & Hp4 & Hb4 & _).
  destruct (call_frame _ _ _ _ _ C4 eq_refl) as [Hpa4 He4].
  rewrite Htn3, Htn2, Htn1, Htn0 in Ht4. change (0 + 1) with 1 in Ht4.
  pose proof (transactionAt_insert_eq _ _ _ _ Ht4) as HT4. rewrite HP3 in HT4.
  rnorm HT4.
  (* approval by the seller *)
  destruct (processPurchaseRequest_approve_succeeds c5 1 s4) as (s5 & l5 & C5);
    [congruence | apply He4; congruence | rewrite HT4; discriminate
     | rewrite HT4; cbn; congruence | rewrite HT4; reflexivity |].
  rewrite (finalState_cons_Ok _ _ _ _ _ _ C5).
  destruct (processPurchaseRequest_Transition _ _ _ _ _ _ C5)
    as (_ & Ht5 & Hp5 & Hb5 & _).
  destruct (call_frame _ _ _ _ _ C5 eq_refl) as [Hpa5 He5].
  pose proof (transactionAt_insert_eq _ _ _ _ Ht5) as HT5. rewrite HT4 in HT5.
  rnorm HT5.
  (* completion by the buyer *)
  destruct (completePurchase_succeeds c6 1 s5) as (s6 & l6 & C6);
    [congruence | apply He5, He4; congruence | rewrite HT5; discriminate
     | rewrite HT5; reflexivity | rewrite HT5; cbn; congruence
     | rewrite HT5, Hb5, Hb4, Hb3, Hb2, Hb1, Hb0; cbn; lia
     | rewrite HT5; exact Hacc |].
  rewrite (finalState_cons_Ok _ _ _ _ _ _ C6).
  destruct (completePurchase_Transition _ _ _ _ _ C6) as (_ & Ht6 & Hp6 & _).
  rewrite HT5 in Hp6. cbn [t_propertyId t_price t_buyer] in Hp6.
  unfold finalState. cbn [run fst].
  rewrite (propertyAt_insert_eq _ _ _ _ Hp6).
  rewrite (transactionAt_insert_eq _ _ _ _ Ht6).
  repeat split. exact Hc4.
Qed.

Lemma C7_sale_scenario_witness :
  let s := finalState scenarioCompleted (deployed registrar) in
  p_owner (propertyAt s 1) = bob ∧
  p_marketValue (propertyAt s 1) = 150 ∧
  p_status (propertyAt s 1) = PS_Approved ∧
  t_status (transactionAt s 1) = TS_Completed.
Proof.
  apply (C7_sale_scenario registrar alice bob "State1" "District1" "Village1"
           "SUR-001" "QmHash123" "QmHash456" (as_ alice) (as_ registrar)
           (as_ alice) (as_ bob) (as_ alice) (as_ bob));
    try reflexivity; discriminate.
Defined.

(** ** One open sale per property *)

(** C4, as stated, fails: after the owner removes a property from sale
    while a request is pending and lists it again, a second request is
    accepted, and two Pending transactions refer to the same property. *)
Lemma C4_two_pending_transactions :
  let s := finalState scenarioTwoPending (deployed registrar) in
  (t_status (transactionAt s 1) = TS_Pending ∧
   t_status (transactionAt s 2) = TS_Pending ∧
   t_propertyId (transactionAt s 1) = 1 ∧
   t_propertyId (transactionAt s 2) = 1) ∧
  ¬ atMostOneOpen s.
Proof.
  intros s. split; [vm_compute; repeat split|].
  intros Hone.
  assert (transactions s !! 1 = Some (transactionAt s 1)) as H1
    by (vm_compute; reflexivity).
  assert (transactions s !! 2 = Some (transactionAt s 2)) as H2
    by (vm_compute; reflexivity).
  specialize (Hone 1 2 _ _ H1 H2).
  assert (1 = 2) as E by (apply Hone; vm_compute; reflexivity).
  discriminate E.
Qed.

(** The invariant of property [p] only reads the transactions and the
    status of [p]. *)
Lemma singleSaleOn_same p s s' :
  transactions s' = transactions s →
  p_status (propertyAt s' p) = p_status (propertyAt s p) →
  atMostOneOpenOn p s ∧ openKeepsInProgress p s →
  atMostOneOpenOn p s' ∧ openKeepsInProgress p s'.
Proof.
  intros Ht Hp [Hone Hopen]. split.
  - intros i j ti tj. rewrite Ht. apply Hone.
  - intros i t. rewrite Ht, Hp. apply Hopen.
Qed.

(** A property whose record is replaced: the invariant of [p] survives
    when the replacement is of another property, or does not leave
    SaleInProgress. *)
Lemma singleSaleOn_propertyReplaced p s s' pid P' :
  propertyReplaced pid P' s s' →
  (pid = p → p_status (propertyAt s p) = PS_SaleInProgress →
   p_status P' = PS_SaleInProgress) →
  atMostOneOpenOn p s ∧ openKeepsInProgress p s →
  atMostOneOpenOn p s' ∧ openKeepsInProgress p s'.
Proof.
  intros [Hp Hn Htn Ht Ho Hb He Hpa] Hkeep [Hone Hopen]. split.
  - intros i j ti tj. rewrite Ht. apply Hone.
  - intros i t Hi Hoi Hpid. rewrite Ht in Hi.
    specialize (Hopen i t Hi Hoi Hpid).
    destruct (decide (pid = p)) as [->|Hne].
    + rewrite (propertyAt_insert_eq _ _ _ _ Hp). auto.
    + rewrite (propertyAt_insert_ne _ _ _ _ _ Hp) by auto. exact Hopen.
Qed.

(** Resolving or approving transaction [tid] keeps the invariant of every
    property. *)
Lemma singleSaleOn_update p s s' tid T' P' :
  transactions s' = <[tid := T']> (transactions s) →
  properties s' = <[t_propertyId (transactionAt s tid) := P']> (properties s) →
  transactions s !! tid = Some (transactionAt s tid) →
  isOpen (transactionAt s tid) = true →
  t_propertyId T' = t_propertyId (transactionAt s tid) →
  (isOpen T' = true →
   p_status P' = p_status (propertyAt s (t_propertyId (transactionAt s tid)))) →
  atMostOneOpenOn p s ∧ openKeepsInProgress p s →
  atMostOneOpenOn p s' ∧ openKeepsInProgress p s'.
Proof.
  intros Ht Hp HT HoT Hpid Hstay [Hone Hopen]. split.
  - intros i j ti tj Hi Hj Hoi Hoj Hpi Hpj. rewrite Ht in Hi, Hj.
    apply lookup_insert_Some in Hi as [[<- <-]|[Hnei Hi]];
      apply lookup_insert_Some in Hj as [[<- <-]|[Hnej Hj]].
    + reflexivity.
    + apply (Hone tid j (transactionAt s tid) tj); auto. congruence.
    + apply (Hone i tid ti (transactionAt s tid)); auto. congruence.
    + apply (Hone i j ti tj); auto.
  - intros i t Hi Hoi Hpi. rewrite Ht in Hi.
    apply lookup_insert_Some in Hi as [[<- <-]|[Hnei Hi]].
    + rewrite Hpid in Hpi. rewrite <- Hpi.
      rewrite (propertyAt_insert_eq _ _ _ _ Hp). rewrite (Hstay Hoi).
      rewrite Hpi. apply (Hopen tid _ HT HoT Hpi).
    + assert (p ≠ t_propertyId (transactionAt s tid)) as Hne.
      { intros E. apply Hnei. symmetry. apply (Hone i tid t (transactionAt s tid)); auto. }
      rewrite (propertyAt_insert_ne _ _ _ _ _ Hp) by auto.
      apply (Hopen i t); auto.
Qed.

(** Every transition keeps the invariant of property [p], except a
    [removeFromSale] of [p] in the middle of its sale. *)
Lemma Transition_singleSaleOn p ctx s s' log c :
  Transition ctx s s' log c →
  (c = RemoveFromSale p → p_status (propertyAt s p) ≠ PS_SaleInProgress) →
  wellFormed s →
  atMostOneOpenOn p s ∧ openKeepsInProgress p s →
  atMostOneOpenOn p s' ∧ openKeepsInProgress p s'.
Proof.
  intros HT Hgate Hwf Hinv. destruct HT.
  - destruct Hsame as [Hn Htn Hp Ht Ho He].
    apply (singleSaleOn_same p s s'); auto.
    rewrite (propertyAt_same _ _ _ Hp). reflexivity.
  - (* registerProperty: the new property has no transaction yet *)
    destruct Hinv as [Hone Hopen]. split.
    + intros i j ti tj. rewrite Htransactions. apply Hone.
    + intros i t Hi Hoi Hpi. rewrite Htransactions in Hi.
      pose proof (wf_transaction_property _ _ _ Hwf Hi) as HP.
      destruct (wf_properties _ Hwf _ _ HP) as (_ & _ & Hle).
      rewrite (propertyAt_insert_ne _ _ _ _ _ Hproperties) by lia. eauto.
  - eapply singleSaleOn_propertyReplaced; eauto. intros ->. congruence.
  - eapply singleSaleOn_propertyReplaced; eauto. intros ->. congruence.
  - (* requestToPurchase: the property was listed, so no open transaction
       refers to it yet *)
    destruct Hinv as [Hone Hopen].
    assert (Hnone : pid = p →
              ∀ j tj, transactions s !! j = Some tj → isOpen tj = true →
                      t_propertyId tj ≠ p).
    { intros -> j tj Hj Hoj E. specialize (Hopen j tj Hj Hoj E). congruence. }
    split.
    + intros i j ti tj Hi Hj Hoi Hoj Hpi Hpj.
      rewrite Htransactions in Hi, Hj.
      apply lookup_insert_Some in Hi as [[<- <-]|[Hnei Hi]];
        apply lookup_insert_Some in Hj as [[<- <-]|[Hnej Hj]].
      * reflexivity.
      * cbn in Hpi. exfalso. eapply Hnone; eauto.
      * cbn in Hpj. exfalso. eapply Hnone; eauto.
      * eapply Hone; eauto.
    + intros i t Hi Hoi Hpi. rewrite Htransactions in Hi.
      apply lookup_insert_Some in Hi as [[<- <-]|[Hnei Hi]].
      * cbn [t_propertyId] in Hpi. subst p.
        rewrite (propertyAt_insert_eq _ _ _ _ Hproperties). reflexivity.
      * destruct (decide (p = pid)) as [->|Hne].
        -- exfalso. eapply Hnone; eauto.
        -- rewrite (propertyAt_insert_ne _ _ _ _ _ Hproperties) by auto. eauto.
  - (* processPurchaseRequest *)
    apply (singleSaleOn_update p s s' tid _ _ Htransactions Hproperties
             (transactionAt_exists _ _ Hexists)); auto;
      try reflexivity;
      try (unfold isOpen; rewrite Hstatus; reflexivity).
    destruct approve; [reflexivity | discriminate].
  - (* completePurchase *)
    apply (singleSaleOn_update p s s' tid _ _ Htransactions Hproperties
             (transactionAt_exists _ _ Hexists)); auto;
      try reflexivity;
      try (unfold isOpen; rewrite Hstatus; reflexivity).
    discriminate.
  - eapply singleSaleOn_propertyReplaced; eauto. intros ->. auto.
  - eapply singleSaleOn_propertyReplaced; eauto.
    intros -> Hsip. exfalso. apply Hgate; auto.
Qed.

(** A step that does not withdraw [p] from its sale keeps the invariant
    of [p], hence a run that never does. *)
Lemma step_singleSaleOn p ctx c s :
  withdrawsSale p ctx c s = false → wellFormed s →
  atMostOneOpenOn p s ∧ openKeepsInProgress p s →
  atMostOneOpenOn p (step ctx c s).1 ∧ openKeepsInProgress p (step ctx c s).1.
Proof.
  intros Hg Hwf Hinv.
  destruct (step_cases ctx c s) as [(s' & log & Hc & ->)|(e & _ & ->)];
    cbn [fst]; [|exact Hinv].
  eapply Transition_singleSaleOn; eauto using call_Transition.
  intros -> Hsip. unfold withdrawsSale, succeeds in Hg. rewrite Hc in Hg.
  rewrite bool_decide_eq_true_2 in Hg by reflexivity.
  rewrite bool_decide_eq_true_2 in Hg by exact Hsip. discriminate Hg.
Qed.

Lemma run_singleSaleOn p cs s :
  saleKept p cs s = true → wellFormed s →
  atMostOneOpenOn p s ∧ openKeepsInProgress p s →
  atMostOneOpenOn p (run cs s).1 ∧ openKeepsInProgress p (run cs s).1.
Proof.
  revert s. induction cs as [|[ctx c] cs IH]; intros s Hg Hwf Hinv; [exact Hinv|].
  cbn [saleKept] in Hg. apply andb_true_iff in Hg as [Hg1 Hg2].
  apply negb_true_iff in Hg1.
  rewrite run_cons. cbn [fst].
  apply IH; auto using step_wellFormed, step_singleSaleOn.
Qed.

(** No transaction exists at deployment. *)
Lemma deployed_singleSaleOn p deployer :
  atMostOneOpenOn p (deployed deployer) ∧ openKeepsInProgress p (deployed deployer).
Proof.
  destruct (deployed_state deployer) as (_ & Ht & _).
  split.
  - intros i j ti tj Hi. rewrite Ht, lookup_empty in Hi. discriminate.
  - intros i t Hi. rewrite Ht, lookup_empty in Hi. discriminate.
Qed.

(** A purchase request is accepted only for a property that is listed
    for sale. *)
Lemma request_needs_listing ctx c pid price h value s :
  c = RequestToPurchase pid price h value ∨ c = RequestToLandOwner pid price h value →
  p_status (propertyAt s pid) ≠ PS_ListedForSale →
  ∃ e, call ctx c s = Err e.
Proof.
  intros Hc Hst. destruct (call ctx c s) as [[s' log]|e] eqn:E; [|eauto].
  exfalso. apply call_Transition in E.
  destruct E; destruct Hc as [Hc|Hc]; try discriminate Hc; subst;
    try discriminate;
    destruct Hcall as [E|E]; try discriminate E;
    injection E as <- _ _ _; contradiction.
Qed.

(** C4, amended: for every property [p] and every run from deployment in
    which no successful [removeFromSale] took [p] out of SaleInProgress,
    at most one Pending or Approved transaction refers to [p]; while such
    a transaction exists the status of [p] is SaleInProgress and every
    purchase request on [p] reverts.  Calls that revert and what happens
    to other properties do not matter. *)
Theorem C4_single_open_sale_per_property deployer cs p :
  saleKept p cs (deployed deployer) = true →
  let s := finalState cs (deployed deployer) in
  (∀ i j ti tj,
     transactions s !! i = Some ti → transactions s !! j = Some tj →
     isOpen ti = true → isOpen tj = true →
     t_propertyId ti = p → t_propertyId tj = p → i = j) ∧
  (∀ i t,
     transactions s !! i = Some t → isOpen t = true → t_propertyId t = p →
     p_status (propertyAt s p) = PS_SaleInProgress ∧
     (∀ ctx price h value,
        ∃ e, call ctx (RequestToPurchase p price h value) s = Err e) ∧
     (∀ ctx price h value,
        ∃ e, call ctx (RequestToLandOwner p price h value) s = Err e)).
Proof.
  intros Hkept s.
  destruct (run_singleSaleOn p cs (deployed deployer) Hkept
              (deployed_wellFormed deployer) (deployed_singleSaleOn p deployer))
    as [Hone Hopen].
  fold (finalState cs (deployed deployer)) in Hone, Hopen. fold s in Hone, Hopen.
  split; [exact Hone|].
  intros i t Hi Ho Hp. pose proof (Hopen i t Hi Ho Hp) as Hsip.
  split; [exact Hsip|].
  split; intros ctx price h value;
    apply (request_needs_listing ctx _ p price h value); auto; congruence.
Qed.

(** Property 1 keeps its single pending request while a stranger's
    [removeFromSale] of it reverts and property 2 is withdrawn in the
    middle of its own sale. *)
Lemma C4_single_open_sale_per_property_witness :
  let s := finalState scenarioOtherWithdrawn (deployed registrar) in
  saleKept 1 scenarioOtherWithdrawn (deployed registrar) = true ∧
  (saleKept 2 scenarioOtherWithdrawn (deployed registrar) = false ∧
   gated scenarioOtherWithdrawn (deployed registrar) = false) ∧
  (t_status (transactionAt s 1) = TS_Pending ∧ t_propertyId (transactionAt s 1) = 1) ∧
  p_status (propertyAt s 1) = PS_SaleInProgress ∧
  ∃ e, call (as_ carol) (RequestToPurchase 1 150 "QmHash789" 150) s = Err e.
Proof.
  intros s.
  assert (saleKept 1 scenarioOtherWithdrawn (deployed registrar) = true) as Hk
    by (vm_compute; reflexivity).
  split; [exact Hk|]. split; [vm_compute; split; reflexivity|].
  split; [vm_compute; split; reflexivity|].
  destruct (C4_single_open_sale_per_property registrar scenarioOtherWithdrawn 1 Hk)
    as [_ Hopen].
  destruct (Hopen 1 (transactionAt s 1)) as (Hsip & Hreq & _);
    [vm_compute; reflexivity ..|].
  split; [exact Hsip | apply Hreq].
Defined.

(** ** The completion timestamp *)

(** C6: the code stamps [completedAt] before the transaction is resolved.
    In the sale scenario, after the seller's approval at block time 1000,
    transaction 1 is Approved and its completion timestamp is already
    1000.  In general a request creates the transaction Pending with
    [completedAt = 0]; [processPurchaseRequest] writes the block timestamp
    into [completedAt] on approval as on rejection (the write follows the
    if/else); [completePurchase] writes it again with its own block
    timestamp.  So, along every run from deployment with positive block
    timestamps, [completedAt] is zero exactly for the Pending
    transactions: the claim holds for Pending, Rejected and Completed
    transactions and fails for every Approved one. *)
Theorem C6_completedAt_is_stamped_on_approval :
  (let s := finalState scenarioApproved (deployed registrar) in
   t_status (transactionAt s 1) = TS_Approved ∧
   t_completedAt (transactionAt s 1) = 1000) ∧
  (∀ ctx pid price h value s s' log,
     call ctx (RequestToPurchase pid price h value) s = Ok (s', log) →
     t_status (transactionAt s' (transactionIds s')) = TS_Pending ∧
     t_completedAt (transactionAt s' (transactionIds s')) = 0) ∧
  (∀ ctx tid approve s s' log,
     call ctx (ProcessPurchaseRequest tid approve) s = Ok (s', log) →
     t_status (transactionAt s tid) = TS_Pending ∧
     t_status (transactionAt s' tid) = (if approve then TS_Approved else TS_Rejected) ∧
     t_completedAt (transactionAt s' tid) = block_timestamp ctx) ∧
  (∀ ctx tid s s' log,
     call ctx (CompletePurchase tid) s = Ok (s', log) →
     t_status (transactionAt s tid) = TS_Approved ∧
     t_status (transactionAt s' tid) = TS_Completed ∧
     t_completedAt (transactionAt s' tid) = block_timestamp ctx) ∧
  (∀ deployer cs,
     positiveTimestamps cs = true →
     ∀ i t, transactions (finalState cs (deployed deployer)) !! i = Some t →
            (t_completedAt t = 0 ↔ t_status t = TS_Pending) ∧
            (t_status t = TS_Approved → t_completedAt t ≠ 0)).
Proof.
  split; [vm_compute; split; reflexivity|].
  split; [|split; [|split]].
  - intros ctx pid price h value s s' log Hc.
    destruct (requestToPurchase_Transition _ _ _ _ _ _ _ _ Hc)
      as (_ & Htn & Ht & _).
    rewrite Htn, (transactionAt_insert_eq _ _ _ _ Ht). split; reflexivity.
  - intros ctx tid approve s s' log Hc.
    destruct (processPurchaseRequest_Transition _ _ _ _ _ _ Hc)
      as ((_ & _ & _ & _ & Hst) & Ht & _).
    rewrite (transactionAt_insert_eq _ _ _ _ Ht).
    split; [exact Hst|]. split; reflexivity.
  - intros ctx tid s s' log Hc.
    destruct (completePurchase_Transition _ _ _ _ _ Hc)
      as ((_ & _ & _ & Hst & _) & Ht & _).
    rewrite (transactionAt_insert_eq _ _ _ _ Ht).
    split; [exact Hst|]. split; reflexivity.
  - intros deployer cs Hts i t Hi.
    assert (stampedWhenProcessed (deployed deployer)) as H0.
    { intros j tj Hj. destruct (deployed_state deployer) as (_ & Ht & _).
      rewrite Ht, lookup_empty in Hj. discriminate. }
    pose proof (run_stamped cs (deployed deployer) Hts H0 i t Hi) as Hiff.
    split; [split; apply Hiff|].
    intros Hst Hz. apply Hiff in Hz. congruence.
Qed.

(** ** The owner index across a completed sale *)

(** C8, as stated, fails: when the buyer of an approved transaction
    already owns the property (it completed an earlier approved
    transaction on it), completion removes the property from the buyer's
    own list and appends it again, so the list of the old owner still
    contains the property. *)
Lemma C8_buyer_already_owner :
  let s := finalState scenarioBoughtOnce (deployed registrar) in
  p_owner (propertyAt s 1) = bob ∧
  t_buyer (transactionAt s 2) = bob ∧
  match call (as_ bob) (CompletePurchase 2) s with
  | Ok (s', _) => getOwnerProperties s' bob = [1]
  | Err _ => False
  end.
Proof. vm_compute. repeat split. Qed.

(** C8, amended: in every state reached from deployment, after a
    successful [completePurchase] the index of the buyer contains the
    property, and when the owner before the call is not the buyer, the
    index of that owner no longer contains it. *)
Theorem C8_owner_index_round_trip deployer cs ctx tid s' log :
  call ctx (CompletePurchase tid) (finalState cs (deployed deployer))
    = Ok (s', log) →
  let s := finalState cs (deployed deployer) in
  let pid := t_propertyId (transactionAt s tid) in
  let oldOwner := p_owner (propertyAt s pid) in
  let buyer := t_buyer (transactionAt s tid) in
  pid ∈ getOwnerProperties s' buyer ∧
  (oldOwner ≠ buyer → pid ∉ getOwnerProperties s' oldOwner).
Proof.
  intros Hc s pid oldOwner buyer.
  destruct (completePurchase_Transition _ _ _ _ _ Hc) as (_ & _ & _ & Ho & _).
  fold s pid oldOwner buyer in Ho.
  assert (indexOk s) as Hidx.
  { apply run_indexOk; auto using deployed_wellFormed, deployed_indexOk. }
  unfold getOwnerProperties, ownerPropertiesOf. rewrite Ho. split.
  - rewrite lookup_insert_eq. cbn [default from_option id].
    apply elem_of_app. right. apply list_elem_of_singleton. reflexivity.
  - intros Hne. rewrite lookup_insert_ne by auto.
    destruct (removeOwned_lookup_eq s oldOwner pid (proj1 (Hidx oldOwner)))
      as (_ & Hnot & _).
    exact Hnot.
Qed.

Lemma C8_owner_index_round_trip_witness :
  let s := finalState scenarioApproved (deployed registrar) in
  (p_owner (propertyAt s 1) = alice ∧ t_buyer (transactionAt s 1) = bob) ∧
  ∃ s' log, call (as_ bob) (CompletePurchase 1) s = Ok (s', log) ∧
            1 ∈ getOwnerProperties s' bob ∧ 1 ∉ getOwnerProperties s' alice.
Proof.
  intros s. split; [vm_compute; split; reflexivity|].
  destruct (call (as_ bob) (CompletePurchase 1) s) as [[s' log]|e] eqn:Hc;
    [|vm_compute in Hc; discriminate Hc].
  exists s', log. split; [reflexivity|].
  destruct (C8_owner_index_round_trip registrar scenarioApproved (as_ bob) 1 s' log Hc)
    as [Hin Hout].
  split; [exact Hin|]. apply Hout. vm_compute. discriminate.
Defined.

(** ** Order of effects around the transfer *)


Ltac in_list := repeat first [left; reflexivity | right].











(** ** Escrow *)












(** * Further properties *)

(** ** The numeral written by [toString] *)

Lemma digitValue_digit d :
  d < 10 → digitValue (Ascii.ascii_of_N (48 + d)) = Some d.
Proof.
  intros Hd. unfold digitValue.
  rewrite Ascii.N_ascii_embedding by lia.
  cbn zeta.
  rewrite (proj2 (N.leb_le 48 (48 + d))) by lia.
  rewrite (proj2 (N.leb_le (48 + d) 57)) by lia.
  cbn [andb]. f_equal. lia.
Qed.

(** With enough fuel the digit loop prepends the numeral of [value]:
    reading the result back continues from [acc] as if the digits of
    [value] had been read first. *)
Lemma parse_toString_digits fuel :
  ∀ value buffer,
    value < 2 ^ N.of_nat fuel →
    ∃ k, ∀ acc,
      parseDecimalFrom acc (toString_digits fuel value buffer) =
      parseDecimalFrom (acc * 10 ^ k + value) buffer ∧
      (value = 0 → k = 0) ∧
      (value ≠ 0 → 10 ^ k <= 10 * value ∧ value < 10 ^ k).
Proof.
  induction fuel as [|fuel IH]; intros value buffer Hlt.
  - assert (value = 0) as -> by (cbn in Hlt; lia).
    exists 0. intros acc. cbn [toString_digits].
    rewrite N.pow_0_r, N.mul_1_r, N.add_0_r. repeat split; auto. contradiction.
  - cbn [toString_digits].
    destruct (N.eqb_spec value 0) as [->|Hnz].
    + exists 0. intros acc.
      rewrite N.pow_0_r, N.mul_1_r, N.add_0_r. repeat split; auto. contradiction.
    + assert (value / 10 < 2 ^ N.of_nat fuel) as Hlt'.
      { rewrite Nat2N.inj_succ, N.pow_succ_r' in Hlt.
        apply N.Div0.div_lt_upper_bound. lia. }
      destruct (IH (value / 10)
                  (String (Ascii.ascii_of_N (48 + value mod 10)) buffer) Hlt')
        as (k & Hk).
      exists (k + 1). intros acc.
      destruct (Hk acc) as (E & Hz & Hnzk).
      rewrite E. cbn [parseDecimalFrom].
      assert (value mod 10 < 10) as Hm by (apply N.mod_lt; lia).
      rewrite digitValue_digit by exact Hm.
      pose proof (N.Div0.div_mod value 10) as Hdm.
      rewrite N.pow_add_r, N.pow_1_r.
      split.
      { f_equal.
        transitivity (acc * (10 ^ k * 10) + (10 * (value / 10) + value mod 10));
          [ring | rewrite <- Hdm; reflexivity]. }
      split; [contradiction|]. intros _.
      destruct (N.eq_dec (value / 10) 0) as [Hq|Hq].
      * rewrite (Hz Hq). rewrite N.pow_0_r. lia.
      * destruct (Hnzk Hq) as [H1 H2]. clear E Hk Hz Hnzk Hlt Hlt'.
        generalize dependent (10 ^ k). generalize dependent (value / 10).
        generalize dependent (value mod 10). intros. lia.
Qed.

Lemma toString_digits_length fuel value buffer :
  (String.length buffer ≤ String.length (toString_digits fuel value buffer))%nat.
Proof.
  revert value buffer. induction fuel as [|fuel IH]; intros value buffer;
    cbn [toString_digits]; [lia|].
  destruct (value =? 0); [lia|].
  etransitivity; [|apply IH]. cbn [String.length]. lia.
Qed.

Lemma parseDecimal_toString value : parseDecimal (toString value) = Some value.
Proof.
  unfold toString. destruct (N.eqb_spec value 0) as [->|Hnz]; [reflexivity|].
  set (fuel := S (N.to_nat (N.log2 value))).
  assert (value < 2 ^ N.of_nat fuel) as Hlt.
  { unfold fuel. rewrite Nat2N.inj_succ, N2Nat.id.
    apply N.log2_spec. lia. }
  destruct (parse_toString_digits fuel value "" Hlt) as (k & Hk).
  destruct (Hk 0) as (E & _ & _).
  assert (toString_digits fuel value "" ≠ "") as Hne.
  { unfold fuel. cbn [toString_digits].
    rewrite (proj2 (N.eqb_neq value 0)) by exact Hnz.
    intros Hnil.
    pose proof (toString_digits_length (N.to_nat (N.log2 value)) (value / 10)
                  (String (Ascii.ascii_of_N (48 + value mod 10)) "")) as Hlen.
    rewrite Hnil in Hlen. cbn in Hlen. lia. }
  unfold parseDecimal.
  destruct (toString_digits fuel value "") as [|c r] eqn:Ed; [contradiction|].
  rewrite E. cbn [parseDecimalFrom]. f_equal; lia.
Qed.

(** Distinct numbers have distinct numerals. *)
Lemma toString_inj n m : toString n = toString m → n = m.
Proof.
  intros E. pose proof (parseDecimal_toString n) as Hn.
  rewrite E, parseDecimal_toString in Hn. congruence.
Qed.

(** X1: [toString] writes the decimal numeral of its argument: reading
    the digits back gives the number, for every [uint256] and beyond, so
    different numbers have different numerals; zero is written "0". *)
Theorem X1_toString_is_the_decimal_numeral n m :
  parseDecimal (toString n) = Some n ∧
  (toString n = toString m → n = m) ∧
  toString 0 = "0".
Proof.
  split; [apply parseDecimal_toString|]. split; [|reflexivity].
  intros E. pose proof (parseDecimal_toString n) as Hn.
  rewrite E, parseDecimal_toString in Hn. congruence.
Qed.

(** *** The property identifier string ends in the numeral of the id *)

Lemma list_ascii_of_string_app (a b : string) :
  String.list_ascii_of_string (a +:+ b) =
  (String.list_ascii_of_string a ++ String.list_ascii_of_string b)%list.
Proof.
  induction a as [|c a IH]; [reflexivity|].
  cbn [String.app String.list_ascii_of_string app]. rewrite <- IH. reflexivity.
Qed.

(** The part of a list before the first occurrence of [x] is determined
    by the list. *)
Lemma first_segment_unique {A : Type} (x : A) (a b l1 l2 : list A) :
  x ∉ a → x ∉ b → (a ++ x :: l1 = b ++ x :: l2)%list → a = b.
Proof.
  revert b. induction a as [|y a IH]; intros [|z b] Ha Hb E.
  - reflexivity.
  - cbn in E. injection E as -> _. contradiction Hb. left.
  - cbn in E. injection E as -> _. contradiction Ha. left.
  - cbn in E. injection E as -> E. f_equal.
    apply IH; [| |exact E].
    + intros Hin. apply Ha. right. exact Hin.
    + intros Hin. apply Hb. right. exact Hin.
Qed.

(** And so is the part after the last occurrence. *)
Lemma last_segment_unique {A : Type} (x : A) (a b l1 l2 : list A) :
  x ∉ a → x ∉ b → (l1 ++ x :: a = l2 ++ x :: b)%list → a = b.
Proof.
  intros Ha Hb E. apply (f_equal (@rev A)) in E.
  rewrite !rev_app_distr in E. cbn [rev] in E. rewrite <- !app_assoc in E.
  cbn [app] in E.
  apply (first_segment_unique x _ _ _ _) in E.
  - rewrite <- (rev_involutive a), <- (rev_involutive b), E. reflexivity.
  - intros Hin. apply Ha. apply list_elem_of_In, in_rev, list_elem_of_In. exact Hin.
  - intros Hin. apply Hb. apply list_elem_of_In, in_rev, list_elem_of_In. exact Hin.
Qed.

Lemma parseDecimalFrom_no_dash acc x r :
  parseDecimalFrom acc x = Some r → "-"%char ∉ String.list_ascii_of_string x.
Proof.
  revert acc. induction x as [|c x IH]; intros acc E; cbn [String.list_ascii_of_string].
  - apply not_elem_of_nil.
  - cbn [parseDecimalFrom] in E.
    destruct (digitValue c) as [d|] eqn:Ed; [|discriminate E].
    apply not_elem_of_cons. split; [|eapply IH; exact E].
    intros <-. vm_compute in Ed. discriminate Ed.
Qed.

Lemma toString_no_dash n : "-"%char ∉ String.list_ascii_of_string (toString n).
Proof.
  pose proof (parseDecimal_toString n) as E. unfold parseDecimal in E.
  destruct (toString n) as [|c r] eqn:Es; [discriminate E|].
  eapply parseDecimalFrom_no_dash. exact E.
Qed.

(** The identifier string determines the numeric id, whatever the four
    location fields are. *)
Lemma uniquePropertyIdOf_inj st d v sn n st' d' v' sn' m :
  uniquePropertyIdOf st d v sn n = uniquePropertyIdOf st' d' v' sn' m → n = m.
Proof.
  unfold uniquePropertyIdOf. intros E.
  apply (f_equal String.list_ascii_of_string) in E.
  rewrite !list_ascii_of_string_app in E.
  cbn [String.list_ascii_of_string app] in E.
  assert (∀ a b c e t : list ascii,
            (a ++ "-"%char :: b ++ "-"%char :: c ++ "-"%char :: e ++ "-"%char :: t =
             (a ++ "-"%char :: b ++ "-"%char :: c ++ "-"%char :: e) ++ "-"%char :: t)%list)
    as Hshape.
  { intros. repeat (rewrite <- app_assoc; cbn [app]). reflexivity. }
  rewrite !Hshape in E.
  apply last_segment_unique in E; [| apply toString_no_dash | apply toString_no_dash].
  apply toString_inj.
  rewrite <- (String.string_of_list_ascii_of_string (toString n)),
          <- (String.string_of_list_ascii_of_string (toString m)).
  rewrite E. reflexivity.
Qed.

(** ** The loops of [viewRequest] *)

Lemma pendingOf_drop s l i x :
  l !! i = Some x →
  pendingOf s (drop i l) =
  if bool_decide (t_status (transactionAt s x) = TS_Pending)
  then x :: pendingOf s (drop (S i) l) else pendingOf s (drop (S i) l).
Proof.
  intros Hx. unfold pendingOf. rewrite (drop_S _ _ _ Hx), filter_cons.
  destruct (decide (t_status (transactionAt s x) = TS_Pending)) as [E|E].
  - rewrite bool_decide_eq_true_2 by exact E. reflexivity.
  - rewrite bool_decide_eq_false_2 by exact E. reflexivity.
Qed.

Lemma viewRequest_count_eq s l fuel i c :
  (length l ≤ i + fuel)%nat →
  viewRequest_count s l fuel i c = (c + length (pendingOf s (drop i l)))%nat.
Proof.
  revert i c. induction fuel as [|fuel IH]; intros i c Hlen;
    cbn [viewRequest_count].
  - rewrite drop_ge by lia. cbn. lia.
  - destruct (bool_decide_reflect (i < length l)%nat) as [Hi|Hi].
    + destruct (lookup_lt_is_Some_2 l i Hi) as [x Hx].
      rewrite (pendingOf_drop _ _ _ _ Hx). rewrite Hx. cbn [default from_option id].
      destruct (bool_decide (t_status (transactionAt s x) = TS_Pending));
        rewrite IH by lia; cbn [length]; lia.
    + rewrite drop_ge by lia. cbn. lia.
Qed.

Lemma viewRequest_fill_eq s l fuel i arr index :
  (length l ≤ i + fuel)%nat →
  (index + length (pendingOf s (drop i l)) ≤ length arr)%nat →
  viewRequest_fill s l fuel i arr index =
  Ok (take index arr ++ pendingOf s (drop i l) ++
      drop (index + length (pendingOf s (drop i l))) arr)%list.
Proof.
  revert i arr index. induction fuel as [|fuel IH]; intros i arr index Hlen Hfit;
    cbn [viewRequest_fill].
  - rewrite drop_ge by lia. cbn [pendingOf filter list_filter length app].
    rewrite Nat.add_0_r, take_drop. reflexivity.
  - destruct (bool_decide_reflect (i < length l)%nat) as [Hi|Hi].
    + destruct (lookup_lt_is_Some_2 l i Hi) as [x Hx].
      rewrite (pendingOf_drop _ _ _ _ Hx) in *. rewrite Hx.
      cbn [default from_option id].
      destruct (bool_decide (t_status (transactionAt s x) = TS_Pending)).
      * cbn [length] in Hfit.
        rewrite bool_decide_eq_true_2 by lia.
        rewrite IH; [|lia|rewrite length_insert; lia].
        rewrite take_S_r with (x := x) by (apply list_lookup_insert_eq; lia).
        rewrite take_insert_ge by lia.
        rewrite drop_insert_lt by lia.
        rewrite <- app_assoc. cbn [app length].
        replace (S index + length (pendingOf s (drop (S i) l)))%nat
          with (index + S (length (pendingOf s (drop (S i) l))))%nat by lia.
        reflexivity.
      * apply IH; [lia|exact Hfit].
    + rewrite drop_ge by lia. cbn [pendingOf filter list_filter length app].
      rewrite Nat.add_0_r, take_drop. reflexivity.
Qed.

(** The two loops of [viewRequest] never write out of bounds and leave
    exactly the Pending entries, in the order of the list. *)
Lemma viewRequest_loops_eq s _propertyId :
  viewRequest_loops s _propertyId = viewRequest s _propertyId.
Proof.
  unfold viewRequest_loops, viewRequest.
  destruct (negb (p_id (propertyAt s _propertyId) =? 0)); [|reflexivity].
  cbn zeta.
  set (l := propertyTransactionsOf s _propertyId).
  rewrite viewRequest_count_eq by lia.
  rewrite viewRequest_fill_eq;
    [|lia|rewrite length_replicate; cbn [drop]; lia].
  cbn [drop take app Nat.add].
  rewrite drop_replicate, Nat.sub_diag. cbn [replicate].
  rewrite app_nil_r. reflexivity.
Qed.

(** ** The record views *)

(** An invariant of the transitions holds in every state reached from
    deployment. *)
Lemma run_invariant (I : State → Prop) cs s :
  (∀ ctx s s' log c, Transition ctx s s' log c → wellFormed s → I s → I s') →
  wellFormed s → I s → I (run cs s).1.
Proof.
  intros Hstep. revert s. induction cs as [|[ctx c] cs IH]; intros s Hwf Hinv;
    [exact Hinv|].
  rewrite run_cons. cbn [fst]. apply IH; [apply step_wellFormed, Hwf|].
  destruct (step_cases ctx c s) as [(s' & log & Hc & ->)|(e & _ & ->)];
    cbn [fst]; [|exact Hinv].
  eapply Hstep; eauto using call_Transition.
Qed.

Lemma reachable_invariant (I : State → Prop) deployer cs :
  (∀ ctx s s' log c, Transition ctx s s' log c → wellFormed s → I s → I s') →
  I (deployed deployer) → I (finalState cs (deployed deployer)).
Proof.
  intros Hstep H0. unfold finalState.
  apply run_invariant; auto using deployed_wellFormed.
Qed.

Lemma reachable_wellFormed deployer cs :
  wellFormed (finalState cs (deployed deployer)).
Proof. apply run_wellFormed, deployed_wellFormed. Qed.

Lemma getProperty_Ok_iff s i P :
  wellFormed s → getProperty s i = Ok P ↔ properties s !! i = Some P.
Proof.
  intros Hwf. unfold getProperty. split.
  - destruct (N.eqb_spec (p_id (propertyAt s i)) 0) as [E|Hne]; cbn [negb];
      [discriminate|].
    intros [= <-]. apply propertyAt_exists. exact Hne.
  - intros HP. rewrite (propertyAt_Some _ _ _ HP).
    destruct (wf_properties _ Hwf _ _ HP) as (-> & Hnz & _).
    rewrite (proj2 (N.eqb_neq i 0)) by exact Hnz. reflexivity.
Qed.

Lemma getProperty_Err s i :
  properties s !! i = None →
  getProperty s i = Err (Revert "Property does not exist").
Proof.
  intros HP. unfold getProperty, propertyAt. rewrite HP. reflexivity.
Qed.

Lemma getTransaction_Ok_iff s i T :
  wellFormed s → getTransaction s i = Ok T ↔ transactions s !! i = Some T.
Proof.
  intros Hwf. unfold getTransaction. split.
  - destruct (N.eqb_spec (t_id (transactionAt s i)) 0) as [E|Hne]; cbn [negb];
      [discriminate|].
    intros [= <-]. apply transactionAt_exists. exact Hne.
  - intros HT. rewrite (transactionAt_Some _ _ _ HT).
    destruct (wf_transactions _ Hwf _ _ HT) as (-> & Hnz & _).
    rewrite (proj2 (N.eqb_neq i 0)) by exact Hnz. reflexivity.
Qed.

Lemma getTransaction_Err s i :
  transactions s !! i = None →
  getTransaction s i = Err (Revert "Transaction does not exist").
Proof.
  intros HT. unfold getTransaction, transactionAt. rewrite HT. reflexivity.
Qed.

Lemma idsDense_replace s s' pid P' :
  properties s' = <[pid := P']> (properties s) →
  propertyIds s' = propertyIds s →
  transactionIds s' = transactionIds s →
  transactions s' = transactions s →
  idsDense s → idsDense s'.
Proof.
  intros Hp Hn Htn Ht [H1 H2]. split.
  - intros i Hpos Hle. rewrite Hp. apply lookup_insert_is_Some'. right.
    apply H1; [exact Hpos|]. rewrite <- Hn. exact Hle.
  - intros i Hpos Hle. rewrite Ht. apply H2; [exact Hpos|].
    rewrite <- Htn. exact Hle.
Qed.

Lemma idsDense_update s s' pid P' tid T' :
  properties s' = <[pid := P']> (properties s) →
  transactions s' = <[tid := T']> (transactions s) →
  propertyIds s' = propertyIds s →
  transactionIds s' = transactionIds s →
  idsDense s → idsDense s'.
Proof.
  intros Hp Ht Hn Htn [H1 H2]. split.
  - intros i Hpos Hle. rewrite Hp. apply lookup_insert_is_Some'. right.
    apply H1; [exact Hpos|]. rewrite <- Hn. exact Hle.
  - intros i Hpos Hle. rewrite Ht. apply lookup_insert_is_Some'. right.
    apply H2; [exact Hpos|]. rewrite <- Htn. exact Hle.
Qed.

Lemma Transition_idsDense ctx s s' log c :
  Transition ctx s s' log c → wellFormed s → idsDense s → idsDense s'.
Proof.
  intros HT _ Hinv. destruct HT;
    try (destruct Hreplaced;
         eapply (idsDense_replace s s'); eauto; fail);
    try (eapply (idsDense_update s s'); eauto; fail).
  - destruct Hsame as [Hn Htn Hp Ht Ho He]. destruct Hinv as [H1 H2].
    split; intros i; rewrite ?Hp, ?Hn, ?Ht, ?Htn; auto.
  - destruct Hinv as [H1 H2]. split.
    + intros i Hpos Hle. rewrite Hproperties, HpropertyIds in *.
      apply lookup_insert_is_Some'.
      destruct (N.eq_dec i (propertyIds s + 1)) as [->|Hne]; [left; reflexivity|].
      right. apply H1; lia.
    + intros i. rewrite Htransactions, HtransactionIds. auto.
  - destruct Hinv as [H1 H2]. split.
    + intros i Hpos Hle. rewrite Hproperties. apply lookup_insert_is_Some'.
      right. apply H1; [exact Hpos|]. rewrite <- HpropertyIds. exact Hle.
    + intros i Hpos Hle. rewrite Htransactions, HtransactionIds in *.
      apply lookup_insert_is_Some'.
      destruct (N.eq_dec i (transactionIds s + 1)) as [->|Hne]; [left; reflexivity|].
      right. apply H2; lia.
Qed.

Lemma deployed_idsDense deployer : idsDense (deployed deployer).
Proof.
  destruct (deployed_state deployer) as (_ & _ & _ & Hn & Htn & _).
  split; intros i Hpos Hle; rewrite ?Hn, ?Htn in Hle; lia.
Qed.

(** X2: in every state reached from deployment, [getProperty] and
    [getTransaction] succeed exactly on the ids issued so far, 1 up to the
    counter ([getTotalProperties] for properties), and return the record
    stored under that id; for id 0 and for ids past the counter they revert
    with their does-not-exist reason. *)
Theorem X2_record_views_succeed_on_issued_ids deployer cs i :
  let s := finalState cs (deployed deployer) in
  (0 < i ∧ i <= getTotalProperties s →
     ∃ P, getProperty s i = Ok P ∧ p_id P = i) ∧
  (i = 0 ∨ getTotalProperties s < i →
     getProperty s i = Err (Revert "Property does not exist")) ∧
  (0 < i ∧ i <= transactionIds s →
     ∃ T, getTransaction s i = Ok T ∧ t_id T = i) ∧
  (i = 0 ∨ transactionIds s < i →
     getTransaction s i = Err (Revert "Transaction does not exist")).
Proof.
  intros s.
  assert (wellFormed s) as Hwf by apply reachable_wellFormed.
  assert (idsDense s) as [H1 H2].
  { apply reachable_invariant;
      [apply Transition_idsDense | apply deployed_idsDense]. }
  unfold getTotalProperties. repeat split.
  - intros [Hpos Hle]. destruct (H1 i Hpos Hle) as [P HP]. exists P.
    split; [apply getProperty_Ok_iff; assumption|].
    apply (wf_properties _ Hwf _ _ HP).
  - intros Hout. apply getProperty_Err.
    destruct (properties s !! i) as [P|] eqn:HP; [|reflexivity].
    destruct (wf_properties _ Hwf _ _ HP) as (_ & Hnz & Hle). lia.
  - intros [Hpos Hle]. destruct (H2 i Hpos Hle) as [T HT]. exists T.
    split; [apply getTransaction_Ok_iff; assumption|].
    apply (wf_transactions _ Hwf _ _ HT).
  - intros Hout. apply getTransaction_Err.
    destruct (transactions s !! i) as [T|] eqn:HT; [|reflexivity].
    destruct (wf_transactions _ Hwf _ _ HT) as (_ & Hnz & Hle & _). lia.
Qed.

(** ** The owner index is exact *)

Lemma removeOwned_keeps s old pid a x :
  x ∈ ownerPropertiesOf s a → x ≠ pid →
  x ∈ default [] (removeOwned s old pid !! a).
Proof.
  intros Hin Hne. destruct (decide (a = old)) as [->|Ha].
  - unfold removeOwned.
    destruct (firstIndexFrom _ 0 _ pid) as [j|] eqn:E; [|exact Hin].
    rewrite lookup_insert_eq. cbn [default from_option id].
    apply firstIndexFrom_Some in E.
    rewrite (swapPop_Permutation _ _ _ E).
    destruct (list_elem_of_split_length _ _ _ E) as (l1 & l2 & Hl & Hlen).
    rewrite Hl in Hin |- *. subst j. rewrite delete_middle.
    rewrite elem_of_app, elem_of_cons in Hin. rewrite elem_of_app. tauto.
  - rewrite removeOwned_lookup_ne by exact Ha. exact Hin.
Qed.

Lemma ownersListed_replace s s' pid P' :
  properties s' = <[pid := P']> (properties s) →
  ownerProperties s' = ownerProperties s →
  is_Some (properties s !! pid) →
  p_owner P' = p_owner (propertyAt s pid) →
  ownersListed s → ownersListed s'.
Proof.
  intros Hp Ho [P0 HP0] Hown Hinv p P. rewrite Hp.
  rewrite (ownerPropertiesOf_same _ _ _ Ho).
  intros HP. apply lookup_insert_Some in HP as [[<- <-]|[Hne HP]].
  - rewrite Hown, (propertyAt_Some _ _ _ HP0). apply Hinv. exact HP0.
  - apply Hinv. exact HP.
Qed.

Lemma Transition_ownersListed ctx s s' log c :
  Transition ctx s s' log c → wellFormed s → ownersListed s → ownersListed s'.
Proof.
  intros HT Hwf Hinv. destruct HT;
    try (destruct Hreplaced;
         eapply (ownersListed_replace s s'); eauto using propertyAt_exists;
         try (destruct approve); reflexivity).
  - destruct Hsame as [Hn Htn Hp Ht Ho He]. intros p P.
    rewrite (ownerPropertiesOf_same _ _ _ Ho), Hp. apply Hinv.
  - intros p P. rewrite Hproperties. unfold ownerPropertiesOf at 1.
    rewrite HownerProperties. intros HP.
    apply lookup_insert_Some in HP as [[<- <-]|[Hne HP]]; cbn [p_owner].
    + rewrite lookup_insert_eq. cbn [default from_option id].
      apply elem_of_app. right. apply list_elem_of_singleton. reflexivity.
    + destruct (decide (p_owner P = o)) as [E|Hno].
      * rewrite E, lookup_insert_eq. cbn [default from_option id].
        apply elem_of_app. left. rewrite <- E. apply Hinv. exact HP.
      * rewrite lookup_insert_ne by auto. apply Hinv. exact HP.
  - eapply (ownersListed_replace s s'); eauto using propertyAt_exists.
  - pose proof (transactionAt_exists _ _ Hexists) as HT.
    pose proof (wf_transaction_property _ _ _ Hwf HT) as HP.
    eapply (ownersListed_replace s s'); eauto. destruct approve; reflexivity.
  - cbn zeta in HownerProperties.
    pose proof (transactionAt_exists _ _ Hexists) as HT.
    pose proof (wf_transaction_property _ _ _ Hwf HT) as HP0.
    intros p P. rewrite Hproperties. unfold ownerPropertiesOf at 1.
    rewrite HownerProperties. intros HP.
    apply lookup_insert_Some in HP as [[<- <-]|[Hne HP]]; cbn [p_owner].
    + cbn. rewrite lookup_insert_eq. cbn [default from_option id].
      apply elem_of_app. right. apply list_elem_of_singleton. reflexivity.
    + assert (p ∈ default [] (removeOwned s
                (p_owner (propertyAt s (t_propertyId (transactionAt s tid))))
                (t_propertyId (transactionAt s tid)) !! p_owner P)) as Hkeep.
      { apply removeOwned_keeps; [apply Hinv; exact HP|]. congruence. }
      destruct (decide (p_owner P = t_buyer (transactionAt s tid))) as [E|Hnb].
      * rewrite E, lookup_insert_eq. cbn [default from_option id].
        apply elem_of_app. left. rewrite <- E. exact Hkeep.
      * rewrite lookup_insert_ne by auto. exact Hkeep.
Qed.

Lemma deployed_ownersListed deployer : ownersListed (deployed deployer).
Proof.
  destruct (deployed_state deployer) as (Hp & _).
  intros p P. rewrite Hp, lookup_empty. discriminate.
Qed.

Lemma reachable_indexOk deployer cs : indexOk (finalState cs (deployed deployer)).
Proof.
  apply run_indexOk; [apply deployed_wellFormed | apply deployed_indexOk].
Qed.

(** X3: in every state reached from deployment, [getOwnerProperties]
    (and [viewAssets], which returns the same list) holds exactly the ids
    of the properties whose record names that owner, each of them once. *)
Theorem X3_owner_index_is_exact deployer cs a p :
  let s := finalState cs (deployed deployer) in
  (p ∈ getOwnerProperties s a ↔ ∃ P, getProperty s p = Ok P ∧ p_owner P = a) ∧
  NoDup (getOwnerProperties s a) ∧
  viewAssets s a = getOwnerProperties s a.
Proof.
  intros s.
  assert (wellFormed s) as Hwf by apply reachable_wellFormed.
  assert (ownersListed s) as Hlisted.
  { apply reachable_invariant;
      [apply Transition_ownersListed | apply deployed_ownersListed]. }
  destruct (reachable_indexOk deployer cs a) as [Hnd Hel]. fold s in Hnd, Hel.
  unfold getOwnerProperties, viewAssets. repeat split; [| |exact Hnd].
  - intros Hin. destruct (Hel p Hin) as (P & HP & Ha). exists P.
    split; [apply getProperty_Ok_iff; assumption|exact Ha].
  - intros (P & HP & <-). apply Hlisted.
    apply getProperty_Ok_iff; assumption.
Qed.

(** ** The status of a property *)

Lemma statusOk_step s s' pid P' :
  properties s' = <[pid := P']> (properties s) →
  propertyOk P' →
  (∀ i T', transactions s' !! i = Some T' →
     t_status T' ≠ TS_Cancelled ∧
     (t_propertyId T' = pid ∧ approvedOnce P' ∨
      t_propertyId T' ≠ pid ∧ approvedOnce (propertyAt s (t_propertyId T')))) →
  statusOk s → statusOk s'.
Proof.
  intros Hp HP' Ht [H1 H2]. split.
  - intros p P. rewrite Hp. intros HP.
    apply lookup_insert_Some in HP as [[<- <-]|[Hne HP]]; eauto.
  - intros i T HT. destruct (Ht i T HT) as (Hc & [[E Ha]|[Hne Ha]]).
    + split; [exact Hc|]. rewrite E, (propertyAt_insert_eq _ _ _ _ Hp). exact Ha.
    + split; [exact Hc|].
      rewrite (propertyAt_insert_ne _ _ _ _ _ Hp) by exact Hne. exact Ha.
Qed.

Lemma statusOk_replace s s' pid P' :
  properties s' = <[pid := P']> (properties s) →
  transactions s' = transactions s →
  propertyOk P' →
  (approvedOnce (propertyAt s pid) → approvedOnce P') →
  statusOk s → statusOk s'.
Proof.
  intros Hp Ht HP' Hkeep Hinv.
  apply (statusOk_step s s' pid P' Hp HP'); [|exact Hinv].
  intros i T. rewrite Ht. intros HT.
  destruct (proj2 Hinv i T HT) as [Hc Ha]. split; [exact Hc|].
  destruct (decide (t_propertyId T = pid)) as [E|Hne]; [left|right]; split; auto.
  apply Hkeep. rewrite <- E. exact Ha.
Qed.

Lemma propertyOk_at s pid :
  statusOk s → p_id (propertyAt s pid) ≠ 0 → propertyOk (propertyAt s pid).
Proof.
  intros [H1 _] Hex. apply (H1 pid). apply propertyAt_exists. exact Hex.
Qed.

Lemma approvedOnce_active s pid :
  statusOk s → p_id (propertyAt s pid) ≠ 0 → approvedOnce (propertyAt s pid) →
  p_isActive (propertyAt s pid) = true.
Proof.
  intros Hinv Hex [_ Hnr]. destruct (propertyOk_at s pid Hinv Hex) as [_ Hiff].
  destruct (p_isActive (propertyAt s pid)); [reflexivity|].
  contradiction Hnr. apply Hiff. reflexivity.
Qed.

(** The property a transaction refers to. *)
Lemma transaction_property s tid :
  wellFormed s → statusOk s → t_id (transactionAt s tid) ≠ 0 →
  p_id (propertyAt s (t_propertyId (transactionAt s tid))) ≠ 0 ∧
  approvedOnce (propertyAt s (t_propertyId (transactionAt s tid))) ∧
  propertyOk (propertyAt s (t_propertyId (transactionAt s tid))) ∧
  p_isActive (propertyAt s (t_propertyId (transactionAt s tid))) = true.
Proof.
  intros Hwf Hinv Hex.
  pose proof (transactionAt_exists _ _ Hex) as HT.
  pose proof (wf_transaction_property _ _ _ Hwf HT) as HP.
  destruct (wf_properties _ Hwf _ _ HP) as (Hid & Hnz & _).
  assert (p_id (propertyAt s (t_propertyId (transactionAt s tid))) ≠ 0) as Hpex
    by congruence.
  destruct (proj2 Hinv _ _ HT) as [_ Ha].
  split; [exact Hpex|]. split; [exact Ha|].
  split; [apply propertyOk_at; assumption|].
  apply approvedOnce_active; assumption.
Qed.

Ltac status_facts :=
  repeat match goal with
  | |- approvedOnce _ → _ => intros [? ?]
  | |- propertyOk _ => split
  | |- approvedOnce _ => split
  | |- _ ↔ _ => split
  | |- _ ∧ _ => split
  end;
  cbn [p_status p_isActive with_p_owner with_p_marketValue with_p_ipfsHash
       with_p_status with_p_lastUpdated with_p_isActive];
  try (intros; congruence); try (intros; discriminate).

Lemma Transition_statusOk ctx s s' log c :
  Transition ctx s s' log c → wellFormed s → statusOk s → statusOk s'.
Proof.
  intros HT Hwf Hinv. destruct HT.
  - destruct Hsame as [Hn Htn Hp Ht Ho He]. destruct Hinv as [H1 H2].
    split; intros i x; rewrite ?Hp, ?Ht; [apply H1|].
    intros Hx. rewrite (propertyAt_same _ _ _ Hp). apply H2 with (i := i). exact Hx.
  - (* registerProperty *)
    eapply (statusOk_replace s s');
      [exact Hproperties|exact Htransactions| | |exact Hinv].
    + status_facts.
    + intros [Hne _]. exfalso.
      assert (properties s !! (propertyIds s + 1) = None) as Hfresh.
      { destruct (properties s !! (propertyIds s + 1)) as [P|] eqn:E; [|reflexivity].
        destruct (wf_properties _ Hwf _ _ E) as (_ & _ & Hle). lia. }
      unfold propertyAt in Hne. rewrite Hfresh in Hne. apply Hne. reflexivity.
  - (* approveProperty *)
    destruct Hreplaced.
    eapply (statusOk_replace s s'); [eassumption|assumption| | |exact Hinv].
    + destruct approve; status_facts.
    + intros [Hne _]. contradiction.
  - (* listPropertyForSale *)
    destruct Hreplaced.
    eapply (statusOk_replace s s'); [eassumption|assumption| | |exact Hinv];
      status_facts.
  - (* requestToPurchase *)
    eapply (statusOk_step s s'); [exact Hproperties| | |exact Hinv].
    + status_facts.
    + intros i T'. rewrite Htransactions. intros HT.
      apply lookup_insert_Some in HT as [[<- <-]|[Hne HT]].
      * split; [discriminate|]. left. status_facts. reflexivity.
      * destruct (proj2 Hinv i T' HT) as [Hc Ha]. split; [exact Hc|].
        destruct (decide (t_propertyId T' = pid)) as [E|Hnp]; [left|right];
          split; auto; status_facts.
  - (* processPurchaseRequest *)
    destruct (transaction_property s tid Hwf Hinv Hexists)
      as (Hpex & [Hnp Hnr] & [Hns Hiff] & Hact).
    pose proof (transactionAt_exists _ _ Hexists) as HT0.
    eapply (statusOk_step s s'); [exact Hproperties| | |exact Hinv].
    + destruct approve; status_facts.
    + intros i T'. rewrite Htransactions. intros HT.
      apply lookup_insert_Some in HT as [[<- <-]|[Hne HT]].
      * split; [destruct approve; discriminate|]. left.
        split; [reflexivity|]. destruct approve; status_facts.
      * destruct (proj2 Hinv i T' HT) as [Hc Ha]. split; [exact Hc|].
        destruct (decide (t_propertyId T' = t_propertyId (transactionAt s tid)))
          as [E|Hnp']; [left|right]; split; auto.
        destruct approve; status_facts.
  - (* completePurchase *)
    destruct (transaction_property s tid Hwf Hinv Hexists)
      as (Hpex & [Hnp Hnr] & [Hns Hiff] & Hact).
    eapply (statusOk_step s s'); [exact Hproperties| | |exact Hinv].
    + status_facts.
    + intros i T'. rewrite Htransactions. intros HT.
      apply lookup_insert_Some in HT as [[<- <-]|[Hne HT]].
      * split; [discriminate|]. left. split; [reflexivity|]. status_facts.
      * destruct (proj2 Hinv i T' HT) as [Hc Ha]. split; [exact Hc|].
        destruct (decide (t_propertyId T' = t_propertyId (transactionAt s tid)))
          as [E|Hnp']; [left|right]; split; auto.
        status_facts.
  - (* updatePropertyDocuments *)
    destruct Hreplaced. destruct (propertyOk_at s pid Hinv Hexists) as [Hns Hiff].
    eapply (statusOk_replace s s'); [eassumption|assumption| | |exact Hinv].
    + status_facts; tauto.
    + intros [? ?]. status_facts.
  - (* removeFromSale *)
    destruct Hreplaced.
    eapply (statusOk_replace s s'); [eassumption|assumption| | |exact Hinv];
      status_facts.
Qed.

Lemma deployed_statusOk deployer : statusOk (deployed deployer).
Proof.
  destruct (deployed_state deployer) as (Hp & Ht & _).
  split; intros i x; rewrite ?Hp, ?Ht, lookup_empty; discriminate.
Qed.

Lemma reachable_statusOk deployer cs : statusOk (finalState cs (deployed deployer)).
Proof.
  apply reachable_invariant; [apply Transition_statusOk | apply deployed_statusOk].
Qed.

Lemma statusEdge_refl x : statusEdge x x = true.
Proof. destruct x; reflexivity. Qed.

Lemma statusEdge_insert s s' pid P' p :
  properties s' = <[pid := P']> (properties s) →
  statusEdge (p_status (propertyAt s pid)) (p_status P') = true →
  statusEdge (p_status (propertyAt s p)) (p_status (propertyAt s' p)) = true.
Proof.
  intros Hp He. destruct (decide (p = pid)) as [->|Hne].
  - rewrite (propertyAt_insert_eq _ _ _ _ Hp). exact He.
  - rewrite (propertyAt_insert_ne _ _ _ _ _ Hp Hne). apply statusEdge_refl.
Qed.

Lemma approvedOnce_edges P :
  propertyOk P → approvedOnce P →
  statusEdge (p_status P) PS_ListedForSale = true ∧
  statusEdge (p_status P) PS_Approved = true.
Proof.
  intros [Hns _] [Hnp Hnr]. destruct (p_status P); try contradiction;
    split; reflexivity.
Qed.

Lemma Transition_statusEdge ctx s s' log c p :
  Transition ctx s s' log c → wellFormed s → statusOk s →
  statusEdge (p_status (propertyAt s p)) (p_status (propertyAt s' p)) = true.
Proof.
  intros HT Hwf Hinv. destruct HT;
    try (destruct Hreplaced as [Hproperties]);
    try (apply (statusEdge_insert s s' _ _ p Hproperties)).
  - destruct Hsame as [Hn Htn Hp Ht Ho He].
    rewrite (propertyAt_same _ _ _ Hp). apply statusEdge_refl.
  - assert (properties s !! (propertyIds s + 1) = None) as Hfresh.
    { destruct (properties s !! (propertyIds s + 1)) as [P|] eqn:E; [|reflexivity].
      destruct (wf_properties _ Hwf _ _ E) as (_ & _ & Hle). lia. }
    unfold propertyAt at 1. rewrite Hfresh. reflexivity.
  - rewrite Hstatus. destruct approve; reflexivity.
  - rewrite Hstatus. reflexivity.
  - rewrite Hstatus. reflexivity.
  - destruct (transaction_property s tid Hwf Hinv Hexists) as (_ & Ha & Hok & _).
    destruct approve; [apply statusEdge_refl|].
    apply (approvedOnce_edges _ Hok Ha).
  - destruct (transaction_property s tid Hwf Hinv Hexists) as (_ & Ha & Hok & _).
    apply (approvedOnce_edges _ Hok Ha).
  - apply statusEdge_refl.
  - destruct Hstatus as [-> | ->]; reflexivity.
Qed.

(** X4: from a state reached from deployment, no call moves the status
    of a property except along Pending to Approved or Rejected, Approved to
    ListedForSale, ListedForSale to SaleInProgress or Approved, and
    SaleInProgress to Approved or ListedForSale. *)
Theorem X4_property_status_moves_along_edges deployer cs ctx c p :
  let s := finalState cs (deployed deployer) in
  statusEdge (p_status (propertyAt s p))
             (p_status (propertyAt (step ctx c s).1 p)) = true.
Proof.
  intros s.
  destruct (step_cases ctx c s) as [(s' & log & Hc & ->)|(e & _ & ->)]; cbn [fst].
  - eapply Transition_statusEdge; eauto using call_Transition.
    + apply reachable_wellFormed.
    + apply reachable_statusOk.
  - apply statusEdge_refl.
Qed.

(** X5: in every state reached from deployment no property has status
    Sold and no transaction has status Cancelled: the contract declares both
    and assigns neither.  A property is inactive exactly when it is
    Rejected. *)
Theorem X5_sold_and_cancelled_are_never_assigned deployer cs i :
  let s := finalState cs (deployed deployer) in
  (∀ P, getProperty s i = Ok P →
        p_status P ≠ PS_Sold ∧ (p_isActive P = false ↔ p_status P = PS_Rejected)) ∧
  (∀ T, getTransaction s i = Ok T → t_status T ≠ TS_Cancelled).
Proof.
  intros s.
  assert (wellFormed s) as Hwf by apply reachable_wellFormed.
  destruct (reachable_statusOk deployer cs) as [H1 H2]. fold s in H1, H2.
  split.
  - intros P HP. apply getProperty_Ok_iff in HP; [|exact Hwf]. apply (H1 i P HP).
  - intros T HT. apply getTransaction_Ok_iff in HT; [|exact Hwf].
    apply (H2 i T HT).
Qed.

(** X6: in every state reached from deployment, [landInfoUser] returns
    what [getProperty] returns, except for the Rejected properties, for
    which it reverts with "Property is not active". *)
Theorem X6_landInfoUser_hides_rejected deployer cs i :
  let s := finalState cs (deployed deployer) in
  landInfoUser s i =
  match getProperty s i with
  | Ok P =>
      if bool_decide (p_status P = PS_Rejected)
      then Err (Revert "Property is not active") else Ok P
  | Err e => Err e
  end.
Proof.
  intros s.
  assert (wellFormed s) as Hwf by apply reachable_wellFormed.
  pose proof (reachable_statusOk deployer cs) as Hinv. fold s in Hinv.
  unfold landInfoUser, getProperty.
  destruct (N.eqb_spec (p_id (propertyAt s i)) 0) as [E|Hex]; cbn [negb];
    [reflexivity|].
  destruct (propertyOk_at s i Hinv Hex) as [_ Hiff].
  destruct (bool_decide_reflect (p_status (propertyAt s i) = PS_Rejected)) as [Hr|Hr].
  - rewrite (proj2 Hiff Hr). reflexivity.
  - destruct (p_isActive (propertyAt s i)); [reflexivity|].
    contradiction Hr. apply Hiff. reflexivity.
Qed.

(** ** Rejection is final *)

Lemma step_statusOk ctx c s : wellFormed s → statusOk s → statusOk (step ctx c s).1.
Proof.
  intros Hwf Hinv.
  destruct (step_cases ctx c s) as [(s' & log & Hc & ->)|(e & _ & ->)];
    cbn [fst]; [|exact Hinv].
  eapply Transition_statusOk; eauto using call_Transition.
Qed.

Lemma Transition_keeps_rejected ctx s s' log c p P :
  Transition ctx s s' log c → wellFormed s → statusOk s →
  properties s !! p = Some P → p_status P = PS_Rejected →
  properties s' !! p = Some P.
Proof.
  intros HT Hwf Hinv HP Hrej.
  pose proof (propertyAt_Some _ _ _ HP) as HPat.
  destruct (proj1 Hinv p P HP) as [_ Hiff].
  destruct HT; try (destruct Hreplaced as [Hproperties]);
    try (rewrite Hproperties; rewrite lookup_insert_ne; [exact HP|]; intros <-).
  - destruct Hsame as [Hn Htn Hp Ht Ho He]. rewrite Hp. exact HP.
  - destruct (wf_properties _ Hwf _ _ HP) as (_ & _ & Hle). lia.
  - congruence.
  - congruence.
  - congruence.
  - destruct (transaction_property s tid Hwf Hinv Hexists) as (_ & [_ Hnr] & _).
    congruence.
  - destruct (transaction_property s tid Hwf Hinv Hexists) as (_ & [_ Hnr] & _).
    congruence.
  - rewrite HPat, (proj2 Hiff Hrej) in Hactive. discriminate.
  - destruct Hstatus; congruence.
Qed.

Lemma run_keeps_rejected cs s p P :
  wellFormed s → statusOk s →
  properties s !! p = Some P → p_status P = PS_Rejected →
  properties (run cs s).1 !! p = Some P.
Proof.
  revert s. induction cs as [|[ctx c] cs IH]; intros s Hwf Hinv HP Hrej;
    [exact HP|].
  rewrite run_cons. cbn [fst].
  apply IH; [apply step_wellFormed, Hwf|apply step_statusOk; assumption| |exact Hrej].
  destruct (step_cases ctx c s) as [(s' & log & Hc & ->)|(e & _ & ->)];
    cbn [fst]; [|exact HP].
  eapply Transition_keeps_rejected; eauto using call_Transition.
Qed.

(** X7: a Rejected property is inactive, and whatever calls follow,
    [getProperty] keeps returning the very same record: its status, owner,
    documents and timestamps never change again. *)
Theorem X7_rejection_is_final deployer cs cs' p P :
  let s := finalState cs (deployed deployer) in
  getProperty s p = Ok P → p_status P = PS_Rejected →
  p_isActive P = false ∧ getProperty (finalState cs' s) p = Ok P.
Proof.
  intros s HP Hrej.
  assert (wellFormed s) as Hwf by apply reachable_wellFormed.
  pose proof (reachable_statusOk deployer cs) as Hinv. fold s in Hinv.
  apply getProperty_Ok_iff in HP; [|exact Hwf].
  split; [apply (proj1 Hinv p P HP); exact Hrej|].
  apply getProperty_Ok_iff; [apply run_wellFormed, Hwf|].
  apply run_keeps_rejected; assumption.
Qed.

Lemma X7_rejection_is_final_witness :
  let s := finalState scenarioRejected (deployed registrar) in
  let s' := finalState [(as_ registrar, ApproveProperty 1 true);
                        (as_ alice, ListPropertyForSale 1 150);
                        (as_ alice, UpdatePropertyDocuments 1 "QmOther")] s in
  p_status (propertyAt s 1) = PS_Rejected ∧
  p_isActive (propertyAt s 1) = false ∧
  getProperty s' 1 = Ok (propertyAt s 1).
Proof.
  intros s s'.
  assert (getProperty s 1 = Ok (propertyAt s 1)) as H1 by (vm_compute; reflexivity).
  assert (p_status (propertyAt s 1) = PS_Rejected) as H2 by (vm_compute; reflexivity).
  split; [exact H2|].
  apply (X7_rejection_is_final registrar scenarioRejected _ 1 _ H1 H2).
Defined.

Lemma inactive_refuses ctx c s p :
  p_isActive (propertyAt s p) = false → targetProperty c = Some p →
  ∃ e, call ctx c s = Err e.
Proof.
  intros Hina Htarget.
  destruct (call ctx c s) as [[s' log]|e] eqn:Hc; [exfalso|eauto].
  apply call_Transition in Hc.
  destruct Hc; try (destruct Hcall as [-> | ->]);
    cbn [targetProperty] in Htarget; try discriminate Htarget;
    try (injection Htarget as ->; congruence).
  destruct c; discriminate.
Qed.

(** X8: once a property is Rejected, every later call of
    [approveProperty], [listPropertyForSale], [requestToPurchase],
    [updatePropertyDocuments] and [removeFromSale] (and of the aliases
    [makeAvailable] and [requestToLandOwner]) on it reverts, whoever the
    caller is. *)
Theorem X8_rejected_property_refuses_every_call deployer cs cs' ctx c p P :
  let s := finalState cs (deployed deployer) in
  getProperty s p = Ok P → p_status P = PS_Rejected →
  targetProperty c = Some p →
  ∃ e, call ctx c (finalState cs' s) = Err e.
Proof.
  intros s HP Hrej Htarget.
  assert (wellFormed s) as Hwf by apply reachable_wellFormed.
  pose proof (reachable_statusOk deployer cs) as Hinv. fold s in Hinv.
  apply getProperty_Ok_iff in HP; [|exact Hwf].
  pose proof (run_keeps_rejected cs' s p P Hwf Hinv HP Hrej) as HP'.
  apply inactive_refuses with (p := p); [|exact Htarget].
  unfold finalState. rewrite (propertyAt_Some _ _ _ HP').
  apply (proj1 Hinv p P HP). exact Hrej.
Qed.

Lemma X8_rejected_property_refuses_every_call_witness :
  let s := finalState scenarioRejected (deployed registrar) in
  ∃ e, call (as_ registrar) (ApproveProperty 1 true)
         (finalState [(as_ alice, UpdatePropertyDocuments 1 "QmOther")] s) = Err e.
Proof.
  intros s.
  apply (X8_rejected_property_refuses_every_call registrar scenarioRejected
           [(as_ alice, UpdatePropertyDocuments 1 "QmOther")] (as_ registrar)
           (ApproveProperty 1 true) 1 (propertyAt s 1));
    vm_compute; reflexivity.
Defined.

Lemma sameRegistration_refl P : sameRegistration P P.
Proof. repeat split. Qed.

Lemma sameRegistration_trans P1 P2 P3 :
  sameRegistration P1 P2 → sameRegistration P2 P3 → sameRegistration P1 P3.
Proof.
  intros (? & ? & ? & ? & ? & ? & ?) (? & ? & ? & ? & ? & ? & ?).
  repeat split; congruence.
Qed.

Lemma sameRegistration_insert s s' pid P' p P :
  properties s' = <[pid := P']> (properties s) →
  sameRegistration (propertyAt s pid) P' →
  properties s !! p = Some P →
  ∃ P1, properties s' !! p = Some P1 ∧ sameRegistration P P1.
Proof.
  intros Hp Hsame HP. rewrite Hp. destruct (decide (p = pid)) as [->|Hne].
  - rewrite lookup_insert_eq. exists P'. split; [reflexivity|].
    rewrite (propertyAt_Some _ _ _ HP) in Hsame. exact Hsame.
  - rewrite lookup_insert_ne by auto. exists P.
    split; [exact HP|apply sameRegistration_refl].
Qed.

Lemma Transition_sameRegistration ctx s s' log c p P :
  Transition ctx s s' log c → wellFormed s →
  properties s !! p = Some P →
  ∃ P', properties s' !! p = Some P' ∧ sameRegistration P P'.
Proof.
  intros HT Hwf HP. destruct HT; try (destruct Hreplaced as [Hproperties]);
    try (apply (sameRegistration_insert s s' _ _ p P Hproperties); [|exact HP];
         try destruct approve; repeat split; fail).
  - destruct Hsame as [Hn Htn Hp Ht Ho He]. exists P. rewrite Hp.
    split; [exact HP|apply sameRegistration_refl].
  - exists P. rewrite Hproperties, lookup_insert_ne.
    + split; [exact HP|apply sameRegistration_refl].
    + destruct (wf_properties _ Hwf _ _ HP) as (_ & _ & Hle). lia.
Qed.

Lemma run_sameRegistration cs s p P :
  wellFormed s → properties s !! p = Some P →
  ∃ P', properties (run cs s).1 !! p = Some P' ∧ sameRegistration P P'.
Proof.
  revert s P. induction cs as [|[ctx c] cs IH]; intros s P Hwf HP.
  - exists P. split; [exact HP|apply sameRegistration_refl].
  - rewrite run_cons. cbn [fst].
    assert (∃ P1, properties (step ctx c s).1 !! p = Some P1 ∧ sameRegistration P P1)
      as (P1 & H1 & HS1).
    { destruct (step_cases ctx c s) as [(s' & log & Hc & ->)|(e & _ & ->)];
        cbn [fst].
      - eapply Transition_sameRegistration; eauto using call_Transition.
      - exists P. split; [exact HP|apply sameRegistration_refl]. }
    destruct (IH (step ctx c s).1 P1 (step_wellFormed _ _ _ Hwf) H1)
      as (P2 & H2 & HS2).
    exists P2. split; [exact H2|]. eapply sameRegistration_trans; eassumption.
Qed.

(** X9: the registration data of a property (its id, state, district,
    village, survey number, identifier string and registration time) are the
    same after any sequence of calls; only the owner, market value,
    documents, status, update time and active flag are ever written. *)
Theorem X9_registration_data_is_immutable deployer cs cs' p P :
  let s := finalState cs (deployed deployer) in
  getProperty s p = Ok P →
  ∃ P', getProperty (finalState cs' s) p = Ok P' ∧ sameRegistration P P'.
Proof.
  intros s HP.
  assert (wellFormed s) as Hwf by apply reachable_wellFormed.
  apply getProperty_Ok_iff in HP; [|exact Hwf].
  destruct (run_sameRegistration cs' s p P Hwf HP) as (P' & HP' & Hsame).
  exists P'. split; [|exact Hsame].
  apply getProperty_Ok_iff; [apply run_wellFormed, Hwf|exact HP'].
Qed.

Lemma X9_registration_data_is_immutable_witness :
  let s := finalState scenarioRegistered (deployed registrar) in
  ∃ P', getProperty
          (finalState [(as_ registrar, ApproveProperty 1 true);
                       (as_ alice, ListPropertyForSale 1 150);
                       (as_ bob, RequestToPurchase 1 150 "QmHash456" 150);
                       (as_ alice, ProcessPurchaseRequest 1 true);
                       (as_ bob, CompletePurchase 1)] s) 1 = Ok P' ∧
        sameRegistration (propertyAt s 1) P'.
Proof.
  intros s.
  apply (X9_registration_data_is_immutable registrar scenarioRegistered _ 1
           (propertyAt s 1)).
  vm_compute. reflexivity.
Defined.

(** ** The life of a transaction *)

Lemma sameTerms_refl T : sameTerms T T.
Proof. repeat split. Qed.

Lemma statusLater_refl x : statusLater x x = true.
Proof. destruct x; reflexivity. Qed.

Lemma statusLater_trans x y z :
  statusLater x y = true → statusLater y z = true → statusLater x z = true.
Proof. destruct x, y, z; cbn; auto. Qed.

Lemma laterOf_refl T : laterOf T T.
Proof. split; [apply sameTerms_refl|]. split; [apply statusLater_refl|auto]. Qed.

Lemma laterOf_trans T1 T2 T3 : laterOf T1 T2 → laterOf T2 T3 → laterOf T1 T3.
Proof.
  intros (Hs1 & Hl1 & Hc1) (Hs2 & Hl2 & Hc2). split; [|split].
  - destruct Hs1 as (? & ? & ? & ? & ? & ? & ?).
    destruct Hs2 as (? & ? & ? & ? & ? & ? & ?).
    repeat split; congruence.
  - eapply statusLater_trans; eassumption.
  - intros Hclosed. rewrite <- (Hc1 Hclosed). apply Hc2.
    rewrite (Hc1 Hclosed). exact Hclosed.
Qed.

Lemma Transition_laterOf ctx s s' log c i T :
  Transition ctx s s' log c → wellFormed s →
  transactions s !! i = Some T →
  ∃ T', transactions s' !! i = Some T' ∧ laterOf T T'.
Proof.
  intros HT Hwf Hi.
  pose proof (transactionAt_Some _ _ _ Hi) as Hat.
  destruct HT; try (destruct Hreplaced as [? ? ? Htransactions]);
    try (exists T; rewrite Htransactions; split; [exact Hi|apply laterOf_refl]).
  - destruct Hsame as [Hn Htn Hp Ht Ho He]. exists T. rewrite Ht.
    split; [exact Hi|apply laterOf_refl].
  - exists T. rewrite Htransactions. rewrite lookup_insert_ne.
    + split; [exact Hi|apply laterOf_refl].
    + destruct (wf_transactions _ Hwf _ _ Hi) as (_ & _ & Hle & _). lia.
  - rewrite Htransactions. destruct (decide (i = tid)) as [->|Hne].
    + rewrite lookup_insert_eq. eexists. split; [reflexivity|].
      rewrite Hat in *. split; [repeat split|]. split.
      * cbn. rewrite Hstatus. destruct approve; reflexivity.
      * rewrite Hstatus. intros [?|?]; discriminate.
    + rewrite lookup_insert_ne by auto. exists T.
      split; [exact Hi|apply laterOf_refl].
  - rewrite Htransactions. destruct (decide (i = tid)) as [->|Hne].
    + rewrite lookup_insert_eq. eexists. split; [reflexivity|].
      rewrite Hat in *. split; [repeat split|]. split.
      * cbn. rewrite Hstatus. reflexivity.
      * rewrite Hstatus. intros [?|?]; discriminate.
    + rewrite lookup_insert_ne by auto. exists T.
      split; [exact Hi|apply laterOf_refl].
Qed.

Lemma run_laterOf cs s i T :
  wellFormed s → transactions s !! i = Some T →
  ∃ T', transactions (run cs s).1 !! i = Some T' ∧ laterOf T T'.
Proof.
  revert s T. induction cs as [|[ctx c] cs IH]; intros s T Hwf Hi.
  - exists T. split; [exact Hi|apply laterOf_refl].
  - rewrite run_cons. cbn [fst].
    assert (∃ T1, transactions (step ctx c s).1 !! i = Some T1 ∧ laterOf T T1)
      as (T1 & H1 & HL1).
    { destruct (step_cases ctx c s) as [(s' & log & Hc & ->)|(e & _ & ->)];
        cbn [fst].
      - eapply Transition_laterOf; eauto using call_Transition.
      - exists T. split; [exact Hi|apply laterOf_refl]. }
    destruct (IH (step ctx c s).1 T1 (step_wellFormed _ _ _ Hwf) H1)
      as (T2 & H2 & HL2).
    exists T2. split; [exact H2|]. eapply laterOf_trans; eassumption.
Qed.

(** X10: the terms of a transaction (id, property, seller, buyer, price,
    request time and document hash) never change after the request.  Its
    status only moves from Pending to Approved or Rejected and from Approved
    to Completed, and once it is Rejected or Completed the whole record,
    completion time included, stays as it is. *)
Theorem X10_transaction_terms_are_fixed deployer cs cs' i T :
  let s := finalState cs (deployed deployer) in
  getTransaction s i = Ok T →
  ∃ T', getTransaction (finalState cs' s) i = Ok T' ∧
        sameTerms T T' ∧
        statusLater (t_status T) (t_status T') = true ∧
        (t_status T = TS_Rejected ∨ t_status T = TS_Completed → T' = T).
Proof.
  intros s HT.
  assert (wellFormed s) as Hwf by apply reachable_wellFormed.
  apply getTransaction_Ok_iff in HT; [|exact Hwf].
  destruct (run_laterOf cs' s i T Hwf HT) as (T' & HT' & HL).
  exists T'. split; [|exact HL].
  apply getTransaction_Ok_iff; [apply run_wellFormed, Hwf|exact HT'].
Qed.

Lemma X10_transaction_terms_are_fixed_witness :
  let s := finalState scenarioRequested (deployed registrar) in
  let s' := finalState [(as_ alice, ProcessPurchaseRequest 1 true);
                        (as_ bob, CompletePurchase 1)] s in
  ∃ T', getTransaction s' 1 = Ok T' ∧
        sameTerms (transactionAt s 1) T' ∧
        statusLater (t_status (transactionAt s 1)) (t_status T') = true ∧
        (t_status (transactionAt s 1) = TS_Rejected
         ∨ t_status (transactionAt s 1) = TS_Completed → T' = transactionAt s 1).
Proof.
  intros s s'.
  assert (getTransaction s 1 = Ok (transactionAt s 1)) as H1
    by (vm_compute; reflexivity).
  apply (X10_transaction_terms_are_fixed registrar scenarioRequested _ 1 _ H1).
Defined.

(** In any state, what [processPurchaseRequest] does when the
    transaction is no longer Pending, and [completePurchase] when it is
    not Approved. *)
Lemma processPurchaseRequest_not_pending ctx tid approve s :
  t_status (transactionAt s tid) ≠ TS_Pending →
  ∃ e, call ctx (ProcessPurchaseRequest tid approve) s = Err e ∧
       (paused s = false → entered s = false →
        t_id (transactionAt s tid) ≠ 0 →
        t_seller (transactionAt s tid) = msg_sender ctx →
        e = Revert "Transaction already processed").
Proof.
  intros Hst.
  destruct (call ctx (ProcessPurchaseRequest tid approve) s) as [[s' log]|e] eqn:Hc.
  - apply processPurchaseRequest_Transition in Hc as ((_ & _ & _ & _ & E) & _).
    contradiction.
  - exists e. split; [reflexivity|]. intros Hp He Hid Hs.
    revert Hc. start_call. meval.
    rewrite bind_require_false by solve_cond. congruence.
Qed.

Lemma completePurchase_not_approved ctx tid s :
  t_status (transactionAt s tid) ≠ TS_Approved →
  ∃ e, call ctx (CompletePurchase tid) s = Err e ∧
       (paused s = false → entered s = false →
        t_id (transactionAt s tid) ≠ 0 →
        e = Revert "Transaction must be approved first").
Proof.
  intros Hst.
  destruct (call ctx (CompletePurchase tid) s) as [[s' log]|e] eqn:Hc.
  - apply completePurchase_Transition in Hc as ((_ & _ & _ & E & _) & _).
    contradiction.
  - exists e. split; [reflexivity|]. intros Hp He Hid.
    revert Hc. start_call. meval.
    rewrite bind_require_false by solve_cond. congruence.
Qed.

(** X11: a transaction that is no longer Pending is never processed
    again: whatever calls follow, [processPurchaseRequest] on it reverts
    (with "Transaction already processed" when the seller calls an unpaused
    registry), and unless it is Approved [completePurchase] reverts as well
    (with "Transaction must be approved first"). *)
Theorem X11_decided_transaction_stays_decided deployer cs cs' ctx i T approve :
  let s := finalState cs (deployed deployer) in
  let s' := finalState cs' s in
  getTransaction s i = Ok T → t_status T ≠ TS_Pending →
  (∃ e, call ctx (ProcessPurchaseRequest i approve) s' = Err e ∧
        (paused s' = false → t_seller T = msg_sender ctx →
         e = Revert "Transaction already processed")) ∧
  (t_status T ≠ TS_Approved →
   ∃ e, call ctx (CompletePurchase i) s' = Err e ∧
        (paused s' = false → e = Revert "Transaction must be approved first")).
Proof.
  intros s s' HT Hnp.
  assert (wellFormed s) as Hwf by apply reachable_wellFormed.
  assert (wellFormed s') as Hwf' by apply run_wellFormed, Hwf.
  apply getTransaction_Ok_iff in HT; [|exact Hwf].
  destruct (run_laterOf cs' s i T Hwf HT) as (T' & HT' & Hterms & Hlater & _).
  fold (finalState cs' s) in HT'. fold s' in HT'.
  pose proof (transactionAt_Some _ _ _ HT') as Hat.
  destruct (wf_transactions _ Hwf' _ _ HT') as (Hid & Hnz & _).
  destruct Hterms as (_ & _ & Hseller & _).
  split.
  - destruct (processPurchaseRequest_not_pending ctx i approve s') as (e & Hc & He).
    { rewrite Hat. intros E. rewrite E in Hlater.
      destruct (t_status T); try discriminate Hlater. contradiction. }
    exists e. split; [exact Hc|]. intros Hp Hs. apply He; auto.
    + apply (wf_entered _ Hwf').
    + rewrite Hat. congruence.
    + rewrite Hat. congruence.
  - intros Hna.
    destruct (completePurchase_not_approved ctx i s') as (e & Hc & He).
    { rewrite Hat. intros E. rewrite E in Hlater.
      destruct (t_status T); try discriminate Hlater; contradiction. }
    exists e. split; [exact Hc|]. intros Hp. apply He; auto.
    + apply (wf_entered _ Hwf').
    + rewrite Hat. congruence.
Qed.

Lemma X11_decided_transaction_stays_decided_witness :
  let s := finalState scenarioOverpaidRejected (deployed registrar) in
  let s' := finalState [(as_ carol, RequestToPurchase 1 150 "QmHash789" 150)] s in
  (∃ e, call (as_ alice) (ProcessPurchaseRequest 1 true) s' = Err e ∧
        (paused s' = false → t_seller (transactionAt s 1) = msg_sender (as_ alice) →
         e = Revert "Transaction already processed")) ∧
  (t_status (transactionAt s 1) ≠ TS_Approved →
   ∃ e, call (as_ alice) (CompletePurchase 1) s' = Err e ∧
        (paused s' = false → e = Revert "Transaction must be approved first")).
Proof.
  intros s s'.
  apply (X11_decided_transaction_stays_decided registrar scenarioOverpaidRejected
           [(as_ carol, RequestToPurchase 1 150 "QmHash789" 150)] (as_ alice) 1
           (transactionAt s 1) true);
    [vm_compute; reflexivity | vm_compute; discriminate].
Defined.

(** ** What a call changes of the registrations and the indexes *)

Lemma pushVillages_villages a vs s l r :
  pushVillages a vs s l = Ok r →
  ∃ s' l', r = (tt, s', l') ∧
    propertyTransactions s' = propertyTransactions s ∧
    registeredUsers s' = registeredUsers s ∧
    userRoles s' = userRoles s ∧
    roles s' = roles s ∧
    villagesOf s' a = (villagesOf s a ++ vs)%list ∧
    ∀ b, b ≠ a → villagesOf s' b = villagesOf s b.
Proof.
  revert s l. induction vs as [|v vs IH]; intros s l H; cbn [pushVillages] in H.
  - minv. exists s, l. rewrite app_nil_r. repeat split; auto.
  - minv. apply IH in H as (s' & l' & -> & H1 & H2 & H3 & H4 & H5 & H6).
    exists s', l'. sunfold. repeat split; auto.
    + rewrite H5, lookup_insert_eq. cbn [default from_option id].
      rewrite <- app_assoc. reflexivity.
    + intros b Hb. rewrite (H6 b Hb), lookup_insert_ne by auto. reflexivity.
Qed.

Ltac registered_case a :=
  sunfold;
  repeat match goal with
  | |- context [<[?u := _]> _ !! a] =>
      destruct (decide (u = a)) as [->|?];
      [rewrite lookup_insert_eq | rewrite lookup_insert_ne by assumption]
  end;
  cbn [default from_option id];
  try rewrite bool_decide_eq_true_2 by reflexivity;
  try rewrite bool_decide_eq_false_2 by congruence;
  try match goal with
      | |- context [bool_decide (Some ?x = Some ?y)] =>
          destruct (decide (x = y)) as [?|?];
          [subst; rewrite bool_decide_eq_true_2 by reflexivity
          |rewrite bool_decide_eq_false_2 by congruence]
      end;
  rewrite ?orb_true_r, ?orb_false_r; try reflexivity; try congruence.

Ltac frame_case :=
  split; [sunfold; try reflexivity
         |split; [let a := fresh "a" in intros a; registered_case a
                 |let b := fresh "b" in intros b; sunfold; try reflexivity]].

Lemma call_registry_frame ctx c s s' log :
  call ctx c s = Ok (s', log) →
  propertyTransactions s' = propertyTransactionsAfter s c ∧
  (∀ a, isRegistered s' a =
        isRegistered s a || bool_decide (registeredBy s c = Some a)) ∧
  (∀ b, villagesOf s' b = villagesAfter s c b).
Proof.
  intros H. destruct c; cbn [propertyTransactionsAfter registeredBy villagesAfter].
  - call_inv H; frame_case.
  - call_inv H; frame_case.
  - call_inv H; frame_case.
  - call_inv H; frame_case.
  - call_inv H; frame_case.
  - call_inv H; frame_case.
  - call_inv H; frame_case.
  - call_inv H; frame_case.
  - call_inv H; frame_case.
  - call_inv H.
    all: match goal with
         | Hp : pushVillages _ _ _ _ = Ok _ |- _ =>
             apply pushVillages_villages in Hp
               as (s1 & l1 & E & H1 & H2 & H3 & H4 & H5 & H6)
         end; minv.
    all: split; [rewrite H1; reflexivity|].
    all: split;
      [intros a; unfold isRegistered at 1; rewrite H2; registered_case a|].
    all: intros b; destruct (bool_decide_reflect (b = _superadmin)) as [->|Hne];
      [rewrite H5|rewrite (H6 b Hne)]; reflexivity.
  - call_inv H; frame_case.
  - call_inv H; frame_case.
  - call_inv H; frame_case.
  - call_inv H; frame_case.
  - call_inv H; frame_case.
  - call_inv H; frame_case.
  - call_inv H; frame_case.
  - call_inv H; frame_case.
  - call_inv H; frame_case.
  - call_inv H; frame_case.
Qed.

(** ** The transaction list of a property *)

(** As [run_invariant], for invariants that are proved from the call
    itself. *)
Lemma run_call_invariant (I : State → Prop) cs s :
  (∀ ctx c s s' log, call ctx c s = Ok (s', log) → wellFormed s → I s → I s') →
  wellFormed s → I s → I (run cs s).1.
Proof.
  intros Hstep. revert s. induction cs as [|[ctx c] cs IH]; intros s Hwf Hinv;
    [exact Hinv|].
  rewrite run_cons. cbn [fst]. apply IH; [apply step_wellFormed, Hwf|].
  destruct (step_cases ctx c s) as [(s' & log & Hc & ->)|(e & _ & ->)];
    cbn [fst]; [|exact Hinv].
  eapply Hstep; eauto.
Qed.

Lemma propertyTransactionsOf_same s s' p :
  propertyTransactions s' = propertyTransactions s →
  propertyTransactionsOf s' p = propertyTransactionsOf s p.
Proof. unfold propertyTransactionsOf. intros ->. reflexivity. Qed.

Lemma txIndexOk_same s s' :
  propertyTransactions s' = propertyTransactions s →
  transactions s' = transactions s →
  txIndexOk s → txIndexOk s'.
Proof.
  intros Hpt Ht Hinv p. rewrite (propertyTransactionsOf_same _ _ _ Hpt), Ht.
  apply Hinv.
Qed.

Lemma txIndexOk_update s s' tid T T' :
  propertyTransactions s' = propertyTransactions s →
  transactions s' = <[tid := T']> (transactions s) →
  transactions s !! tid = Some T →
  t_propertyId T' = t_propertyId T →
  txIndexOk s → txIndexOk s'.
Proof.
  intros Hpt Ht HT Hpid Hinv p. rewrite (propertyTransactionsOf_same _ _ _ Hpt).
  destruct (Hinv p) as [Hsorted Hiff]. split; [exact Hsorted|].
  intros i. rewrite Hiff, Ht. split.
  - intros (T0 & HT0 & E). destruct (decide (i = tid)) as [->|Hne].
    + exists T'. rewrite lookup_insert_eq. split; [reflexivity|]. congruence.
    + exists T0. rewrite lookup_insert_ne by auto. auto.
  - intros (T0 & HT0 & E).
    apply lookup_insert_Some in HT0 as [[<- <-]|[Hne HT0]]; eauto.
    exists T. split; [exact HT|congruence].
Qed.

Lemma txIndexOk_push s s' pid T' :
  wellFormed s →
  propertyTransactions s' =
    <[pid := (propertyTransactionsOf s pid ++ [transactionIds s + 1])%list]>
      (propertyTransactions s) →
  transactions s' = <[transactionIds s + 1 := T']> (transactions s) →
  t_propertyId T' = pid →
  txIndexOk s → txIndexOk s'.
Proof.
  intros Hwf Hpt Ht Hpid Hinv p.
  assert (Hold : ∀ q i, i ∈ propertyTransactionsOf s q → i < transactionIds s + 1).
  { intros q i Hin. apply (proj2 (Hinv q)) in Hin as (T & HT & _).
    destruct (wf_transactions _ Hwf _ _ HT) as (_ & _ & Hle & _). lia. }
  assert (Hfresh : transactions s !! (transactionIds s + 1) = None).
  { destruct (transactions s !! (transactionIds s + 1)) as [T|] eqn:E; [|reflexivity].
    destruct (wf_transactions _ Hwf _ _ E) as (_ & _ & Hle & _). lia. }
  destruct (Hinv p) as [Hsorted Hiff].
  unfold propertyTransactionsOf at 1 2. rewrite Hpt, Ht.
  destruct (decide (p = pid)) as [->|Hne].
  - rewrite lookup_insert_eq. cbn [default from_option id]. split.
    + apply StronglySorted_app_2; [|exact Hsorted|repeat constructor].
      intros x1 x2 Hx1 Hx2. apply list_elem_of_singleton in Hx2. subst x2.
      eapply Hold; eauto.
    + intros i. rewrite elem_of_app, list_elem_of_singleton, Hiff. split.
      * intros [(T & HT & E)| ->].
        -- exists T. rewrite lookup_insert_ne; [auto|].
           intros <-. rewrite Hfresh in HT. discriminate.
        -- exists T'. rewrite lookup_insert_eq. auto.
      * intros (T & HT & E).
        apply lookup_insert_Some in HT as [[<- <-]|[Hni HT]]; eauto.
  - rewrite lookup_insert_ne by auto. fold (propertyTransactionsOf s p).
    split; [exact Hsorted|].
    intros i. rewrite Hiff. split.
    + intros (T & HT & E). exists T. rewrite lookup_insert_ne; [auto|].
      intros <-. rewrite Hfresh in HT. discriminate.
    + intros (T & HT & E).
      apply lookup_insert_Some in HT as [[<- <-]|[Hni HT]]; eauto.
      congruence.
Qed.

Lemma call_txIndexOk ctx c s s' log :
  call ctx c s = Ok (s', log) → wellFormed s → txIndexOk s → txIndexOk s'.
Proof.
  intros Hc Hwf Hinv.
  destruct (call_registry_frame _ _ _ _ _ Hc) as (Hpt & _ & _).
  apply call_Transition in Hc. destruct Hc;
    try (destruct Hreplaced as [? ? ? Htransactions]);
    try (destruct Hcall as [-> | ->]);
    cbn [propertyTransactionsAfter] in Hpt;
    try (apply (txIndexOk_same s s'); assumption).
  - destruct Hsame as [Hn Htn Hp Ht Ho He].
    apply (txIndexOk_same s s'); [|assumption|assumption].
    destruct c; try discriminate Hkind; exact Hpt.
  - eapply (txIndexOk_push s s'); eauto.
  - eapply (txIndexOk_push s s'); eauto.
  - eapply (txIndexOk_update s s'); eauto using transactionAt_exists.
  - eapply (txIndexOk_update s s'); eauto using transactionAt_exists.
  - eapply (txIndexOk_update s s'); eauto using transactionAt_exists.
  - eapply (txIndexOk_update s s'); eauto using transactionAt_exists.
Qed.

Lemma deployed_txIndexOk deployer : txIndexOk (deployed deployer).
Proof.
  rewrite deployed_eq. intros p. unfold propertyTransactionsOf.
  cbn [propertyTransactions transactions set_userRole set_registeredUser set_role
       emptyState].
  rewrite lookup_empty. cbn [default from_option id]. split; [constructor|].
  intros i. split; [intros Hin; apply elem_of_nil in Hin; contradiction|].
  intros (T & HT & _). rewrite lookup_empty in HT. discriminate.
Qed.

Lemma reachable_txIndexOk deployer cs : txIndexOk (finalState cs (deployed deployer)).
Proof.
  unfold finalState. apply run_call_invariant;
    [apply call_txIndexOk | apply deployed_wellFormed | apply deployed_txIndexOk].
Qed.

(** X12: in every state reached from deployment,
    [getPropertyTransactions] of a property holds exactly the ids of the
    transactions whose record refers to that property, in increasing order,
    which is the order in which the requests were made. *)
Theorem X12_property_transactions_are_exact deployer cs p i :
  let s := finalState cs (deployed deployer) in
  (i ∈ getPropertyTransactions s p ↔
   ∃ T, getTransaction s i = Ok T ∧ t_propertyId T = p) ∧
  StronglySorted N.lt (getPropertyTransactions s p).
Proof.
  intros s.
  assert (wellFormed s) as Hwf by apply reachable_wellFormed.
  destruct (reachable_txIndexOk deployer cs p) as [Hsorted Hiff].
  fold s in Hsorted, Hiff. unfold getPropertyTransactions.
  split; [|exact Hsorted]. rewrite Hiff.
  split; intros (T & HT & E); exists T; split; auto;
    apply (getTransaction_Ok_iff s i T Hwf); exact HT.
Qed.

Lemma StronglySorted_filter {A : Type} (R : relation A) (P : A → Prop)
    `{∀ x, Decision (P x)} (l : list A) :
  StronglySorted R l → StronglySorted R (filter P l).
Proof.
  induction 1 as [|x l Hs IH Hall]; [constructor|].
  rewrite filter_cons. destruct (decide (P x)); [|exact IH].
  constructor; [exact IH|].
  apply Forall_forall. intros y Hy. apply list_elem_of_filter in Hy as [_ Hy].
  rewrite Forall_forall in Hall. auto.
Qed.

(** X13: the two loops of [viewRequest] never write past the end of the
    array they allocate and return the Pending entries of the property's
    transaction list, in its order.  In every state reached from deployment
    these are exactly the Pending transactions on that property, in
    increasing order; [landInfoOwner] gives the record and this list to the
    owner and reverts for every other caller; both views revert for a
    property that does not exist. *)
Theorem X13_viewRequest_lists_the_pending_requests deployer cs ctx p :
  let s := finalState cs (deployed deployer) in
  viewRequest_loops s p = viewRequest s p ∧
  (∀ P, getProperty s p = Ok P →
     ∃ reqs, viewRequest s p = Ok reqs ∧
       StronglySorted N.lt reqs ∧
       (∀ i, i ∈ reqs ↔
             ∃ T, getTransaction s i = Ok T ∧ t_propertyId T = p ∧
                  t_status T = TS_Pending) ∧
       landInfoOwner ctx s p =
         if p_owner P =? msg_sender ctx then Ok (P, reqs)
         else Err (Revert "Only property owner can access this information")) ∧
  (getProperty s p = Err (Revert "Property does not exist") →
   viewRequest s p = Err (Revert "Property does not exist") ∧
   landInfoOwner ctx s p = Err (Revert "Property does not exist")).
Proof.
  intros s.
  assert (wellFormed s) as Hwf by apply reachable_wellFormed.
  destruct (reachable_txIndexOk deployer cs p) as [Hsorted Hiff].
  fold s in Hsorted, Hiff.
  split; [apply viewRequest_loops_eq|].
  unfold landInfoOwner, viewRequest, getProperty.
  destruct (negb (p_id (propertyAt s p) =? 0)); split; try discriminate.
  - intros P [= <-]. eexists. split; [reflexivity|].
    split; [apply StronglySorted_filter; exact Hsorted|]. split; [|reflexivity].
    intros i. rewrite list_elem_of_filter, Hiff. split.
    + intros (Hst & T & HT & E). exists T.
      rewrite (transactionAt_Some _ _ _ HT) in Hst.
      split; [apply getTransaction_Ok_iff; assumption|auto].
    + intros (T & HT & E & Hst).
      apply getTransaction_Ok_iff in HT; [|exact Hwf].
      rewrite (transactionAt_Some _ _ _ HT). eauto.
  - intros _. split; reflexivity.
Qed.

(** ** The checked inputs stay valid *)

Lemma registerProperty_inputs ctx st d v sn o mv h s s' log :
  call ctx (RegisterProperty st d v sn o mv h) s = Ok (s', log) →
  nonEmpty st = true ∧ nonEmpty d = true ∧ nonEmpty v = true ∧
  nonEmpty sn = true ∧ o ≠ 0 ∧ 0 < mv ∧ paused s = false ∧
  propertyIds s < MAX_UINT256.
Proof. intros H. call_inv H; repeat split; assumption. Qed.

Lemma recordsValid_insert s s' pid P' :
  properties s' = <[pid := P']> (properties s) →
  transactions s' = transactions s →
  propertyValid P' → recordsValid s → recordsValid s'.
Proof.
  intros Hp Ht HP' [H1 H2]. split.
  - intros p P. rewrite Hp. intros HP.
    apply lookup_insert_Some in HP as [[<- <-]|[Hne HP]]; eauto.
  - intros i T. rewrite Ht. apply H2.
Qed.

Lemma recordsValid_update s s' pid P' tid T' :
  properties s' = <[pid := P']> (properties s) →
  transactions s' = <[tid := T']> (transactions s) →
  propertyValid P' → transactionValid T' → recordsValid s → recordsValid s'.
Proof.
  intros Hp Ht HP' HT' [H1 H2]. split.
  - intros p P. rewrite Hp. intros HP.
    apply lookup_insert_Some in HP as [[<- <-]|[Hne HP]]; eauto.
  - intros i T. rewrite Ht. intros HT.
    apply lookup_insert_Some in HT as [[<- <-]|[Hne HT]]; eauto.
Qed.

Lemma propertyValid_at s pid :
  recordsValid s → p_id (propertyAt s pid) ≠ 0 → propertyValid (propertyAt s pid).
Proof. intros [H1 _] Hex. apply (H1 pid), propertyAt_exists, Hex. Qed.

Lemma transactionValid_at s tid :
  recordsValid s → t_id (transactionAt s tid) ≠ 0 →
  transactionValid (transactionAt s tid).
Proof. intros [_ H2] Hex. apply (H2 tid), transactionAt_exists, Hex. Qed.

Ltac valid_fields :=
  unfold propertyValid, transactionValid in *;
  cbn [p_id p_state p_district p_village p_surveyNumber p_owner p_marketValue
       p_propertyId p_ipfsHash p_status p_registeredAt p_lastUpdated p_isActive
       t_id t_propertyId t_seller t_buyer t_price t_status t_requestedAt
       t_completedAt t_ipfsHash
       with_p_owner with_p_marketValue with_p_ipfsHash with_p_status
       with_p_lastUpdated with_p_isActive with_t_status with_t_completedAt];
  try tauto.

Lemma call_recordsValid ctx c s s' log :
  call ctx c s = Ok (s', log) → wellFormed s → recordsValid s → recordsValid s'.
Proof.
  intros Hc Hwf Hinv.
  pose proof (call_Transition _ _ _ _ _ Hc) as HT. destruct HT.
  - destruct Hsame as [Hn Htn Hp Ht Ho He]. destruct Hinv as [H1 H2].
    split; intros i x; rewrite ?Hp, ?Ht; eauto.
  - apply registerProperty_inputs in Hc as (? & ? & ? & ? & ? & ? & ? & ?).
    eapply (recordsValid_insert s s'); eauto; valid_fields.
  - destruct Hreplaced. pose proof (propertyValid_at s pid Hinv Hexists).
    eapply (recordsValid_insert s s'); eauto; destruct approve; valid_fields.
  - destruct Hreplaced. pose proof (propertyValid_at s pid Hinv Hexists).
    eapply (recordsValid_insert s s'); eauto; valid_fields.
  - pose proof (propertyValid_at s pid Hinv Hexists) as HP.
    eapply (recordsValid_update s s'); eauto; valid_fields.
    destruct HP as (_ & _ & _ & _ & Hmv & _). split; [lia|congruence].
  - pose proof (transactionAt_exists _ _ Hexists) as HT0.
    pose proof (wf_transaction_property _ _ _ Hwf HT0) as HP0.
    pose proof (proj1 Hinv _ _ HP0) as HP.
    pose proof (transactionValid_at s tid Hinv Hexists) as HTv.
    eapply (recordsValid_update s s'); eauto; destruct approve; valid_fields.
  - pose proof (transactionAt_exists _ _ Hexists) as HT0.
    pose proof (wf_transaction_property _ _ _ Hwf HT0) as HP0.
    pose proof (proj1 Hinv _ _ HP0) as HP.
    pose proof (transactionValid_at s tid Hinv Hexists) as HTv.
    eapply (recordsValid_update s s'); eauto; valid_fields.
  - destruct Hreplaced. pose proof (propertyValid_at s pid Hinv Hexists).
    eapply (recordsValid_insert s s'); eauto; valid_fields.
  - destruct Hreplaced. pose proof (propertyValid_at s pid Hinv Hexists).
    eapply (recordsValid_insert s s'); eauto; valid_fields.
Qed.

Lemma deployed_recordsValid deployer : recordsValid (deployed deployer).
Proof.
  destruct (deployed_state deployer) as (Hp & Ht & _).
  split; intros i x; rewrite ?Hp, ?Ht, lookup_empty; discriminate.
Qed.

Lemma reachable_recordsValid deployer cs :
  recordsValid (finalState cs (deployed deployer)).
Proof.
  unfold finalState. apply run_call_invariant;
    [apply call_recordsValid | apply deployed_wellFormed
    | apply deployed_recordsValid].
Qed.

(** X14: what [registerProperty] and [requestToPurchase] check of their
    inputs stays true of the stored records in every state reached from
    deployment: the four location fields of a property are non-empty and its
    market value is positive (also after a sale has replaced it by the
    price); the price of a transaction is positive and its buyer is not its
    seller. *)
Theorem X14_checked_inputs_stay_valid deployer cs i :
  let s := finalState cs (deployed deployer) in
  (∀ P, getProperty s i = Ok P →
     nonEmpty (p_state P) = true ∧ nonEmpty (p_district P) = true ∧
     nonEmpty (p_village P) = true ∧ nonEmpty (p_surveyNumber P) = true ∧
     0 < p_marketValue P) ∧
  (∀ T, getTransaction s i = Ok T → 0 < t_price T ∧ t_buyer T ≠ t_seller T).
Proof.
  intros s.
  assert (wellFormed s) as Hwf by apply reachable_wellFormed.
  destruct (reachable_recordsValid deployer cs) as [H1 H2]. fold s in H1, H2.
  split.
  - intros P HP. apply getProperty_Ok_iff in HP; [|exact Hwf].
    destruct (H1 i P HP) as (? & ? & ? & ? & ? & _). auto.
  - intros T HT. apply getTransaction_Ok_iff in HT; [|exact Hwf].
    apply (H2 i T HT).
Qed.

(** X15: in every state reached from deployment the identifier string
    of a property is its four location fields and the decimal numeral of its
    id, joined by "-", and two different properties never share an
    identifier string, even when their location fields contain "-". *)
Theorem X15_property_identifier_is_unique deployer cs p q P Q :
  let s := finalState cs (deployed deployer) in
  getProperty s p = Ok P → getProperty s q = Ok Q → p ≠ q →
  p_propertyId P =
    p_state P +:+ "-" +:+ p_district P +:+ "-" +:+ p_village P +:+ "-" +:+
    p_surveyNumber P +:+ "-" +:+ toString p ∧
  p_propertyId P ≠ p_propertyId Q.
Proof.
  intros s HP HQ Hne.
  assert (wellFormed s) as Hwf by apply reachable_wellFormed.
  destruct (reachable_recordsValid deployer cs) as [H1 _]. fold s in H1.
  apply getProperty_Ok_iff in HP; [|exact Hwf].
  apply getProperty_Ok_iff in HQ; [|exact Hwf].
  destruct (H1 p P HP) as (_ & _ & _ & _ & _ & EP).
  destruct (H1 q Q HQ) as (_ & _ & _ & _ & _ & EQ).
  destruct (wf_properties _ Hwf _ _ HP) as (HidP & _).
  destruct (wf_properties _ Hwf _ _ HQ) as (HidQ & _).
  rewrite HidP in EP. rewrite HidQ in EQ.
  split; [exact EP|].
  rewrite EP, EQ. intros E. apply uniquePropertyIdOf_inj in E. contradiction.
Qed.

Lemma X15_property_identifier_is_unique_witness :
  let s := finalState scenarioPaused (deployed registrar) in
  p_propertyId (propertyAt s 1) = "State1-District1-Village1-SUR-001-1" ∧
  p_propertyId (propertyAt s 1) ≠ p_propertyId (propertyAt s 2).
Proof.
  intros s.
  assert (getProperty s 1 = Ok (propertyAt s 1)) as H1 by (vm_compute; reflexivity).
  assert (getProperty s 2 = Ok (propertyAt s 2)) as H2 by (vm_compute; reflexivity).
  assert ((1 : N) ≠ 2) as H3 by discriminate.
  destruct (X15_property_identifier_is_unique registrar scenarioPaused 1 2 _ _
              H1 H2 H3) as [E Hne].
  split; [|exact Hne]. rewrite E. vm_compute. reflexivity.
Defined.

(** ** Registered users *)

Lemma call_registered_mono ctx c s s' log a :
  call ctx c s = Ok (s', log) →
  isRegistered s a = true → isRegistered s' a = true.
Proof.
  intros Hc Hr. destruct (call_registry_frame _ _ _ _ _ Hc) as (_ & Hreg & _).
  rewrite Hreg, Hr. reflexivity.
Qed.

Lemma call_registers ctx c s s' log a :
  call ctx c s = Ok (s', log) →
  registeredBy s c = Some a → isRegistered s' a = true.
Proof.
  intros Hc Hr. destruct (call_registry_frame _ _ _ _ _ Hc) as (_ & Hreg & _).
  rewrite Hreg, bool_decide_eq_true_2 by exact Hr. apply orb_true_r.
Qed.

Lemma run_registered_mono cs s a :
  isRegistered s a = true → isRegistered (run cs s).1 a = true.
Proof.
  revert s. induction cs as [|[ctx c] cs IH]; intros s Hr; [exact Hr|].
  rewrite run_cons. cbn [fst]. apply IH.
  destruct (step_cases ctx c s) as [(s' & log & Hc & ->)|(e & _ & ->)];
    cbn [fst]; [|exact Hr].
  eapply call_registered_mono; eauto.
Qed.

Lemma usersOk_owners s s' pid P' :
  properties s' = <[pid := P']> (properties s) →
  (∀ a, isRegistered s a = true → isRegistered s' a = true) →
  isRegistered s' (p_owner P') = true →
  (∀ p P, properties s !! p = Some P → isRegistered s (p_owner P) = true) →
  ∀ p P, properties s' !! p = Some P → isRegistered s' (p_owner P) = true.
Proof.
  intros Hp Hmono HP' Hinv p P. rewrite Hp. intros HP.
  apply lookup_insert_Some in HP as [[<- <-]|[Hne HP]]; eauto.
Qed.

Lemma call_usersOk ctx c s s' log :
  call ctx c s = Ok (s', log) → wellFormed s → usersOk s → usersOk s'.
Proof.
  intros Hc Hwf [Hown Hvil].
  pose proof (call_registry_frame _ _ _ _ _ Hc) as (_ & Hreg & Hv).
  pose proof (λ a, call_registered_mono _ _ _ _ _ a Hc) as Hmono.
  pose proof (λ a, call_registers _ _ _ _ _ a Hc) as Hnew.
  split.
  - assert (Hat : ∀ pid, p_id (propertyAt s pid) ≠ 0 →
                    isRegistered s' (p_owner (propertyAt s pid)) = true).
    { intros pid Hex. apply Hmono, (Hown pid), propertyAt_exists, Hex. }
    pose proof (call_Transition _ _ _ _ _ Hc) as HT. destruct HT;
      try (destruct Hreplaced as [Hproperties]);
      try (apply (usersOk_owners s s' _ _ Hproperties Hmono); [|exact Hown]).
    + destruct Hsame as [Hn Htn Hp Ht Ho He]. intros p P. rewrite Hp.
      intros HP. apply Hmono. eauto.
    + apply Hnew. reflexivity.
    + destruct approve; apply (Hat pid Hexists).
    + apply (Hat pid Hexists).
    + apply (Hat pid Hexists).
    + pose proof (transactionAt_exists _ _ Hexists) as HT0.
      pose proof (wf_transaction_property _ _ _ Hwf HT0) as HP0.
      destruct approve; apply Hmono, (Hown _ _ HP0).
    + apply Hnew. destruct Hcall as [-> | ->]; reflexivity.
    + apply (Hat pid Hexists).
    + apply (Hat pid Hexists).
  - intros a Ha. rewrite Hreg in Ha. apply orb_false_iff in Ha as [Ha Hb].
    apply bool_decide_eq_false in Hb.
    rewrite Hv. destruct c; cbn [villagesAfter]; try (apply Hvil; exact Ha).
    cbn [registeredBy] in Hb.
    rewrite bool_decide_eq_false_2 by congruence. apply Hvil. exact Ha.
Qed.

Lemma deployed_usersOk deployer : usersOk (deployed deployer).
Proof.
  destruct (deployed_state deployer) as (Hp & _).
  split; [intros p P; rewrite Hp, lookup_empty; discriminate|].
  intros a _. rewrite deployed_eq. reflexivity.
Qed.

Lemma reachable_usersOk deployer cs : usersOk (finalState cs (deployed deployer)).
Proof.
  unfold finalState. apply run_call_invariant;
    [apply call_usersOk | apply deployed_wellFormed | apply deployed_usersOk].
Qed.

Lemma deployed_registered deployer : isRegistered (deployed deployer) deployer = true.
Proof.
  rewrite deployed_eq. unfold isRegistered.
  cbn [registeredUsers set_userRole set_registeredUser].
  rewrite lookup_insert_eq. reflexivity.
Qed.

(** X16: in every state reached from deployment the owner of every
    property is a registered user; the deployer is registered from the
    start; and no call ever unregisters an account. *)
Theorem X16_owners_are_registered_users deployer cs cs' p a :
  let s := finalState cs (deployed deployer) in
  (∀ P, getProperty s p = Ok P → isRegistered s (p_owner P) = true) ∧
  (isRegistered s a = true → isRegistered (finalState cs' s) a = true) ∧
  isRegistered s deployer = true.
Proof.
  intros s.
  assert (wellFormed s) as Hwf by apply reachable_wellFormed.
  destruct (reachable_usersOk deployer cs) as [Hown _]. fold s in Hown.
  split; [|split].
  - intros P HP. apply getProperty_Ok_iff in HP; [|exact Hwf]. eauto.
  - apply run_registered_mono.
  - apply run_registered_mono, deployed_registered.
Qed.

(** ** The entry points, case by case *)

(** The next [require] fails. *)
Ltac mfail :=
  rewrite ?bind_assoc;
  rewrite bind_require_false by solve_cond; reflexivity.

Lemma onlyRole_rejects ctx c s :
  match c with
  | RegisterUser _ _ _ | ApproveProperty _ _ | AddSuperAdmin _ _ _
  | Pause | Unpause => True
  | _ => False
  end →
  hasRole s SUPERADMIN_ROLE (msg_sender ctx) = false →
  call ctx c s =
  Err (AccessControlUnauthorizedAccount (msg_sender ctx) SUPERADMIN_ROLE).
Proof.
  intros Hc Hr. destruct c; try contradiction; start_call; meval;
    rewrite bind_check_false by exact Hr; reflexivity.
Qed.

Lemma pushVillages_total a vs s l :
  ∃ s' l', pushVillages a vs s l = Ok (tt, s', l').
Proof.
  revert s l. induction vs as [|v vs IH]; intros s l; cbn [pushVillages].
  - unfold mret, M_ret. eauto.
  - meval. apply IH.
Qed.

Lemma registerUser_succeeds ctx u r n s :
  hasRole s SUPERADMIN_ROLE (msg_sender ctx) = true →
  isRegistered s u = false → r ≠ DEFAULT_ADMIN_ROLE →
  ∃ s' log, call ctx (RegisterUser u r n) s = Ok (s', log).
Proof.
  intros Hr Hu Hne. start_call. meval.
  match goal with
  | |- context [(_grantRole ctx r u ≫= ?f) ?s1 ?l1] =>
      destruct (grantRole_total ctx r u s1 l1) as (b & s' & l' & E & _);
      rewrite (bind_eval _ f _ _ _ _ _ E)
  end.
  unfold emit. eauto.
Qed.

Lemma registerUser_post ctx u r n s s' log :
  call ctx (RegisterUser u r n) s = Ok (s', log) →
  isRegistered s' u = true ∧ hasRole s' r u = true ∧
  userRoles s' !! u = Some n ∧
  (∀ r' b, hasRole s r' b = true → hasRole s' r' b = true).
Proof.
  intros H. call_inv H; sunfold; rewrite ?lookup_insert_eq; repeat split; auto.
  intros r' b Hb. destruct (decide ((r, u) = (r', b))) as [E|Hne].
  - rewrite E, lookup_insert_eq. reflexivity.
  - rewrite lookup_insert_ne by exact Hne. exact Hb.
Qed.

(** X17: [registerUser], case by case.  A caller without the Superadmin
    role is refused; an account that is already registered gives "User
    already registered"; the default admin role gives "Invalid role";
    otherwise the account is registered, holds the role and has the role
    name recorded, and registering it a second time fails. *)
Theorem X17_registerUser_outcome ctx u r n s :
  (hasRole s SUPERADMIN_ROLE (msg_sender ctx) = false →
   call ctx (RegisterUser u r n) s =
   Err (AccessControlUnauthorizedAccount (msg_sender ctx) SUPERADMIN_ROLE)) ∧
  (hasRole s SUPERADMIN_ROLE (msg_sender ctx) = true →
   (isRegistered s u = true →
    call ctx (RegisterUser u r n) s = Err (Revert "User already registered")) ∧
   (isRegistered s u = false → r = DEFAULT_ADMIN_ROLE →
    call ctx (RegisterUser u r n) s = Err (Revert "Invalid role")) ∧
   (isRegistered s u = false → r ≠ DEFAULT_ADMIN_ROLE →
    ∃ s' log, call ctx (RegisterUser u r n) s = Ok (s', log) ∧
      isRegistered s' u = true ∧ hasRole s' r u = true ∧
      userRoles s' !! u = Some n ∧
      ∀ r' n', call ctx (RegisterUser u r' n') s' =
               Err (Revert "User already registered"))).
Proof.
  assert (Hagain : ∀ s1 r1 n1,
            hasRole s1 SUPERADMIN_ROLE (msg_sender ctx) = true →
            isRegistered s1 u = true →
            call ctx (RegisterUser u r1 n1) s1 =
            Err (Revert "User already registered")).
  { intros s1 r1 n1 Hr Hu. start_call. meval.
    rewrite bind_require_false by (rewrite Hu; reflexivity). reflexivity. }
  split; [apply (onlyRole_rejects ctx (RegisterUser u r n) s I)|].
  intros Hr. split; [apply Hagain; exact Hr|]. split.
  - intros Hu ->. start_call. meval.
    rewrite bind_require_false by reflexivity. reflexivity.
  - intros Hu Hne.
    destruct (registerUser_succeeds ctx u r n s Hr Hu Hne) as (s' & log & Hc).
    exists s', log. split; [exact Hc|].
    destruct (registerUser_post _ _ _ _ _ _ _ Hc) as (H1 & H2 & H3 & H4).
    repeat split; auto.
Qed.

Lemma addSuperAdmin_succeeds ctx a vs n s :
  hasRole s SUPERADMIN_ROLE (msg_sender ctx) = true →
  a ≠ 0 → isRegistered s a = false →
  ∃ s' log, call ctx (AddSuperAdmin a vs n) s = Ok (s', log).
Proof.
  intros Hr Ha Hu. start_call. meval.
  match goal with
  | |- context [(_grantRole ctx ?r a ≫= ?f) ?s1 ?l1] =>
      destruct (grantRole_total ctx r a s1 l1) as (b & s' & l' & E & _);
      rewrite (bind_eval _ f _ _ _ _ _ E)
  end.
  destruct (pushVillages_total a vs s' l') as (s2 & l2 & E2).
  rewrite (bind_eval _ _ _ _ _ _ _ E2). unfold emit. eauto.
Qed.

Lemma addSuperAdmin_post ctx a vs n s s' log :
  call ctx (AddSuperAdmin a vs n) s = Ok (s', log) →
  hasRole s' SUPERADMIN_ROLE a = true ∧ userRoles s' !! a = Some n ∧
  (∀ r' b, hasRole s r' b = true → hasRole s' r' b = true).
Proof.
  intros H. call_inv H.
  all: match goal with
       | Hp : pushVillages _ _ _ _ = Ok _ |- _ =>
           apply pushVillages_villages in Hp
             as (s1 & l1 & E & H1 & H2 & H3 & H4 & H5 & H6)
       end; minv.
  all: unfold hasRole; rewrite H3, H4; sunfold; rewrite ?lookup_insert_eq;
    repeat split; auto.
  intros r' b Hb. destruct (decide ((SUPERADMIN_ROLE, a) = (r', b))) as [E|Hne].
  - rewrite E, lookup_insert_eq. reflexivity.
  - rewrite lookup_insert_ne by exact Hne. exact Hb.
Qed.

(** X18: [addSuperAdmin], case by case, in a state reached from
    deployment.  A caller without the Superadmin role is refused; the zero
    address gives "Invalid address"; a registered account gives "User
    already registered"; otherwise the account is registered as a
    Superadmin and [getSuperadminVillages] returns exactly the villages
    given, in the order given, the villages of other accounts being
    untouched. *)
Theorem X18_addSuperAdmin_outcome deployer cs ctx a vs n :
  let s := finalState cs (deployed deployer) in
  (hasRole s SUPERADMIN_ROLE (msg_sender ctx) = false →
   call ctx (AddSuperAdmin a vs n) s =
   Err (AccessControlUnauthorizedAccount (msg_sender ctx) SUPERADMIN_ROLE)) ∧
  (hasRole s SUPERADMIN_ROLE (msg_sender ctx) = true →
   (a = 0 → call ctx (AddSuperAdmin a vs n) s = Err (Revert "Invalid address")) ∧
   (a ≠ 0 → isRegistered s a = true →
    call ctx (AddSuperAdmin a vs n) s = Err (Revert "User already registered")) ∧
   (a ≠ 0 → isRegistered s a = false →
    ∃ s' log, call ctx (AddSuperAdmin a vs n) s = Ok (s', log) ∧
      getSuperadminVillages s' a = vs ∧
      (∀ b, b ≠ a → getSuperadminVillages s' b = getSuperadminVillages s b) ∧
      hasRole s' SUPERADMIN_ROLE a = true ∧ isRegistered s' a = true ∧
      userRoles s' !! a = Some n)).
Proof.
  intros s.
  split; [apply (onlyRole_rejects ctx (AddSuperAdmin a vs n) s I)|].
  intros Hr. split; [|split].
  - intros ->. start_call. meval.
    rewrite bind_require_false by reflexivity. reflexivity.
  - intros Ha Hu. start_call. meval.
    rewrite bind_require_false by (rewrite Hu; reflexivity). reflexivity.
  - intros Ha Hu.
    destruct (addSuperAdmin_succeeds ctx a vs n s Hr Ha Hu) as (s' & log & Hc).
    exists s', log. split; [exact Hc|].
    destruct (addSuperAdmin_post _ _ _ _ _ _ _ Hc) as (H1 & H2 & _).
    destruct (call_registry_frame _ _ _ _ _ Hc) as (_ & Hreg & Hv).
    cbn [villagesAfter registeredBy] in Hreg, Hv.
    destruct (reachable_usersOk deployer cs) as [_ Hvil]. fold s in Hvil.
    unfold getSuperadminVillages. repeat split; auto.
    + rewrite Hv, bool_decide_eq_true_2 by reflexivity.
      rewrite (Hvil a Hu). reflexivity.
    + intros b Hb. rewrite Hv, bool_decide_eq_false_2 by exact Hb. reflexivity.
    + rewrite Hreg, bool_decide_eq_true_2 by reflexivity. apply orb_true_r.
Qed.

Lemma registerProperty_invalid ctx st d v sn o mv h s :
  paused s = false → validRegistration st d v sn o mv = false →
  ∃ reason, call ctx (RegisterProperty st d v sn o mv h) s = Err (Revert reason) ∧
            errorKind (Revert reason) = K_InvalidInput.
Proof.
  intros Hp Hv. unfold validRegistration in Hv.
  start_call. meval.
  destruct (nonEmpty st) eqn:H1;
    [|rewrite bind_require_false by reflexivity; eexists; split; reflexivity].
  meval.
  destruct (nonEmpty d) eqn:H2;
    [|rewrite bind_require_false by reflexivity; eexists; split; reflexivity].
  meval.
  destruct (nonEmpty v) eqn:H3;
    [|rewrite bind_require_false by reflexivity; eexists; split; reflexivity].
  meval.
  destruct (nonEmpty sn) eqn:H4;
    [|rewrite bind_require_false by reflexivity; eexists; split; reflexivity].
  meval.
  destruct (negb (o =? 0)) eqn:H5;
    [|rewrite bind_require_false by reflexivity; eexists; split; reflexivity].
  rewrite bind_require by reflexivity.
  cbn [andb] in Hv. rewrite ?bind_assoc.
  rewrite bind_require_false by exact Hv. eexists; split; reflexivity.
Qed.

(** X19: [registerProperty], case by case.  A paused registry refuses;
    an empty location field, the zero owner or a zero market value is
    refused with an invalid-input reason (a zero market value with "Market
    value must be greater than 0"); otherwise the property is stored under
    the next id as Pending and active, [getTotalProperties] grows by one,
    the id is appended to the owner's list, the owner is a registered user,
    and no other property or list changes. *)
Theorem X19_registerProperty_outcome ctx st d v sn o mv h s :
  (paused s = true →
   call ctx (RegisterProperty st d v sn o mv h) s = Err EnforcedPause) ∧
  (paused s = false → validRegistration st d v sn o mv = false →
   ∃ reason,
     call ctx (RegisterProperty st d v sn o mv h) s = Err (Revert reason) ∧
     errorKind (Revert reason) = K_InvalidInput) ∧
  (paused s = false →
   nonEmpty st = true → nonEmpty d = true → nonEmpty v = true →
   nonEmpty sn = true → o ≠ 0 →
   call ctx (RegisterProperty st d v sn o 0 h) s =
   Err (Revert "Market value must be greater than 0")) ∧
  (paused s = false → validRegistration st d v sn o mv = true →
   propertyIds s < MAX_UINT256 →
   ∃ s' log,
     call ctx (RegisterProperty st d v sn o mv h) s = Ok (s', log) ∧
     getTotalProperties s' = getTotalProperties s + 1 ∧
     propertyAt s' (getTotalProperties s') =
       mkProperty (getTotalProperties s') st d v sn o mv
         (uniquePropertyIdOf st d v sn (getTotalProperties s')) h PS_Pending
         (block_timestamp ctx) (block_timestamp ctx) true ∧
     getOwnerProperties s' o =
       (getOwnerProperties s o ++ [getTotalProperties s'])%list ∧
     isRegistered s' o = true ∧
     (∀ p, p ≠ getTotalProperties s' → propertyAt s' p = propertyAt s p) ∧
     (∀ a, a ≠ o → getOwnerProperties s' a = getOwnerProperties s a)).
Proof.
  split; [|split; [|split]].
  - intros Hp.
    apply (paused_guarded_call_reverts ctx (RegisterProperty st d v sn o mv h) s Hp).
    reflexivity.
  - apply registerProperty_invalid.
  - intros Hp H1 H2 H3 H4 Ho.
    start_call. meval.
    rewrite bind_require_false by reflexivity. reflexivity.
  - intros Hp Hv Hn. unfold validRegistration in Hv.
    repeat (apply andb_true_iff in Hv as [Hv ?]). bools.
    destruct (registerProperty_succeeds ctx st d v sn o mv h s)
      as (s' & log & Hc); auto.
    exists s', log. split; [exact Hc|].
    pose proof (call_registers _ _ _ _ _ o Hc eq_refl) as Hreg.
    apply call_Transition in Hc.
    remember (RegisterProperty st d v sn o mv h) as c eqn:Ec.
    destruct Hc; try discriminate Ec;
      try (destruct Hcall; subst c; discriminate).
    { subst c. discriminate Hkind. }
    injection Ec as -> -> -> -> -> -> ->.
    unfold getTotalProperties, getOwnerProperties. rewrite HpropertyIds.
    repeat split; auto.
    + apply (propertyAt_insert_eq _ _ _ _ Hproperties).
    + unfold ownerPropertiesOf at 1. rewrite HownerProperties, lookup_insert_eq.
      reflexivity.
    + intros p Hne. apply (propertyAt_insert_ne _ _ _ _ _ Hproperties Hne).
    + intros a Hne. unfold ownerPropertiesOf at 1.
      rewrite HownerProperties, lookup_insert_ne by auto. reflexivity.
Qed.

(** X20: [listPropertyForSale], case by case, in a state reached from
    deployment.  The owner check comes before the existence check, so a
    caller asking about a property that does not exist is told that they are
    not its owner.  On success the property is ListedForSale and the asking
    price is not stored: listing at any other positive price leaves the very
    same state. *)
Theorem X20_listPropertyForSale_outcome deployer cs ctx pid price :
  let s := finalState cs (deployed deployer) in
  let P := propertyAt s pid in
  let c := ListPropertyForSale pid price in
  (paused s = true → call ctx c s = Err EnforcedPause) ∧
  (paused s = false →
   (p_owner P ≠ msg_sender ctx →
    call ctx c s = Err (Revert "Only property owner can perform this action")) ∧
   (p_owner P = msg_sender ctx →
    (p_id P = 0 → call ctx c s = Err (Revert "Property does not exist")) ∧
    (p_id P ≠ 0 →
     (p_isActive P = false →
      call ctx c s = Err (Revert "Property is not active")) ∧
     (p_isActive P = true →
      (p_status P ≠ PS_Approved →
       call ctx c s = Err (Revert "Property must be approved before listing")) ∧
      (p_status P = PS_Approved →
       (price = 0 → call ctx c s = Err (Revert "Price must be greater than 0")) ∧
       (0 < price →
        ∃ s' log,
          call ctx c s = Ok (s', log) ∧
          getProperty s' pid =
            Ok (with_p_lastUpdated (block_timestamp ctx)
                  (with_p_status PS_ListedForSale P)) ∧
          ∀ price', 0 < price' →
            ∃ log', call ctx (ListPropertyForSale pid price') s = Ok (s', log'))))))).
Proof.
  intros s P c. subst P c.
  assert (wellFormed s) as Hwf by apply reachable_wellFormed.
  pose proof (wf_entered _ Hwf) as He.
  split.
  { intros Hp.
    apply (paused_guarded_call_reverts ctx (ListPropertyForSale pid price) s Hp).
    reflexivity. }
  intros Hp. split.
  { intros Ho. start_call. meval. mfail. }
  intros Ho. split.
  { intros Hid. start_call. meval. mfail. }
  intros Hid. split.
  { intros Ha. start_call. meval. mfail. }
  intros Ha. split.
  { intros Hs. start_call. meval. mfail. }
  intros Hs. split.
  { intros ->. start_call. meval. mfail. }
  intros Hpr.
  assert (Hsame : ∀ price', 0 < price' →
            ∃ log', call ctx (ListPropertyForSale pid price') s =
                    Ok (set_entered false
                          (modifyProperty pid
                             (with_p_lastUpdated (block_timestamp ctx))
                             (modifyProperty pid (with_p_status PS_ListedForSale)
                                (set_entered true s))), log')).
  { intros price' Hpr'. start_call. meval. unfold mret, M_ret. eauto. }
  destruct (Hsame price Hpr) as (log & Hc).
  eexists. exists log. split; [exact Hc|]. split; [|exact Hsame].
  assert (wellFormed
            (set_entered false
               (modifyProperty pid (with_p_lastUpdated (block_timestamp ctx))
                  (modifyProperty pid (with_p_status PS_ListedForSale)
                     (set_entered true s))))) as Hwf'.
  { eapply Transition_wellFormed; eauto using call_Transition. }
  apply getProperty_Ok_iff; [exact Hwf'|].
  apply listPropertyForSale_Transition in Hc as [Hprops].
  rewrite Hprops. apply lookup_insert_eq.
Qed.

(** X21: [approveProperty], case by case, in a state reached from
    deployment.  A caller without the Superadmin role is refused; then the
    property must exist, be active and be Pending, each with its own reason;
    otherwise it becomes Approved, or Rejected and inactive, and no second
    decision on it succeeds. *)
Theorem X21_approveProperty_outcome deployer cs ctx pid approve :
  let s := finalState cs (deployed deployer) in
  let P := propertyAt s pid in
  let c := ApproveProperty pid approve in
  (hasRole s SUPERADMIN_ROLE (msg_sender ctx) = false →
   call ctx c s =
   Err (AccessControlUnauthorizedAccount (msg_sender ctx) SUPERADMIN_ROLE)) ∧
  (hasRole s SUPERADMIN_ROLE (msg_sender ctx) = true →
   (p_id P = 0 → call ctx c s = Err (Revert "Property does not exist")) ∧
   (p_id P ≠ 0 →
    (p_isActive P = false →
     call ctx c s = Err (Revert "Property is not active")) ∧
    (p_isActive P = true →
     (p_status P ≠ PS_Pending →
      call ctx c s = Err (Revert "Property is not pending approval")) ∧
     (p_status P = PS_Pending →
      ∃ s' log,
        call ctx c s = Ok (s', log) ∧
        getProperty s' pid =
          Ok (with_p_lastUpdated (block_timestamp ctx)
                (if approve then with_p_status PS_Approved P
                 else with_p_isActive false (with_p_status PS_Rejected P))) ∧
        ∀ ctx' approve',
          ∃ e, call ctx' (ApproveProperty pid approve') s' = Err e)))).
Proof.
  intros s P c. subst P c.
  assert (wellFormed s) as Hwf by apply reachable_wellFormed.
  split; [apply (onlyRole_rejects ctx (ApproveProperty pid approve) s I)|].
  intros Hr. split.
  { intros Hid. start_call. meval. mfail. }
  intros Hid. split.
  { intros Ha. start_call. meval. mfail. }
  intros Ha. split.
  { intros Hs. start_call. meval. mfail. }
  intros Hs.
  destruct (approveProperty_succeeds ctx pid approve s Hr Hid Ha Hs)
    as (s' & log & Hc).
  exists s', log. split; [exact Hc|].
  assert (wellFormed s') as Hwf'.
  { eapply Transition_wellFormed; eauto using call_Transition. }
  apply approveProperty_Transition in Hc as [Hprops].
  split.
  - apply getProperty_Ok_iff; [exact Hwf'|]. rewrite Hprops.
    apply lookup_insert_eq.
  - intros ctx' approve'.
    destruct (call ctx' (ApproveProperty pid approve') s') as [[s2 log2]|e] eqn:Hc2;
      [exfalso|eauto].
    apply call_Transition in Hc2.
    remember (ApproveProperty pid approve') as c eqn:Ec.
    destruct Hc2; try discriminate Ec;
      try (destruct Hcall; subst c; discriminate).
    { subst c. discriminate Hkind. }
    injection Ec as -> ->.
    rewrite (propertyAt_insert_eq _ _ _ _ Hprops) in Hstatus.
    destruct approve; discriminate Hstatus.
Qed.

(** X22: [updatePropertyDocuments], case by case, in a state reached from
    deployment.  Only the owner of an existing, active property gets
    through, whatever its status and whether or not the registry is paused;
    the call replaces the document hash and the update time of that
    property and changes no other property, no transaction, no owner list
    and no balance. *)
Theorem X22_updatePropertyDocuments_outcome deployer cs ctx pid h :
  let s := finalState cs (deployed deployer) in
  let P := propertyAt s pid in
  let c := UpdatePropertyDocuments pid h in
  (p_owner P ≠ msg_sender ctx →
   call ctx c s = Err (Revert "Only property owner can perform this action")) ∧
  (p_owner P = msg_sender ctx →
   (p_id P = 0 → call ctx c s = Err (Revert "Property does not exist")) ∧
   (p_id P ≠ 0 →
    (p_isActive P = false →
     call ctx c s = Err (Revert "Property is not active")) ∧
    (p_isActive P = true →
     ∃ s' log,
       call ctx c s = Ok (s', log) ∧
       getProperty s' pid =
         Ok (with_p_lastUpdated (block_timestamp ctx) (with_p_ipfsHash h P)) ∧
       (∀ q, q ≠ pid → propertyAt s' q = propertyAt s q) ∧
       transactions s' = transactions s ∧
       ownerProperties s' = ownerProperties s ∧
       balance s' = balance s ∧ paused s' = paused s))).
Proof.
  intros s P c. subst P c.
  assert (wellFormed s) as Hwf by apply reachable_wellFormed.
  split.
  { intros Ho. start_call. meval. mfail. }
  intros Ho. split.
  { intros Hid. start_call. meval. mfail. }
  intros Hid. split.
  { intros Ha. start_call. meval. mfail. }
  intros Ha.
  assert (∃ s' log, call ctx (UpdatePropertyDocuments pid h) s = Ok (s', log))
    as (s' & log & Hc).
  { start_call. meval. unfold emit. eauto. }
  exists s', log. split; [exact Hc|].
  assert (wellFormed s') as Hwf'.
  { eapply Transition_wellFormed; eauto using call_Transition. }
  apply call_Transition in Hc.
  remember (UpdatePropertyDocuments pid h) as c eqn:Ec.
  destruct Hc; try discriminate Ec;
    try (destruct Hcall; subst c; discriminate).
  { subst c. discriminate Hkind. }
  injection Ec as -> ->. destruct Hreplaced as [Hprops ? ? Ht Hown Hb ? Hpa].
  repeat split; auto.
  - apply getProperty_Ok_iff; [exact Hwf'|]. rewrite Hprops.
    apply lookup_insert_eq.
  - intros q Hne. apply (propertyAt_insert_ne _ _ _ _ _ Hprops Hne).
Qed.

Lemma requestToPurchase_post ctx pid price h value s s' log :
  wellFormed s →
  call ctx (RequestToPurchase pid price h value) s = Ok (s', log) →
  transactionIds s' = transactionIds s + 1 ∧
  getTransaction s' (transactionIds s + 1) =
    Ok (mkTransaction (transactionIds s + 1) pid (p_owner (propertyAt s pid))
          (msg_sender ctx) price TS_Pending (block_timestamp ctx) 0 h) ∧
  p_status (propertyAt s' pid) = PS_SaleInProgress ∧
  getPropertyTransactions s' pid =
    (getPropertyTransactions s pid ++ [transactionIds s + 1])%list ∧
  balance s' = balance s + value.
Proof.
  intros Hwf Hc.
  assert (wellFormed s') as Hwf'.
  { eapply Transition_wellFormed; eauto using call_Transition. }
  destruct (call_registry_frame _ _ _ _ _ Hc) as (Hpt & _ & _).
  cbn [propertyTransactionsAfter] in Hpt.
  apply requestToPurchase_Transition in Hc
    as (_ & Htn & Ht & Hp & Hb & _ & _).
  split; [exact Htn|]. split; [|split; [|split; [|exact Hb]]].
  - apply getTransaction_Ok_iff; [exact Hwf'|]. rewrite Ht.
    apply lookup_insert_eq.
  - rewrite (propertyAt_insert_eq _ _ _ _ Hp). reflexivity.
  - unfold getPropertyTransactions, propertyTransactionsOf at 1.
    rewrite Hpt, lookup_insert_eq. reflexivity.
Qed.

(** X23: [requestToPurchase], case by case, in a state reached from
    deployment: the reasons for which it reverts, in the order in which the
    code checks them, and on success the new Pending transaction under the
    next id, with the current owner as seller, the property in
    SaleInProgress, the id appended to the property's transaction list and
    the whole value sent kept in the balance. *)
Theorem X23_requestToPurchase_outcome deployer cs ctx pid price h value :
  let s := finalState cs (deployed deployer) in
  let P := propertyAt s pid in
  let c := RequestToPurchase pid price h value in
  (paused s = true → call ctx c s = Err EnforcedPause) ∧
  (paused s = false →
   (p_id P = 0 → call ctx c s = Err (Revert "Property does not exist")) ∧
   (p_id P ≠ 0 →
    (p_isActive P = false → call ctx c s = Err (Revert "Property is not active")) ∧
    (p_isActive P = true →
     (p_status P ≠ PS_ListedForSale →
      call ctx c s = Err (Revert "Property is not listed for sale")) ∧
     (p_status P = PS_ListedForSale →
      (p_owner P = msg_sender ctx →
       call ctx c s = Err (Revert "Cannot purchase your own property")) ∧
      (p_owner P ≠ msg_sender ctx →
       (value < price → call ctx c s = Err (Revert "Insufficient payment")) ∧
       (price <= value →
        (price < p_marketValue P →
         call ctx c s = Err (Revert "Price below market value")) ∧
        (p_marketValue P <= price → transactionIds s < MAX_UINT256 →
         ∃ s' log,
           call ctx c s = Ok (s', log) ∧
           getTransaction s' (transactionIds s + 1) =
             Ok (mkTransaction (transactionIds s + 1) pid (p_owner P)
                   (msg_sender ctx) price TS_Pending (block_timestamp ctx) 0 h) ∧
           p_status (propertyAt s' pid) = PS_SaleInProgress ∧
           getPropertyTransactions s' pid =
             (getPropertyTransactions s pid ++ [transactionIds s + 1])%list ∧
           balance s' = balance s + value))))))).
Proof.
  intros s P c. subst P c.
  assert (wellFormed s) as Hwf by apply reachable_wellFormed.
  pose proof (wf_entered _ Hwf) as He.
  split.
  { intros Hp.
    apply (paused_guarded_call_reverts ctx (RequestToPurchase pid price h value) s Hp).
    reflexivity. }
  intros Hp. split.
  { intros Hid. start_call. meval. mfail. }
  intros Hid. split.
  { intros Ha. start_call. meval. mfail. }
  intros Ha. split.
  { intros Hs. start_call. meval. mfail. }
  intros Hs. split.
  { intros Ho. start_call. meval. mfail. }
  intros Ho. split.
  { intros Hv. start_call. meval.
    rewrite ?bind_assoc.
    rewrite bind_require_false by (apply N.leb_gt; exact Hv). reflexivity. }
  intros Hv. split.
  { intros Hm. start_call. meval.
    rewrite ?bind_assoc.
    rewrite bind_require_false by (sunfold; apply N.leb_gt; exact Hm).
    reflexivity. }
  intros Hm Hn.
  destruct (requestToPurchase_succeeds ctx pid price h value s)
    as (s' & log & Hc); auto.
  exists s', log. split; [exact Hc|].
  destruct (requestToPurchase_post _ _ _ _ _ _ _ _ Hwf Hc) as (_ & H1 & H2 & H3 & H4).
  auto.
Qed.

Lemma bind_payableCall_refused {B : Type} ctx to amount (f : bool → M B) s l :
  accepts ctx to = false →
  (payableCall ctx to amount ≫= f) s l = f false s l.
Proof.
  intros Hacc. unfold mbind, M_bind, payableCall.
  rewrite Hacc, andb_false_r. reflexivity.
Qed.

(** In the states reached from deployment the balance covers every open
    transaction. *)
Lemma reachable_funds deployer cs tid :
  let s := finalState cs (deployed deployer) in
  t_id (transactionAt s tid) ≠ 0 →
  t_status (transactionAt s tid) = TS_Pending
  ∨ t_status (transactionAt s tid) = TS_Approved →
  t_price (transactionAt s tid) <= balance s.
Proof.
  intros s Hid Hst.
  destruct (run_accounting cs (deployed deployer)
              (deployed_wellFormed deployer) (deployed_accounting deployer))
    as [_ Hsolv].
  fold (finalState cs (deployed deployer)) in Hsolv. fold s in Hsolv.
  pose proof (transactionAt_exists _ _ Hid) as HT.
  assert (t_price (transactionAt s tid) <= openEscrow s).
  { apply (price_le_openEscrow s tid _ HT). unfold isOpen.
    destruct Hst as [-> | ->]; reflexivity. }
  lia.
Qed.

Lemma processPurchaseRequest_post ctx tid approve s s' log :
  wellFormed s →
  call ctx (ProcessPurchaseRequest tid approve) s = Ok (s', log) →
  getTransaction s' tid =
    Ok (with_t_completedAt (block_timestamp ctx)
          (with_t_status (if approve then TS_Approved else TS_Rejected)
             (transactionAt s tid))) ∧
  p_status (propertyAt s' (t_propertyId (transactionAt s tid))) =
    (if approve then p_status (propertyAt s (t_propertyId (transactionAt s tid)))
     else PS_ListedForSale) ∧
  transfersOf log =
    (if approve then []
     else [(t_buyer (transactionAt s tid), t_price (transactionAt s tid))]) ∧
  balance s' =
    (if approve then balance s else balance s - t_price (transactionAt s tid)).
Proof.
  intros Hwf Hc.
  assert (wellFormed s') as Hwf'.
  { eapply Transition_wellFormed; eauto using call_Transition. }
  apply processPurchaseRequest_Transition in Hc
    as (_ & Ht & Hp & Hb & Htr & _).
  split; [|split; [|split; [exact Htr|exact Hb]]].
  - apply getTransaction_Ok_iff; [exact Hwf'|]. rewrite Ht.
    apply lookup_insert_eq.
  - rewrite (propertyAt_insert_eq _ _ _ _ Hp). destruct approve; reflexivity.
Qed.

(** X24: [processPurchaseRequest], case by case, in a state reached from
    deployment.  Only the seller of an existing Pending transaction gets
    through.  Approval marks the transaction Approved and moves no ether;
    rejection marks it Rejected, sets the property back to ListedForSale and
    sends the price to the buyer; if the buyer does not accept the refund
    the call reverts with "Refund failed". *)
Theorem X24_processPurchaseRequest_outcome deployer cs ctx tid approve :
  let s := finalState cs (deployed deployer) in
  let T := transactionAt s tid in
  let c := ProcessPurchaseRequest tid approve in
  (paused s = true → call ctx c s = Err EnforcedPause) ∧
  (paused s = false →
   (t_id T = 0 → call ctx c s = Err (Revert "Transaction does not exist")) ∧
   (t_id T ≠ 0 →
    (t_seller T ≠ msg_sender ctx →
     call ctx c s = Err (Revert "Only seller can process the request")) ∧
    (t_seller T = msg_sender ctx →
     (t_status T ≠ TS_Pending →
      call ctx c s = Err (Revert "Transaction already processed")) ∧
     (t_status T = TS_Pending →
      (approve = false → accepts ctx (t_buyer T) = false →
       call ctx c s = Err (Revert "Refund failed")) ∧
      (approve = true ∨ accepts ctx (t_buyer T) = true →
       ∃ s' log,
         call ctx c s = Ok (s', log) ∧
         getTransaction s' tid =
           Ok (with_t_completedAt (block_timestamp ctx)
                 (with_t_status (if approve then TS_Approved else TS_Rejected) T)) ∧
         p_status (propertyAt s' (t_propertyId T)) =
           (if approve then p_status (propertyAt s (t_propertyId T))
            else PS_ListedForSale) ∧
         transfersOf log =
           (if approve then [] else [(t_buyer T, t_price T)]) ∧
         balance s' =
           (if approve then balance s else balance s - t_price T)))))).
Proof.
  intros s T c. subst T c.
  assert (wellFormed s) as Hwf by apply reachable_wellFormed.
  pose proof (wf_entered _ Hwf) as He.
  split.
  { intros Hp.
    apply (paused_guarded_call_reverts ctx (ProcessPurchaseRequest tid approve) s Hp).
    reflexivity. }
  intros Hp. split.
  { intros Hid. start_call. meval. mfail. }
  intros Hid. split.
  { intros Hs. start_call. meval. mfail. }
  intros Hs. split.
  { intros Hst. start_call. meval. mfail. }
  intros Hst. split.
  { intros -> Hacc. start_call. meval. rewrite ?bind_assoc.
    rewrite bind_payableCall_refused by (sunfold; exact Hacc). cbv beta.
    rewrite ?bind_assoc.
    rewrite bind_require_false by reflexivity. reflexivity. }
  intros Hok.
  assert (∃ s' log, call ctx (ProcessPurchaseRequest tid approve) s = Ok (s', log))
    as (s' & log & Hc).
  { destruct approve.
    - apply processPurchaseRequest_approve_succeeds; auto.
    - destruct Hok as [Hok|Hok]; [discriminate Hok|].
      apply processPurchaseRequest_reject_succeeds; auto.
      apply (reachable_funds deployer cs tid Hid). left. exact Hst. }
  exists s', log. split; [exact Hc|].
  apply (processPurchaseRequest_post _ _ _ _ _ _ Hwf Hc).
Qed.

(** X25: the reasons for which [completePurchase] reverts in a state
    reached from deployment, in the order in which the code checks them; in
    particular, if the seller does not accept the payment the call reverts
    with "Payment transfer failed" and nothing has changed. *)
Theorem X25_completePurchase_rejections deployer cs ctx tid :
  let s := finalState cs (deployed deployer) in
  let T := transactionAt s tid in
  let c := CompletePurchase tid in
  (paused s = true → call ctx c s = Err EnforcedPause) ∧
  (paused s = false →
   (t_id T = 0 → call ctx c s = Err (Revert "Transaction does not exist")) ∧
   (t_id T ≠ 0 →
    (t_status T ≠ TS_Approved →
     call ctx c s = Err (Revert "Transaction must be approved first")) ∧
    (t_status T = TS_Approved →
     (t_buyer T ≠ msg_sender ctx →
      call ctx c s = Err (Revert "Only buyer can complete the purchase")) ∧
     (t_buyer T = msg_sender ctx → accepts ctx (t_seller T) = false →
      call ctx c s = Err (Revert "Payment transfer failed") ∧
      step ctx c s = (s, []))))).
Proof.
  intros s T c. subst T c.
  assert (wellFormed s) as Hwf by apply reachable_wellFormed.
  pose proof (wf_entered _ Hwf) as He.
  split.
  { intros Hp.
    apply (paused_guarded_call_reverts ctx (CompletePurchase tid) s Hp).
    reflexivity. }
  intros Hp. split.
  { intros Hid. start_call. meval. mfail. }
  intros Hid. split.
  { intros Hst. start_call. meval. mfail. }
  intros Hst. split.
  { intros Hb. start_call. meval. mfail. }
  intros Hb Hacc.
  assert (call ctx (CompletePurchase tid) s = Err (Revert "Payment transfer failed"))
    as Hc.
  { start_call. meval.
    unfold mbind at 1, M_bind at 1. rewrite removeFromOwnerList_eq.
    destruct (firstIndexFrom _ 0 _ _); meval;
      match goal with
      | |- context [(registerAsPropertyOwner ctx ?a ≫= ?f) ?s1 ?l1] =>
          destruct (registerAsPropertyOwner_total ctx a s1 l1)
            as (s' & l' & E & Hb');
          rewrite (bind_eval _ f _ _ _ _ _ E)
      end;
      rewrite ?bind_assoc;
      rewrite bind_payableCall_refused by (sunfold; exact Hacc); cbv beta;
      rewrite ?bind_assoc;
      rewrite bind_require_false by reflexivity; reflexivity. }
  split; [exact Hc|]. unfold step. rewrite Hc. reflexivity.
Qed.

(** ** The pause flag, and who changes an owner *)

Lemma set_paused_round_trip s :
  paused s = false → set_paused false (set_paused true s) = s.
Proof. destruct s. cbn. intros ->. reflexivity. Qed.

(** X26: [pause] and [unpause] are for Superadmins only; [pause] fails
    on a paused registry and [unpause] on one that is not paused; and
    pausing and then unpausing gives back exactly the state before the
    pause. *)
Theorem X26_pause_unpause_round_trip ctx s :
  (hasRole s SUPERADMIN_ROLE (msg_sender ctx) = false →
   call ctx Pause s =
     Err (AccessControlUnauthorizedAccount (msg_sender ctx) SUPERADMIN_ROLE) ∧
   call ctx Unpause s =
     Err (AccessControlUnauthorizedAccount (msg_sender ctx) SUPERADMIN_ROLE)) ∧
  (hasRole s SUPERADMIN_ROLE (msg_sender ctx) = true →
   (paused s = true → call ctx Pause s = Err EnforcedPause) ∧
   (paused s = false →
    call ctx Unpause s = Err ExpectedPause ∧
    ∃ s1 log1 log2,
      call ctx Pause s = Ok (s1, log1) ∧ paused s1 = true ∧
      call ctx Unpause s1 = Ok (s, log2))).
Proof.
  split.
  - intros Hr. split.
    + apply (onlyRole_rejects ctx Pause s I Hr).
    + apply (onlyRole_rejects ctx Unpause s I Hr).
  - intros Hr. split.
    + intros Hp. start_call. meval.
      rewrite bind_check_false by (rewrite Hp; reflexivity). reflexivity.
    + intros Hp. split.
      * start_call. meval.
        rewrite bind_check_false by exact Hp. reflexivity.
      * exists (set_paused true s). do 2 eexists. split; [|split].
        -- start_call. meval. unfold emit. reflexivity.
        -- reflexivity.
        -- start_call. meval. unfold emit.
           rewrite (set_paused_round_trip s Hp). reflexivity.
Qed.

Lemma pushVillages_paused a vs s l r :
  pushVillages a vs s l = Ok r → paused r.1.2 = paused s.
Proof.
  revert s l. induction vs as [|v vs IH]; intros s l H; cbn [pushVillages] in H.
  - minv. reflexivity.
  - minv. apply IH in H. rewrite H. reflexivity.
Qed.

Lemma call_paused ctx c s s' log :
  call ctx c s = Ok (s', log) →
  match c with
  | Pause =>
      hasRole s SUPERADMIN_ROLE (msg_sender ctx) = true ∧
      paused s = false ∧ paused s' = true
  | Unpause =>
      hasRole s SUPERADMIN_ROLE (msg_sender ctx) = true ∧
      paused s = true ∧ paused s' = false
  | _ => paused s' = paused s
  end.
Proof.
  intros H.
  destruct (isAdminCall c) eqn:Hk.
  - destruct c; try discriminate Hk.
    + call_inv H; reflexivity.
    + call_inv H.
      all: match goal with
           | Hp : pushVillages _ _ _ _ = Ok _ |- _ =>
               pose proof (pushVillages_paused _ _ _ _ _ Hp) as Hpa;
               apply pushVillages_villages in Hp as (s1 & l1 & E & _)
           end; minv; exact Hpa.
    + call_inv H. sunfold. auto.
    + call_inv H. sunfold. auto.
    + call_inv H; reflexivity.
    + call_inv H; reflexivity.
    + call_inv H; reflexivity.
    + call_inv H; reflexivity.
  - destruct (call_frame _ _ _ _ _ H Hk) as [Hp _].
    destruct c; try discriminate Hk; exact Hp.
Qed.

(** X27: the pause flag changes only through [pause] and [unpause],
    called by an account that holds the Superadmin role. *)
Theorem X27_only_a_superadmin_changes_the_pause_flag ctx c s s' log :
  call ctx c s = Ok (s', log) → paused s' ≠ paused s →
  hasRole s SUPERADMIN_ROLE (msg_sender ctx) = true ∧
  (c = Pause ∧ paused s' = true ∨ c = Unpause ∧ paused s' = false).
Proof.
  intros Hc Hne. apply call_paused in Hc.
  destruct c; try contradiction; destruct Hc as (Hr & _ & Hp); auto.
Qed.

Lemma X27_only_a_superadmin_changes_the_pause_flag_witness :
  let s := finalState scenarioListed (deployed registrar) in
  let r := step (as_ registrar) Pause s in
  hasRole s SUPERADMIN_ROLE (msg_sender (as_ registrar)) = true ∧
  (Pause = Pause ∧ paused r.1 = true ∨ Pause = Unpause ∧ paused r.1 = false).
Proof.
  intros s r.
  apply (X27_only_a_superadmin_changes_the_pause_flag (as_ registrar) Pause s r.1 r.2);
    [vm_compute; reflexivity | vm_compute; discriminate].
Defined.

(** The owner of a property after a call. *)
Lemma Transition_owner ctx s s' log c p :
  Transition ctx s s' log c → wellFormed s →
  p_id (propertyAt s p) ≠ 0 →
  p_owner (propertyAt s' p) ≠ p_owner (propertyAt s p) →
  ∃ tid, (c = CompletePurchase tid ∨ c = BuyProperty tid) ∧
         t_propertyId (transactionAt s tid) = p ∧
         t_status (transactionAt s tid) = TS_Approved ∧
         t_buyer (transactionAt s tid) = msg_sender ctx ∧
         p_owner (propertyAt s' p) = msg_sender ctx ∧
         transfersOf log =
           [(t_seller (transactionAt s tid), t_price (transactionAt s tid))].
Proof.
  intros HT Hwf Hex Hne.
  pose proof (propertyAt_exists _ _ Hex) as HP.
  destruct HT; try (destruct Hreplaced as [Hproperties]);
    try (exfalso; apply Hne;
         destruct (decide (p = pid)) as [->|Hnp];
         [rewrite (propertyAt_insert_eq _ _ _ _ Hproperties);
          try destruct approve; reflexivity
         |rewrite (propertyAt_insert_ne _ _ _ _ _ Hproperties Hnp); reflexivity]).
  - exfalso. apply Hne. destruct Hsame as [Hn Htn Hp Ht Ho He].
    rewrite (propertyAt_same _ _ _ Hp). reflexivity.
  - exfalso. apply Hne.
    rewrite (propertyAt_insert_ne _ _ _ _ _ Hproperties); [reflexivity|].
    destruct (wf_properties _ Hwf _ _ HP) as (_ & _ & Hle). lia.
  - exfalso. apply Hne.
    destruct (decide (p = t_propertyId (transactionAt s tid))) as [->|Hnp].
    + rewrite (propertyAt_insert_eq _ _ _ _ Hproperties).
      destruct approve; reflexivity.
    + rewrite (propertyAt_insert_ne _ _ _ _ _ Hproperties Hnp). reflexivity.
  - destruct (decide (p = t_propertyId (transactionAt s tid))) as [->|Hnp].
    + exists tid. repeat split; auto.
      rewrite (propertyAt_insert_eq _ _ _ _ Hproperties). exact Hcaller.
    + exfalso. apply Hne.
      rewrite (propertyAt_insert_ne _ _ _ _ _ Hproperties Hnp). reflexivity.
Qed.

(** X28: the owner of a registered property changes only through
    [completePurchase] (or its alias [buyProperty]) on an Approved
    transaction for that property, called by the buyer of the transaction,
    who is the new owner, and with the price sent to the seller of the
    transaction in the same call. *)
Theorem X28_ownership_changes_only_by_completion deployer cs ctx c s' log p :
  let s := finalState cs (deployed deployer) in
  call ctx c s = Ok (s', log) →
  p_id (propertyAt s p) ≠ 0 →
  p_owner (propertyAt s' p) ≠ p_owner (propertyAt s p) →
  ∃ tid, (c = CompletePurchase tid ∨ c = BuyProperty tid) ∧
         t_propertyId (transactionAt s tid) = p ∧
         t_status (transactionAt s tid) = TS_Approved ∧
         t_buyer (transactionAt s tid) = msg_sender ctx ∧
         p_owner (propertyAt s' p) = msg_sender ctx ∧
         transfersOf log =
           [(t_seller (transactionAt s tid), t_price (transactionAt s tid))].
Proof.
  intros s Hc. apply Transition_owner; [apply call_Transition, Hc|].
  apply reachable_wellFormed.
Qed.

Lemma X28_ownership_changes_only_by_completion_witness :
  let s := finalState scenarioApproved (deployed registrar) in
  let r := step (as_ bob) (CompletePurchase 1) s in
  ∃ tid, (CompletePurchase 1 = CompletePurchase tid
          ∨ CompletePurchase 1 = BuyProperty tid) ∧
         t_propertyId (transactionAt s tid) = 1 ∧
         t_status (transactionAt s tid) = TS_Approved ∧
         t_buyer (transactionAt s tid) = msg_sender (as_ bob) ∧
         p_owner (propertyAt r.1 1) = msg_sender (as_ bob) ∧
         transfersOf r.2 =
           [(t_seller (transactionAt s tid), t_price (transactionAt s tid))].
Proof.
  intros s r.
  apply (X28_ownership_changes_only_by_completion registrar scenarioApproved
           (as_ bob) (CompletePurchase 1) r.1 r.2 1);
    [vm_compute; reflexivity | vm_compute; discriminate | vm_compute; discriminate].
Defined.

(** ** The seller of an open transaction *)

Lemma openSellerIsOwner_replace s s' pid P' :
  properties s' = <[pid := P']> (properties s) →
  transactions s' = transactions s →
  p_owner P' = p_owner (propertyAt s pid) →
  openSellerIsOwner s → openSellerIsOwner s'.
Proof.
  intros Hp Ht Hown Hinv i T. rewrite Ht. intros HT Ho.
  rewrite (Hinv i T HT Ho).
  destruct (decide (t_propertyId T = pid)) as [->|Hne].
  - rewrite (propertyAt_insert_eq _ _ _ _ Hp). congruence.
  - rewrite (propertyAt_insert_ne _ _ _ _ _ Hp Hne). reflexivity.
Qed.

Lemma Transition_openSeller ctx s s' log c :
  Transition ctx s s' log c → wellFormed s → atMostOneOpen s →
  openSellerIsOwner s → openSellerIsOwner s'.
Proof.
  intros HT Hwf Hone Hinv. destruct HT;
    try (destruct Hreplaced;
         eapply (openSellerIsOwner_replace s s'); eauto;
         try destruct approve; reflexivity).
  - destruct Hsame as [Hn Htn Hp Ht Ho He]. intros i T. rewrite Ht.
    rewrite (propertyAt_same _ _ _ Hp). apply Hinv.
  - intros i T. rewrite Htransactions. intros HT Ho.
    pose proof (wf_transaction_property _ _ _ Hwf HT) as HP.
    destruct (wf_properties _ Hwf _ _ HP) as (_ & _ & Hle).
    rewrite (propertyAt_insert_ne _ _ _ _ _ Hproperties) by lia. eauto.
  - intros i T. rewrite Htransactions. intros HT Ho.
    apply lookup_insert_Some in HT as [[<- <-]|[Hni HT]].
    + cbn [t_seller t_propertyId].
      rewrite (propertyAt_insert_eq _ _ _ _ Hproperties). reflexivity.
    + rewrite (Hinv i T HT Ho).
      destruct (decide (t_propertyId T = pid)) as [->|Hne].
      * rewrite (propertyAt_insert_eq _ _ _ _ Hproperties). reflexivity.
      * rewrite (propertyAt_insert_ne _ _ _ _ _ Hproperties Hne). reflexivity.
  - pose proof (transactionAt_exists _ _ Hexists) as HT0.
    assert (isOpen (transactionAt s tid) = true) as Ho0.
    { unfold isOpen. rewrite Hstatus. reflexivity. }
    intros i T. rewrite Htransactions. intros HT Ho.
    assert (t_seller T = p_owner (propertyAt s (t_propertyId T))) as E.
    { apply lookup_insert_Some in HT as [[<- <-]|[Hni HT]]; [|eauto].
      apply (Hinv tid _ HT0 Ho0). }
    rewrite E.
    destruct (decide (t_propertyId T = t_propertyId (transactionAt s tid)))
      as [Ep|Hne].
    + rewrite Ep, (propertyAt_insert_eq _ _ _ _ Hproperties).
      destruct approve; reflexivity.
    + rewrite (propertyAt_insert_ne _ _ _ _ _ Hproperties Hne). reflexivity.
  - pose proof (transactionAt_exists _ _ Hexists) as HT0.
    assert (isOpen (transactionAt s tid) = true) as Ho0.
    { unfold isOpen. rewrite Hstatus. reflexivity. }
    intros i T. rewrite Htransactions. intros HT Ho.
    apply lookup_insert_Some in HT as [[<- <-]|[Hni HT]]; [discriminate Ho|].
    rewrite (Hinv i T HT Ho).
    rewrite (propertyAt_insert_ne _ _ _ _ _ Hproperties); [reflexivity|].
    intros Ep. apply Hni. symmetry. eapply Hone; eauto.
Qed.

Lemma run_openSeller cs s :
  gated cs s = true → wellFormed s →
  atMostOneOpen s ∧ openImpliesInProgress s → openSellerIsOwner s →
  openSellerIsOwner (run cs s).1.
Proof.
  revert s. induction cs as [|[ctx c] cs IH]; intros s Hg Hwf Hsingle Hinv;
    [exact Hinv|].
  cbn [gated] in Hg. apply andb_true_iff in Hg as [Hg1 Hg2].
  rewrite run_cons. cbn [fst].
  apply IH; auto using step_wellFormed, step_singleSale.
  destruct (step_cases ctx c s) as [(s' & log & Hc & ->)|(e & _ & ->)];
    cbn [fst]; [|exact Hinv].
  eapply Transition_openSeller; eauto using call_Transition. apply Hsingle.
Qed.

(** X29: as long as [removeFromSale] has not been applied to a property
    whose sale is in progress, the seller recorded in every Pending or
    Approved transaction is the current owner of the property, so that
    [completePurchase] pays the owner who loses the property. *)
Theorem X29_seller_is_the_owner_while_gated deployer cs i T :
  let s := finalState cs (deployed deployer) in
  gated cs (deployed deployer) = true →
  getTransaction s i = Ok T → isOpen T = true →
  p_owner (propertyAt s (t_propertyId T)) = t_seller T ∧
  ∀ ctx s' log,
    call ctx (CompletePurchase i) s = Ok (s', log) →
    transfersOf log = [(p_owner (propertyAt s (t_propertyId T)), t_price T)] ∧
    p_owner (propertyAt s' (t_propertyId T)) = t_buyer T.
Proof.
  intros s Hg HT Ho.
  assert (wellFormed s) as Hwf by apply reachable_wellFormed.
  apply getTransaction_Ok_iff in HT; [|exact Hwf].
  assert (openSellerIsOwner s) as Hinv.
  { apply run_openSeller;
      [exact Hg | apply deployed_wellFormed | apply deployed_singleSale |].
    destruct (deployed_state deployer) as (_ & Ht & _).
    intros j Tj Hj. rewrite Ht, lookup_empty in Hj. discriminate. }
  pose proof (Hinv i T HT Ho) as E. split; [symmetry; exact E|].
  intros ctx s' log Hc.
  apply completePurchase_Transition in Hc as (_ & _ & Hp & _ & Htr).
  rewrite (transactionAt_Some _ _ _ HT) in Hp, Htr.
  rewrite (propertyAt_insert_eq _ _ _ _ Hp). rewrite <- E. split; [exact Htr|].
  reflexivity.
Qed.

Lemma X29_seller_is_the_owner_while_gated_witness :
  let s := finalState scenarioApproved (deployed registrar) in
  p_owner (propertyAt s (t_propertyId (transactionAt s 1)))
    = t_seller (transactionAt s 1) ∧
  ∀ ctx s' log,
    call ctx (CompletePurchase 1) s = Ok (s', log) →
    transfersOf log =
      [(p_owner (propertyAt s (t_propertyId (transactionAt s 1))),
        t_price (transactionAt s 1))] ∧
    p_owner (propertyAt s' (t_propertyId (transactionAt s 1)))
      = t_buyer (transactionAt s 1).
Proof.
  intros s.
  apply (X29_seller_is_the_owner_while_gated registrar scenarioApproved 1
           (transactionAt s 1));
    vm_compute; reflexivity.
Defined.

(** ** Transfers *)

Lemma pushVillages_log a vs s l r :
  pushVillages a vs s l = Ok r → transfersOf r.2 = transfersOf l.
Proof.
  revert s l. induction vs as [|v vs IH]; intros s l H; cbn [pushVillages] in H.
  - minv. reflexivity.
  - minv. apply IH in H. rewrite H, transfersOf_app, app_nil_r. reflexivity.
Qed.

Lemma call_transfers ctx c s s' log :
  call ctx c s = Ok (s', log) → transfersOf log = transfersBy s c.
Proof.
  intros H. destruct c; cbn [transfersBy]; try destruct _approve.
  all: try (call_inv H; logs; sunfold; reflexivity).
  call_inv H.
  all: match goal with
       | Hp : pushVillages _ _ _ _ = Ok _ |- _ =>
           pose proof (pushVillages_log _ _ _ _ _ Hp) as Hlog;
           apply pushVillages_villages in Hp as (s1 & l1 & E & _)
       end; minv; logs; cbn [snd] in Hlog; rewrite Hlog; logs; reflexivity.
Qed.

(** X30: ether leaves the contract in two ways only: the seller's
    rejection of a Pending request sends its price to its buyer, and the
    buyer's completion of an Approved transaction sends its price to its
    seller.  Every other successful call makes no transfer. *)
Theorem X30_funds_leave_only_by_refund_or_payment ctx c s s' log :
  call ctx c s = Ok (s', log) →
  transfersOf log = transfersBy s c ∧
  (transfersOf log ≠ [] →
   ∃ tid,
     (c = ProcessPurchaseRequest tid false ∨ c = ProcessRequest tid false) ∧
       t_status (transactionAt s tid) = TS_Pending ∧
       t_seller (transactionAt s tid) = msg_sender ctx ∧
       t_status (transactionAt s' tid) = TS_Rejected
     ∨
     (c = CompletePurchase tid ∨ c = BuyProperty tid) ∧
       t_status (transactionAt s tid) = TS_Approved ∧
       t_buyer (transactionAt s tid) = msg_sender ctx ∧
       t_status (transactionAt s' tid) = TS_Completed).
Proof.
  intros Hc. pose proof (call_transfers _ _ _ _ _ Hc) as Htr.
  split; [exact Htr|]. rewrite Htr. intros Hne.
  apply call_Transition in Hc.
  destruct Hc; try (destruct Hcall as [-> | ->]); cbn [transfersBy] in Hne;
    try contradiction.
  - destruct c; try discriminate Hkind; contradiction.
  - destruct approve; [contradiction|]. exists tid. left.
    rewrite (transactionAt_insert_eq _ _ _ _ Htransactions). auto.
  - destruct approve; [contradiction|]. exists tid. left.
    rewrite (transactionAt_insert_eq _ _ _ _ Htransactions). auto.
  - exists tid. right.
    rewrite (transactionAt_insert_eq _ _ _ _ Htransactions). auto.
  - exists tid. right.
    rewrite (transactionAt_insert_eq _ _ _ _ Htransactions). auto.
Qed.

Lemma X30_funds_leave_only_by_refund_or_payment_witness :
  let s := finalState scenarioRequested (deployed registrar) in
  let r := step (as_ alice) (ProcessPurchaseRequest 1 false) s in
  transfersOf r.2 = [(bob, 150)] ∧ t_status (transactionAt r.1 1) = TS_Rejected.
Proof.
  intros s r.
  destruct (X30_funds_leave_only_by_refund_or_payment (as_ alice)
              (ProcessPurchaseRequest 1 false) s r.1 r.2) as [Htr _];
    [vm_compute; reflexivity|].
  split; [rewrite Htr|]; vm_compute; reflexivity.
Defined.
